(** * Derived trading-state table

    A shallow embedding of [utils/metadata/market_data_manager.py]: the
    limit-bound calculator and state classifier ([compute_limits]), the
    streak engine ([calculate_continuous_limit_up_optimized]), the
    multi-period returns ([calculate_stock_indicators]), the candle streaks
    ([add_candlestick_trend_streaks]) and the snapshot writer
    ([safe_write_parquet], [create_limit_status_parquet],
    [update_market_states_incremental]); then the trading calendar of
    [is_latest_trading_day] and [is_latest_daily_trading_day], the
    moving averages and [add_price_relative_indicators], the cached
    loader [load_market_states], the counts of
    [calculate_daily_market_stats_from_states] and [_parse_to_date].

    Conventions.
    - Every window expression of the source is evaluated [.over('名称')]
      after [df.sort(['名称', '日期'])]; the model therefore works on the
      rows of ONE symbol, already in date order.
    - A polars column is a list of nullable cells, [list (option A)].
      The null rules are those of polars: arithmetic and comparisons
      ([==], [!=], [>=], ...) give null when an operand is null; [|] and
      [&] follow Kleene's three-valued logic; [when] takes a null condition
      as false; [shift] fills with null unless told otherwise; [cumsum]
      leaves a null cell null and carries the total past it; [rolling_sum]
      adds the non-null cells of its window; in [over], null is a group key
      like any other.  A null cell read into Python is [None].
    - Float64 prices are modelled as exact rationals ([Q]) in
      [compute_limits]; [round(2)] is rounding to the nearest hundredth,
      halves away from zero.  The returns and the moving averages of
      [calculate_stock_indicators] are stated for any arithmetic.
    - The streak engine raises [ComputeError] on a frame without rows,
      as [group_by().map_groups()] does.
    - The file system is a map from paths to contents; what the operating
      system does to each step of a write is given by an oracle.
      [shutil.move] is [os.rename] with its fall-back to copying onto the
      target when [os.rename] raises.
    - [unique] is called without [maintain_order]: the order of its rows
      is decided anew by each run.
    - A [datetime.date] is its proleptic Gregorian ordinal, a [datetime]
      a count of microseconds. *)

From Stdlib Require Import ZArith QArith Lqa List String Ascii Bool Lia Arith.
From Stdlib Require Import DecimalString Permutation.
From Equations Require Import Equations.
Import ListNotations.

Local Open Scope string_scope.

(* ===================================================================== *)
(** * Column primitives of polars, restricted to one group               *)
(* ===================================================================== *)

Module Polars.

Definition col (A : Type) : Type := list (option A).

(** Element-wise operators: a null operand gives a null result. *)
Definition lift2 {A B C} (f : A -> B -> C) (x : option A) (y : option B)
  : option C :=
  match x, y with
  | Some a, Some b => Some (f a b)
  | _, _ => None
  end.

(** [a | b] on Boolean columns (Kleene): true wins over null. *)
Definition kleene_or (x y : option bool) : option bool :=
  match x, y with
  | Some true, _ => Some true
  | _, Some true => Some true
  | Some false, Some false => Some false
  | _, _ => None
  end.

(** [a & b] on Boolean columns (Kleene): false wins over null. *)
Definition kleene_and (x y : option bool) : option bool :=
  match x, y with
  | Some false, _ => Some false
  | _, Some false => Some false
  | Some true, Some true => Some true
  | _, _ => None
  end.

(** [a != b]: null when either side is null. *)
Definition ne (x y : option bool) : option bool :=
  lift2 (fun a b => negb (Bool.eqb a b)) x y.

(** [.cast(pl.Int32)] of a Boolean cell. *)
Definition cast_int (x : option bool) : option Z :=
  option_map (fun b : bool => if b then 1%Z else 0%Z) x.

(** [pl.when(c).then(t).otherwise(o)]: a null condition takes [o]. *)
Definition when_then_otherwise {A} (c : option bool) (t o : A) : A :=
  match c with
  | Some true => t
  | _ => o
  end.

(** [.shift(n)]: the first [n] cells become null, the length is kept. *)
Definition shift {A} (n : nat) (c : col A) : col A :=
  firstn (List.length c) (repeat None n ++ c).

(** [.shift(n, fill_value=v)]. *)
Definition shift_fill {A} (n : nat) (v : A) (c : col A) : col A :=
  firstn (List.length c) (repeat (Some v) n ++ c).

(** [.cumsum()]: a null cell stays null and does not touch the running
    total. *)
Fixpoint cumsum_from (acc : Z) (c : col Z) : col Z :=
  match c with
  | [] => []
  | None :: t => None :: cumsum_from acc t
  | Some v :: t => Some (acc + v)%Z :: cumsum_from (acc + v)%Z t
  end.

Definition cumsum (c : col Z) : col Z := cumsum_from 0 c.

(** The rows [max(0, i - w + 1) .. i] of a column. *)
Definition window {A} (w i : nat) (c : list A) : list A :=
  skipn (S i - w) (firstn (S i) c).

Fixpoint non_null {A} (c : col A) : list A :=
  match c with
  | [] => []
  | Some v :: t => v :: non_null t
  | None :: t => non_null t
  end.

Definition sumZ (l : list Z) : Z := fold_right Z.add 0%Z l.

(** [.rolling_sum(window_size=w, min_periods=mp)] at row [i]: the sum of
    the non-null cells of the window, null when fewer than [mp] of them. *)
Definition rolling_sum_at (w mp : nat) (c : col Z) (i : nat) : option Z :=
  let vs := non_null (window w i c) in
  if (List.length vs <? mp)%nat then None else Some (sumZ vs).

Definition rolling_sum (w mp : nat) (c : col Z) : col Z :=
  map (rolling_sum_at w mp c) (seq 0 (List.length c)).

(** [pl.int_range(0, pl.count()).over(keys)]: the position of a row among
    the rows that carry the same key; null is a key like any other. *)
Fixpoint int_range_over_from {K} (eqb : K -> K -> bool) (seen keys : list K)
  : list Z :=
  match keys with
  | [] => []
  | k :: t =>
      Z.of_nat (List.length (filter (eqb k) seen))
        :: int_range_over_from eqb (k :: seen) t
  end.

Definition int_range_over {K} (eqb : K -> K -> bool) (keys : list K)
  : list Z :=
  int_range_over_from eqb [] keys.

Definition key_eqb (x y : option Z) : bool :=
  match x, y with
  | Some a, Some b => Z.eqb a b
  | None, None => true
  | _, _ => false
  end.

(** Two columns of equal length, row by row. *)
Fixpoint map2 {A B C} (f : A -> B -> C) (a : list A) (b : list B) : list C :=
  match a, b with
  | x :: a', y :: b' => f x y :: map2 f a' b'
  | _, _ => []
  end.

End Polars.

(* ===================================================================== *)
(** * Limit-bound calculator and state classifier: [compute_limits]      *)
(* ===================================================================== *)

Module Limits.
Import Polars.

(** One daily bar of the input frame: 代码, 名称, 开盘, 最高, 最低, 收盘 and
    the supplied daily percentage change 涨跌幅. *)
Record Bar : Type := mkBar {
  code : string;
  name : string;
  open_price : option Q;
  high : option Q;
  low : option Q;
  close : option Q;
  pct_chg : option Q
}.

(** The [custom_limits] dict, in insertion order. *)
Definition custom_limits : list (string * Q) :=
  [ ("68", 0.20%Q); ("30", 0.20%Q); ("8", 0.30%Q); ("4", 0.30%Q);
    ("9", 0.30%Q); ("ST", 0.05%Q); ("default", 0.10%Q) ].

Fixpoint dict_get (k : string) (d : list (string * Q)) (default : Q) : Q :=
  match d with
  | [] => default
  | (k', v) :: t => if String.eqb k k' then v else dict_get k t default
  end.

Definition dict_mem (k : string) (d : list (string * Q)) : bool :=
  existsb (fun kv => String.eqb k (fst kv)) d.

(** [str.contains(pat)] for a pattern without regex metacharacters. *)
Definition str_contains (pat s : string) : bool :=
  match index 0 pat s with
  | Some _ => true
  | None => false
  end.

(** [str.starts_with(p)]. *)
Definition starts_with (s p : string) : bool := prefix p s.

(** A polars expression over the columns 代码 and 名称. *)
Definition Expr : Type := string -> string -> Q.

(** [get_limit_pct_expr]: the default literal, wrapped by the ST test, then
    wrapped once more by each prefix test in dict order.  Every wrap puts
    its own test outside the expression built so far. *)
Definition get_limit_pct_expr : Expr :=
  let limit_expr : Expr := fun _ _ => dict_get "default" custom_limits 0.10%Q in
  let limit_expr : Expr :=
    if dict_mem "ST" custom_limits
    then fun c n =>
           if str_contains "ST" n
           then dict_get "ST" custom_limits 0%Q
           else limit_expr c n
    else limit_expr in
  fold_left
    (fun (limit_expr : Expr) (item : string * Q) =>
       let (pfx, limit_pct) := item in
       if negb (existsb (String.eqb pfx) ["ST"; "default"])
       then fun c n => if starts_with c pfx then limit_pct else limit_expr c n
       else limit_expr)
    custom_limits limit_expr.

(** [.round(2)]: nearest hundredth, halves away from zero.  The prices
    are exact decimals here; Float64 holds a price such as 2.675 as the
    binary fraction next to it, which can lie on the other side of the
    half. *)
Definition round_half_away (q : Q) : Z :=
  let n := Qnum q in
  let d := Zpos (Qden q) in
  (Z.sgn n * ((2 * Z.abs n + d) / (2 * d)))%Z.

Definition round2 (q : Q) : Q := Qmake (round_half_away (q * 100)) 100.

(** Comparisons of Float64 cells. *)
Definition ge (x y : option Q) : option bool := lift2 (fun a b => Qle_bool b a) x y.
Definition le (x y : option Q) : option bool := lift2 Qle_bool x y.
Definition lt (x y : option Q) : option bool :=
  lift2 (fun a b => negb (Qle_bool b a)) x y.
Definition eq (x y : option Q) : option bool := lift2 Qeq_bool x y.

(** The columns [compute_limits] adds: 昨收, 涨跌幅限制, 涨停价, 跌停价, 涨停,
    跌停, 炸板. *)
Record LimitRow : Type := mkLimitRow {
  bar : Bar;
  prev_close : option Q;
  limit_pct : Q;
  limit_up_price : option Q;
  limit_down_price : option Q;
  is_limit_up : option bool;
  is_limit_down : option bool;
  is_break : option bool
}.

Definition classify (b : Bar) (prev : option Q) : LimitRow :=
  let pct := get_limit_pct_expr (code b) (name b) in
  let up := option_map (fun p => round2 (p * (1 + pct))) prev in
  let down := option_map (fun p => round2 (p * (1 - pct))) prev in
  let change := option_map (fun c => c * 0.01)%Q (pct_chg b) in
  {| bar := b;
     prev_close := prev;
     limit_pct := pct;
     limit_up_price := up;
     limit_down_price := down;
     is_limit_up := kleene_or (ge change (Some pct)) (eq up (close b));
     is_limit_down := kleene_or (le change (Some (- pct)%Q)) (eq down (close b));
     is_break :=
       kleene_and (eq (option_map round2 (high b)) up)
                  (lt (option_map round2 (close b)) up) |}.

(** [compute_limits] on the rows of one symbol.  [supplied] is the 昨收
    column when the input frame already has one; otherwise it is computed
    as [pl.col('收盘').shift(1).over('名称')]. *)
Definition compute_limits (supplied : option (col Q)) (bars : list Bar)
  : list LimitRow :=
  let prev :=
    match supplied with
    | Some c => c
    | None => shift 1 (map close bars)
    end in
  map2 classify bars prev.

(** The precedence rule as §4.1 of the specification words it: special
    treatment first, then the 20% prefixes, then the 30% prefixes. *)
Definition spec_limit_pct (c n : string) : Q :=
  if str_contains "ST" n then 0.05%Q
  else if starts_with c "68" || starts_with c "30" then 0.20%Q
  else if starts_with c "8" || starts_with c "4" || starts_with c "9" then 0.30%Q
  else 0.10%Q.

(** The rounded limit prices lie strictly on either side of the previous
    close. *)
Definition brackets_prev_close (r : LimitRow) : Prop :=
  forall p u d,
    prev_close r = Some p -> limit_up_price r = Some u ->
    limit_down_price r = Some d -> (d < p /\ p < u)%Q.

(** The supplied 涨跌幅 has the sign of the move from the previous close. *)
Definition pct_chg_follows_close (r : LimitRow) : Prop :=
  forall p c x,
    prev_close r = Some p -> close (bar r) = Some c ->
    pct_chg (bar r) = Some x ->
    ((0 < x -> p < c) /\ (x < 0 -> c < p))%Q.

(** Two bars of a share that trades at one cent, unchanged. *)
Definition penny_bars : list Bar :=
  [ mkBar "000001" "A" (Some 0.01%Q) (Some 0.01%Q) (Some 0.01%Q) (Some 0.01%Q)
      (Some 0%Q);
    mkBar "000001" "A" (Some 0.01%Q) (Some 0.01%Q) (Some 0.01%Q) (Some 0.01%Q)
      (Some 0%Q) ].

(** Scenario C of the specification: previous close 10.00, close 11.00 on
    a main-board code, a supplied change of 10%. *)
Definition scenario_c_bars : list Bar :=
  [ mkBar "600000" "Y" (Some 10%Q) (Some 10%Q) (Some 10%Q) (Some 10%Q)
      (Some 0%Q);
    mkBar "600000" "Y" (Some 10%Q) (Some 11%Q) (Some 10%Q) (Some 11%Q)
      (Some 10%Q) ].

End Limits.

(* ===================================================================== *)
(** * Streak engine: [calculate_continuous_limit_up_optimized]           *)
(* ===================================================================== *)

Module Streak.
Import Polars.

(** What a Python expression evaluates to: a value, a raised
    [TypeError] (ordering [None] against an int), or the [ComputeError]
    polars raises when [map_groups] is applied to a frame without
    rows. *)
Inductive PyResult (A : Type) : Type :=
| Ok (a : A)
| TypeError
| ComputeError.
Arguments Ok {A} a.
Arguments TypeError {A}.
Arguments ComputeError {A}.

Fixpoint sequence {A} (l : list (PyResult A)) : PyResult (list A) :=
  match l with
  | [] => Ok []
  | TypeError :: _ => TypeError
  | ComputeError :: _ => ComputeError
  | Ok a :: t =>
      match sequence t with
      | Ok r => Ok (a :: r)
      | TypeError => TypeError
      | ComputeError => ComputeError
      end
  end.

Definition string_of_Z (z : Z) : string := NilZero.string_of_int (Z.to_int z).

(** The f-string [f"{total_days}天{consecutive_count}板"]. *)
Definition label (total_days consecutive_count : Z) : string :=
  string_of_Z total_days ++ "天" ++ string_of_Z consecutive_count ++ "板".

(** [group_df['limit_up'][j]] for an index inside the frame; the loops
    below never index outside [0 .. n-1]. *)
Definition cell (c : col Z) (j : Z) : option Z :=
  if (j <? 0)%Z then None else nth (Z.to_nat j) c None.

(** [x == 1] on a cell read into Python: [None == 1] is [False]. *)
Definition is_one (x : option Z) : bool :=
  match x with
  | Some v => Z.eqb v 1
  | None => false
  end.

(** [range(start, stop, -1)]. *)
Fixpoint range_down (start : Z) (len : nat) : list Z :=
  match len with
  | O => []
  | S k => start :: range_down (start - 1) k
  end.

Definition py_range_desc (start stop : Z) : list Z :=
  range_down start (Z.to_nat (start - stop)).

(** The inner [for j in range(current_pos, window_start - 1, -1)] with
    its [break]: the first limit-up row met while stepping backward. *)
Definition find_in_window (limit_up : col Z) (current_pos window_start : Z)
  : option Z :=
  find (fun j => is_one (cell limit_up j))
       (py_range_desc current_pos (window_start - 1)).

(** The loop variables [consecutive_count], [start_pos], [current_pos]. *)
Record WalkState : Type := mkWalk {
  consecutive_count : Z;
  start_pos : Z;
  current_pos : Z
}.

(** One pass through the body of [while current_pos >= 0]; [None] when
    the loop is left (condition false, or [break] after an empty
    window). *)
Definition walk_iter (limit_up : col Z) (st : WalkState) : option WalkState :=
  if (current_pos st <? 0)%Z then None
  else
    let window_start := Z.max 0 (current_pos st - 4) in
    match find_in_window limit_up (current_pos st) window_start with
    | Some j =>
        Some {| consecutive_count := consecutive_count st + 1;
                start_pos := j;
                current_pos := j - 1 |}
    | None => None
    end.

(** Termination of the loop: the search of [find_in_window] stays inside
    its window, so every pass that stays in the loop lowers
    [current_pos]. *)
Lemma range_down_bounds (start : Z) (len : nat) (j : Z) :
  In j (range_down start len) ->
  (start - Z.of_nat len < j <= start)%Z.
Proof.
  revert start; induction len as [|k IH]; intros start H; simpl in H.
  - contradiction.
  - destruct H as [<-|H]; [lia|].
    apply IH in H. lia.
Qed.

Lemma find_in_window_bounds (limit_up : col Z) (p ws j : Z) :
  find_in_window limit_up p ws = Some j ->
  (ws <= j <= p)%Z /\ is_one (cell limit_up j) = true.
Proof.
  unfold find_in_window, py_range_desc. intros H.
  apply find_some in H. destruct H as [Hin Hone].
  apply range_down_bounds in Hin. split; [lia | exact Hone].
Qed.

Lemma walk_iter_decreases (limit_up : col Z) (st st' : WalkState) :
  walk_iter limit_up st = Some st' ->
  (Z.to_nat (current_pos st' + 1) < Z.to_nat (current_pos st + 1))%nat.
Proof.
  unfold walk_iter. destruct (current_pos st <? 0)%Z eqn:Hneg; [discriminate|].
  destruct (find_in_window _ _ _) as [j|] eqn:Hf; [|discriminate].
  intros [= <-]. simpl. apply find_in_window_bounds in Hf.
  apply Z.ltb_ge in Hneg. lia.
Qed.

Definition inspect {A} (a : A) : {b : A | a = b} := exist _ a eq_refl.

(** The [while current_pos >= 0] loop, run to its end; it yields the
    final [consecutive_count] and [start_pos]. *)
Equations walk (limit_up : col Z) (st : WalkState) : Z * Z
  by wf (Z.to_nat (current_pos st + 1)) lt :=
  walk limit_up st with inspect (walk_iter limit_up st) := {
    | exist _ (Some st') Hstep => walk limit_up st'
    | exist _ None _ => (consecutive_count st, start_pos st) }.
Next Obligation.
  eapply walk_iter_decreases; eauto.
Qed.

(** The backward chaining walk of rows that pass the pre-check (source
    lines 410-436): [consecutive_count = 1], [start_pos = i],
    [current_pos = i - 1], then the loop; the pair is
    [(total_days, consecutive_count)]. *)
Definition full_walk (limit_up : col Z) (i : nat) : Z * Z :=
  let '(consecutive_count, start_pos) :=
    walk limit_up {| consecutive_count := 1;
                     start_pos := Z.of_nat i;
                     current_pos := Z.of_nat i - 1 |} in
  let total_days := (Z.of_nat i - start_pos + 1)%Z in
  (total_days, consecutive_count).

Definition full_walk_label (limit_up : col Z) (i : nat) : string :=
  let '(total_days, consecutive_count) := full_walk limit_up i in
  label total_days consecutive_count.

(** The body of [for i in range(n)] in [process_group_with_precheck]. *)
Definition row_label (limit_up last_5days_count : col Z) (i : nat)
  : PyResult string :=
  let current_limit_up := nth i limit_up None in
  let last_5days_sum := nth i last_5days_count None in
  if negb (is_one current_limit_up) then Ok "0天0板"
  else
    match last_5days_sum with
    | None => TypeError
    | Some s =>
        if (s <=? 1)%Z then Ok "1天1板"
        else Ok (full_walk_label limit_up i)
    end.

(** [process_group_with_precheck] on the columns [limit_up] and
    [last_5days_count] of one group: the labels of its rows, or the
    exception of the first row that raises. *)
Definition process_group_with_precheck (limit_up last_5days_count : col Z)
  : PyResult (list string) :=
  let n := List.length limit_up in
  sequence (map (row_label limit_up last_5days_count) (seq 0 n)).

(** The two columns the function adds: 连板数 and 连板天数. *)
Record StreakCols : Type := mkStreakCols {
  streak_len : list Z;
  board_label : list string
}.

(** [(涨停 != 涨停.shift(1, fill_value=False).over('名称')).cast(pl.Int32)]. *)
Definition is_limit_changed (zt : col bool) : col Z :=
  map cast_int (map2 ne zt (shift_fill 1 false zt)).

(** [pl.col('is_limit_changed').cumsum().over('名称')]. *)
Definition limit_group (zt : col bool) : col Z := cumsum (is_limit_changed zt).

(** 连板数:
    [pl.when(涨停).then(pl.int_range(0, pl.count()).over(['名称',
    'limit_group']) + 1).otherwise(0)]. *)
Definition streak_column (zt : col bool) : list Z :=
  map2 (fun z r => when_then_otherwise z (r + 1)%Z 0%Z)
       zt (int_range_over key_eqb (limit_group zt)).

(** [calculate_continuous_limit_up_optimized] on the 涨停 column [zt] of
    one symbol: 连板数, then [limit_up] and [last_5days_count], then the
    labels of [process_group_with_precheck].  A column without rows is a
    frame without rows: there
    [group_by('名称', maintain_order=True).map_groups(...)] raises. *)
Definition calculate_continuous_limit_up_optimized (zt : col bool)
  : PyResult StreakCols :=
  match zt with
  | [] => ComputeError
  | _ :: _ =>
      let limit_up := map cast_int zt in
      let last_5days_count := rolling_sum 5 1 limit_up in
      match process_group_with_precheck limit_up last_5days_count with
      | Ok labels =>
          Ok {| streak_len := streak_column zt; board_label := labels |}
      | TypeError => TypeError
      | ComputeError => ComputeError
      end
  end.

(** The label a row gets when nothing raises: the three branches of the
    loop body, with the trailing count written out. *)
Definition trailing_count (limit_up : col Z) (i : nat) : Z :=
  sumZ (non_null (window 5 i limit_up)).

Definition label_of (limit_up : col Z) (i : nat) : string :=
  if negb (is_one (nth i limit_up None)) then "0天0板"
  else if (trailing_count limit_up i <=? 1)%Z then "1天1板"
  else full_walk_label limit_up i.

(** The counter the docstring describes ("连续涨停的天数"): one more than
    on the previous row while the flag is true, 0 on a row where it is
    not. *)
Fixpoint run_lengths (prev : Z) (flags : list bool) : list Z :=
  match flags with
  | [] => []
  | b :: t =>
      let k := if b then (prev + 1)%Z else 0%Z in
      k :: run_lengths k t
  end.

(** The change flags of a column without nulls, against the previous
    flag [p]. *)
Fixpoint changes (p : bool) (flags : list bool) : list bool :=
  match flags with
  | [] => []
  | b :: t => negb (Bool.eqb b p) :: changes b t
  end.

(** Row [j] is the nearest limit-up row before row [p]. *)
Definition nearest_limit_up_before (limit_up : col Z) (p j : Z) : Prop :=
  (0 <= j < p)%Z /\ is_one (cell limit_up j) = true /\
  forall k, (j < k < p)%Z -> is_one (cell limit_up k) = false.

(** The chain survives a gap of [g] rows: whenever the last row of the
    chain is [p] and the nearest limit-up row before it is separated from
    it by at most [g] rows that are not limit-up, the next pass of the
    loop takes that row into the chain. *)
Definition chain_survives_gap (g : Z) (limit_up : col Z) : Prop :=
  forall c p j,
    nearest_limit_up_before limit_up p j -> (p - j - 1 <= g)%Z ->
    walk_iter limit_up (mkWalk c p (p - 1)) = Some (mkWalk (c + 1) j (j - 1)).

End Streak.

(* ===================================================================== *)
(** * The two stages chained, as [create_limit_status_parquet] runs them  *)
(* ===================================================================== *)

Module Pipeline.
Import Polars Limits Streak.

Record Derived : Type := mkDerived {
  rows : list LimitRow;
  streaks : StreakCols
}.

(** [compute_limits] on the bars of one symbol (no 昨收 column supplied),
    then [calculate_continuous_limit_up_optimized] on its 涨停 column. *)
Definition derive (bars : list Bar) : PyResult Derived :=
  let rows := compute_limits None bars in
  match calculate_continuous_limit_up_optimized (map is_limit_up rows) with
  | Ok s => Ok {| rows := rows; streaks := s |}
  | TypeError => TypeError
  | ComputeError => ComputeError
  end.

(** [涨跌幅 * 0.01 >= 涨跌幅限制] holds (and is not null) on the bar. *)
Definition reaches_limit (b : Bar) : bool :=
  match pct_chg b with
  | Some x => Qle_bool (get_limit_pct_expr (code b) (name b)) (x * 0.01)
  | None => false
  end.

(** The first bar of a newly listed main-board share that the feed reports
    44% up on the day. *)
Definition listing_day : list Bar :=
  [ mkBar "600001" "N" (Some 12%Q) (Some 14.4%Q) (Some 12%Q) (Some 14.4%Q)
      (Some 44%Q) ].

(** A share that closes at the limit on the second and the third bar of
    its history. *)
Definition two_boards_after_listing : list Bar :=
  [ mkBar "600001" "B" (Some 10%Q) (Some 10%Q) (Some 10%Q) (Some 10%Q)
      (Some 0%Q);
    mkBar "600001" "B" (Some 10%Q) (Some 11%Q) (Some 10%Q) (Some 11%Q)
      (Some 10%Q);
    mkBar "600001" "B" (Some 11%Q) (Some 12.1%Q) (Some 11%Q) (Some 12.1%Q)
      (Some 10%Q) ].

End Pipeline.

(* ===================================================================== *)
(** * Technical indicators: the returns of [calculate_stock_indicators]  *)
(* ===================================================================== *)

Module Indicators.
Import Polars.

(** The returns are stated for any Float64 arithmetic: division,
    subtraction, multiplication, [round(d)] and the literals 1 and 100 are
    fields of [Float64Ops], so nothing below depends on how floats
    round. *)
Record Float64Ops (F : Type) : Type := mkFloat64Ops {
  fdiv : F -> F -> F;
  fsub : F -> F -> F;
  fmul : F -> F -> F;
  fround : nat -> F -> F;
  f1 : F;
  f100 : F
}.
Arguments fdiv {F} _ _ _.
Arguments fsub {F} _ _ _.
Arguments fmul {F} _ _ _.
Arguments fround {F} _ _ _.
Arguments f1 {F} _.
Arguments f100 {F} _.

(** [((收盘 / 收盘.shift(P).over('名称') - 1) * 100).round(2)]. *)
Definition pct_change {F} (ops : Float64Ops F) (P : nat) (close : col F)
  : col F :=
  map2 (fun c s =>
          option_map (fround ops 2)
            (lift2 (fmul ops)
               (lift2 (fsub ops) (lift2 (fdiv ops) c s) (Some (f1 ops)))
               (Some (f100 ops))))
       close (shift P close).

(** The columns 5日涨跌幅, 10日涨跌幅, 20日涨跌幅. *)
Record Returns (F : Type) : Type := mkReturns {
  ret5 : col F;
  ret10 : col F;
  ret20 : col F
}.
Arguments ret5 {F} _.
Arguments ret10 {F} _.
Arguments ret20 {F} _.

Definition calculate_stock_indicators {F} (ops : Float64Ops F)
  (close : col F) : Returns F :=
  {| ret5 := pct_change ops 5 close;
     ret10 := pct_change ops 10 close;
     ret20 := pct_change ops 20 close |}.



(** Exact rational arithmetic as one instance. *)
Definition exact_ops : Float64Ops Q :=
  {| fdiv := Qdiv; fsub := Qminus; fmul := Qmult;
     fround := fun _ => Limits.round2; f1 := 1%Q; f100 := 100%Q |}.

End Indicators.

(* ===================================================================== *)
(** * Candle streaks: [add_candlestick_trend_streaks]                    *)
(* ===================================================================== *)

Module Candles.
Import Polars.

(** [if x:] on a cell read into a Python list: [None] is falsy. *)
Definition truthy (x : option bool) : bool :=
  match x with
  | Some b => b
  | None => false
  end.

(** [xs[i] = v] on a Python list, for [0 <= i < len(xs)]. *)
Fixpoint set_nth {A} (i : nat) (v : A) (l : list A) : list A :=
  match l, i with
  | [], _ => []
  | _ :: t, O => v :: t
  | x :: t, S k => x :: set_nth k v t
  end.

(** The body of [for i in range(n)] in [_calc_streaks], on the pair
    [(up_streak, down_streak)]. *)
Definition streak_step (pos neg : col bool) (st : list Z * list Z) (i : nat)
  : list Z * list Z :=
  let (up_streak, down_streak) := st in
  let up_streak :=
    if truthy (nth i pos None)
    then set_nth i (if (0 <? i)%nat then nth (i - 1) up_streak 0 + 1 else 1)%Z
                 up_streak
    else set_nth i 0%Z up_streak in
  let down_streak :=
    if truthy (nth i neg None)
    then set_nth i (if (0 <? i)%nat then nth (i - 1) down_streak 0 + 1 else 1)%Z
                 down_streak
    else set_nth i 0%Z down_streak in
  (up_streak, down_streak).

(** [_calc_streaks] on the 阳线 and 阴线 columns of one group: both lists
    start as [[0] * n] and are filled from row 0 up. *)
Definition _calc_streaks (pos neg : col bool) : list Z * list Z :=
  let n := List.length pos in
  fold_left (streak_step pos neg) (seq 0 n) (repeat 0%Z n, repeat 0%Z n).

(** One row of the result: 开盘, 收盘, 阳线, 阴线, 连阳天数, 连阴天数. *)
Record CandleRow : Type := mkCandleRow {
  open_price : option Q;
  close : option Q;
  is_up_candle : option bool;
  is_down_candle : option bool;
  up_streak_days : Z;
  down_streak_days : Z
}.

(** [收盘 > 开盘] and [收盘 < 开盘]. *)
Definition gt (x y : option Q) : option bool :=
  lift2 (fun a b => negb (Qle_bool a b)) x y.
Definition lt (x y : option Q) : option bool :=
  lift2 (fun a b => negb (Qle_bool b a)) x y.

Fixpoint zip_rows (oc : list (option Q * option Q)) (pos neg : col bool)
  (up down : list Z) : list CandleRow :=
  match oc, pos, neg, up, down with
  | (o, c) :: oc', p :: pos', n :: neg', u :: up', d :: down' =>
      {| open_price := o; close := c; is_up_candle := p; is_down_candle := n;
         up_streak_days := u; down_streak_days := d |}
        :: zip_rows oc' pos' neg' up' down'
  | _, _, _, _, _ => []
  end.

(** [add_candlestick_trend_streaks] on the (开盘, 收盘) pairs of one
    symbol. *)
Definition add_candlestick_trend_streaks (oc : list (option Q * option Q))
  : list CandleRow :=
  let pos := map (fun r => gt (snd r) (fst r)) oc in
  let neg := map (fun r => lt (snd r) (fst r)) oc in
  let (up_streak, down_streak) := _calc_streaks pos neg in
  zip_rows oc pos neg up_streak down_streak.

(** What the loop keeps true of a counter list at every moment: it has
    one cell per row, no cell is negative, and a positive cell sits on a
    row whose flag is true. *)
Definition counts_flagged (flags : col bool) (arr : list Z) : Prop :=
  List.length arr = List.length flags /\
  forall i, (0 <= nth i arr 0%Z)%Z /\
            ((0 < nth i arr 0%Z)%Z -> truthy (nth i flags None) = true).

End Candles.

(* ===================================================================== *)
(** * [unique(subset=['日期', '名称'])] without [maintain_order]            *)
(* ===================================================================== *)

Module Unique.

(** The cells 日期 and 名称 of a row; a null is a key like any other. *)
Definition Key : Type := (option Z * option string)%type.

Definition cell_eqb {A} (eqb : A -> A -> bool) (x y : option A) : bool :=
  match x, y with
  | Some a, Some b => eqb a b
  | None, None => true
  | _, _ => false
  end.

Definition key_eqb (a b : Key) : bool :=
  cell_eqb Z.eqb (fst a) (fst b) && cell_eqb String.eqb (snd a) (snd b).

Section Rows.
Variable Row : Type.
Variable key : Row -> Key.

(** One row per key: of the rows that share a key, the one met first is
    kept. *)
Fixpoint first_per_key (seen : list Key) (rows : list Row) : list Row :=
  match rows with
  | [] => []
  | r :: t =>
      if existsb (key_eqb (key r)) seen then first_per_key seen t
      else r :: first_per_key (key r :: seen) t
  end.

(** What one run of [unique] decides: the order in which it meets the
    rows.  Polars promises neither the order of the result nor, with
    [keep='any'], which of several rows with one key it keeps; both
    follow here from the order in which the rows are met. *)
Definition Schedule : Type := list Row -> list Row.

Definition unique (sched : Schedule) (df : list Row) : list Row :=
  first_per_key [] (sched df).

(** A schedule only reorders the rows it is given. *)
Definition reorders (sched : Schedule) : Prop :=
  forall df, Permutation (sched df) df.

(** No two different rows of the frame share 日期 and 名称. *)
Definition keys_determine_rows (df : list Row) : Prop :=
  forall r r', In r df -> In r' df -> key r = key r' -> r = r'.

End Rows.

Arguments first_per_key {Row}.
Arguments unique {Row}.
Arguments reorders {Row}.
Arguments keys_determine_rows {Row}.

End Unique.

(* ===================================================================== *)
(** * Snapshot builder and incremental merger                            *)
(* ===================================================================== *)

Module Snapshot.

(** The frame-level stages are parameters here: each is a pure function of
    its input frame that may raise ([None]).  What is modelled in full is
    the file traffic: which paths are read, which are written, in which
    order, and what happens when a step fails. *)
Section Persistence.
Variable Frame : Type.
Variable is_empty : Frame -> bool.
(** [existing_states['日期'].max()] may raise on a frame without 日期. *)
Variable has_date : Frame -> bool.
(** [compute_limits], [calculate_continuous_limit_up_optimized],
    [calculate_stock_indicators], [add_price_relative_indicators],
    [add_candlestick_trend_streaks] as functions of the whole frame. *)
Variables compute_limits_df continuous_df indicators_df relative_df
          candles_df : Frame -> option Frame.
(** The two [with_columns] of [create_limit_status_parquet] (Boolean
    casts, zero-initialised 连板天数/连板数). *)
Variable init_columns_df : Frame -> Frame.
(** [unique(subset=['日期', '名称'])], called without [maintain_order]:
    the rows come out in an order that the run decides, and that may
    differ between two calls on the same frame.  [Schedule] is what one
    run decides. *)
Variable Schedule : Type.
Variable unique_df : Schedule -> Frame -> Frame.

(** What a path holds: a complete parquet image of a frame, or bytes
    that do not parse (an empty or partly written file). *)
Inductive FileContent : Type :=
| Parquet (df : Frame)
| Garbage.

Definition FS : Type := string -> option FileContent.

Definition fs_set (fs : FS) (p : string) (v : option FileContent) : FS :=
  fun q => if String.eqb q p then v else fs q.

(** How one pass of the retry loop goes, as decided by the operating
    system.  [tmp] is the name [NamedTemporaryFile] picks; [unlink_ok]
    says whether the clean-up [os.unlink] goes through.

    [shutil.move] first tries [os.rename], which replaces the target in
    one step or raises and leaves it alone (on Windows it raises
    whenever the target exists).  When [os.rename] raises, [shutil.move]
    falls back to [copy2(src, dst)] followed by [os.unlink(src)]: the
    copy opens the target for writing, which empties it, and fills it.
    - [AllGood]: [os.rename] goes through.
    - [MoveRaises]: [os.rename] raises and the copy raises before it has
      opened the target.
    - [CopyRaises]: [os.rename] raises and the copy raises after it has
      opened the target and before it has filled it.
    - [CopyDoneRaises]: [os.rename] raises, the copy fills the target,
      and then [copystat] or [os.unlink(src)] raises.
    - [CopyGood]: [os.rename] raises, the copy and the unlink go
      through. *)
Inductive Attempt : Type :=
| MakedirsRaises (unlink_ok : bool)
| TempfileRaises
| WriteRaises (tmp : string) (unlink_ok : bool)
| MoveRaises (tmp : string) (unlink_ok : bool)
| CopyRaises (tmp : string) (unlink_ok : bool)
| CopyDoneRaises (tmp : string) (unlink_ok : bool)
| CopyGood (tmp : string)
| AllGood (tmp : string).

(** The local variable [temp_file]: not yet assigned, [None], or the
    (closed) temporary file object with its name. *)
Inductive PyVar : Type :=
| Unbound
| PyNone
| Handle (tmp : string).

Inductive Outcome : Type :=
| Returned (b : bool)
| Raised.

(** The result of running a piece of the writer: how it ended, the file
    system it left, and every file system state that was observable on
    the way, oldest first. *)
Record Run : Type := mkRun {
  outcome : Outcome;
  final : FS;
  observed : list FS
}.

(** The clean-up of the [except] branch:
    [if temp_file and os.path.exists(temp_file.name): os.unlink(...)],
    the unlink itself wrapped in [try/except: pass].  [None] when reading
    the unassigned [temp_file] raises [UnboundLocalError]. *)
Definition cleanup (temp_file : PyVar) (unlink_ok : bool) (fs : FS)
  : option FS :=
  match temp_file with
  | Unbound => None
  | PyNone => Some fs
  | Handle tmp =>
      match fs tmp with
      | Some _ => Some (if unlink_ok then fs_set fs tmp None else fs)
      | None => Some fs
      end
  end.

(** The [try] block of one attempt.  It yields [inl fs'] when the move
    went through, and otherwise [inr (temp_file, unlink_ok, fs')]: the
    state in which the [except] branch starts.  Every state the file
    system went through is appended to [seen]. *)
Definition try_block (df : Frame) (file_path : string) (a : Attempt)
  (temp_file : PyVar) (fs : FS)
  : (FS + PyVar * bool * FS) * list FS :=
  match a with
  | MakedirsRaises u => (inr (temp_file, u, fs), [])
  | TempfileRaises => (inr (PyNone, false, fs), [])
  | WriteRaises tmp u =>
      match fs tmp with
      | Some _ => (inr (PyNone, false, fs), [])
      | None =>
          let fs1 := fs_set fs tmp (Some Garbage) in
          (inr (Handle tmp, u, fs1), [fs1])
      end
  | MoveRaises tmp u =>
      match fs tmp with
      | Some _ => (inr (PyNone, false, fs), [])
      | None =>
          let fs1 := fs_set fs tmp (Some Garbage) in
          let fs2 := fs_set fs1 tmp (Some (Parquet df)) in
          (inr (Handle tmp, u, fs2), [fs1; fs2])
      end
  | CopyRaises tmp u =>
      match fs tmp with
      | Some _ => (inr (PyNone, false, fs), [])
      | None =>
          let fs1 := fs_set fs tmp (Some Garbage) in
          let fs2 := fs_set fs1 tmp (Some (Parquet df)) in
          let fs3 := fs_set fs2 file_path (Some Garbage) in
          (inr (Handle tmp, u, fs3), [fs1; fs2; fs3])
      end
  | CopyDoneRaises tmp u =>
      match fs tmp with
      | Some _ => (inr (PyNone, false, fs), [])
      | None =>
          let fs1 := fs_set fs tmp (Some Garbage) in
          let fs2 := fs_set fs1 tmp (Some (Parquet df)) in
          let fs3 := fs_set fs2 file_path (Some Garbage) in
          let fs4 := fs_set fs3 file_path (fs3 tmp) in
          (inr (Handle tmp, u, fs4), [fs1; fs2; fs3; fs4])
      end
  | CopyGood tmp =>
      match fs tmp with
      | Some _ => (inr (PyNone, false, fs), [])
      | None =>
          let fs1 := fs_set fs tmp (Some Garbage) in
          let fs2 := fs_set fs1 tmp (Some (Parquet df)) in
          let fs3 := fs_set fs2 file_path (Some Garbage) in
          let fs4 := fs_set fs3 file_path (fs3 tmp) in
          let fs5 := fs_set fs4 tmp None in
          (inl fs5, [fs1; fs2; fs3; fs4; fs5])
      end
  | AllGood tmp =>
      match fs tmp with
      | Some _ => (inr (PyNone, false, fs), [])
      | None =>
          let fs1 := fs_set fs tmp (Some Garbage) in
          let fs2 := fs_set fs1 tmp (Some (Parquet df)) in
          let fs3 := fs_set (fs_set fs2 file_path (fs2 tmp)) tmp None in
          (inl fs3, [fs1; fs2; fs3])
      end
  end.

(** [for attempt in range(max_retries)], from pass [attempt] on, with
    [remaining] passes left.  [oracle] tells how each pass goes. *)
Fixpoint retry_loop (df : Frame) (file_path : string) (max_retries : nat)
  (oracle : nat -> Attempt) (remaining attempt : nat) (temp_file : PyVar)
  (fs : FS) (seen : list FS) : Run :=
  match remaining with
  | O => {| outcome := Returned false; final := fs; observed := seen |}
  | S remaining' =>
      match try_block df file_path (oracle attempt) temp_file fs with
      | (inl fs', states) =>
          {| outcome := Returned true; final := fs';
             observed := seen ++ states |}
      | (inr (temp_file', unlink_ok, fs'), states) =>
          match cleanup temp_file' unlink_ok fs' with
          | None =>
              {| outcome := Raised; final := fs';
                 observed := seen ++ states |}
          | Some fs'' =>
              if (attempt <? max_retries - 1)%nat
              then retry_loop df file_path max_retries oracle remaining'
                     (S attempt) temp_file' fs'' (seen ++ states ++ [fs''])
              else {| outcome := Returned false; final := fs'';
                      observed := seen ++ states ++ [fs''] |}
          end
      end
  end.

(** [safe_write_parquet(df, file_path, max_retries)]. *)
Definition safe_write_parquet (df : option Frame) (file_path : string)
  (max_retries : nat) (oracle : nat -> Attempt) (fs : FS) : Run :=
  match df with
  | None => {| outcome := Returned false; final := fs; observed := [fs] |}
  | Some d =>
      if is_empty d
      then {| outcome := Returned false; final := fs; observed := [fs] |}
      else retry_loop d file_path max_retries oracle max_retries 0 Unbound
             fs [fs]
  end.

(** A [try: x = f(x) except: pass] around one stage. *)
Definition try_stage (f : Frame -> option Frame) (df : Frame) : Frame :=
  match f df with
  | Some df' => df'
  | None => df
  end.

(** What a function of the module hands back: a value, or an exception
    that leaves it. *)
Inductive Call (A : Type) : Type :=
| Value (a : A)
| Exception.
Arguments Value {A} a.
Arguments Exception {A}.

(** The frame [create_limit_status_parquet] hands to the writer. *)
Definition status_frame (df : Frame) : option Frame :=
  match compute_limits_df df with
  | None => None
  | Some s =>
      match continuous_df (init_columns_df s) with
      | None => None
      | Some s =>
          let s :=
            match indicators_df s with
            | Some s1 => try_stage relative_df s1
            | None => s
            end in
          Some (try_stage candles_df s)
      end
  end.

(** [create_limit_status_parquet(df, output_path)]: the frame on
    success; an exception when a stage raises or the writer does not
    return [True]. *)
Definition create_limit_status_parquet (df : Frame) (output_path : string)
  (oracle : nat -> Attempt) (fs : FS) : Call Frame * Run :=
  match status_frame df with
  | None => (Exception, {| outcome := Raised; final := fs; observed := [fs] |})
  | Some status_df =>
      let r := safe_write_parquet (Some status_df) output_path 3 oracle fs in
      match outcome r with
      | Returned true => (Value status_df, r)
      | _ => (Exception, r)
      end
  end.

(** The two paths a [MarketMetadataManager] works on. *)
Record Manager : Type := mkManager {
  market_states_path : string;
  stock_metadata_path : string
}.

(** [pl.read_parquet(path)]: raises on a missing or unparsable file. *)
Definition read_parquet (fs : FS) (path : string) : option Frame :=
  match fs path with
  | Some (Parquet df) => Some df
  | _ => None
  end.

(** [load_stock_metadata]: [None] when the file is missing or does not
    parse. *)
Definition load_stock_metadata (self : Manager) (fs : FS) : option Frame :=
  read_parquet fs (stock_metadata_path self).

(** [precompute_market_states]. *)
Definition precompute_market_states (self : Manager)
  (oracle : nat -> Attempt) (fs : FS) : bool * FS :=
  match load_stock_metadata self fs with
  | None => (false, fs)
  | Some stock_data =>
      if is_empty stock_data then (false, fs)
      else
        match create_limit_status_parquet stock_data
                (market_states_path self) oracle fs with
        | (Value _, r) => (true, final r)
        | (Exception, r) => (false, final r)
        end
  end.

(** The frame the incremental branch has before [unique]; [None] when a
    stage outside a local [try] raises. *)
Definition merged_frame (stock_data : option Frame) : option Frame :=
  match stock_data with
  | None => None
  | Some d =>
      match compute_limits_df d with
      | None => None
      | Some d =>
          match continuous_df d with
          | None => None
          | Some d =>
              match indicators_df d with
              | None => None
              | Some d =>
                  match relative_df d with
                  | None => None
                  | Some d => Some (try_stage candles_df d)
                  end
              end
          end
      end
  end.

(** The frame the incremental branch hands to the writer, in a run whose
    [unique] goes as [sched] says. *)
Definition incremental_frame (sched : Schedule) (stock_data : option Frame)
  : option Frame :=
  match merged_frame stock_data with
  | None => None
  | Some d => Some (unique_df sched d)
  end.

(** [update_market_states_incremental]: the Boolean it returns and the
    file system it leaves. *)
Definition update_market_states_incremental (self : Manager)
  (sched : Schedule) (oracle : nat -> Attempt) (fs : FS) : bool * FS :=
  match fs (market_states_path self) with
  | Some _ =>
      match read_parquet fs (market_states_path self) with
      | None => (false, fs)
      | Some existing_states =>
          if negb (has_date existing_states) then (false, fs)
          else
            match incremental_frame sched (load_stock_metadata self fs) with
            | None => (false, fs)
            | Some stock_data =>
                let r := safe_write_parquet (Some stock_data)
                           (market_states_path self) 3 oracle fs in
                match outcome r with
                | Returned true => (true, final r)
                | _ => (false, final r)
                end
            end
      end
  | None => precompute_market_states self oracle fs
  end.

(** [fs] still holds, at every path that existed in [base], what [base]
    held there. *)
Definition agrees (base fs : FS) : Prop :=
  forall q, base q <> None -> fs q = base q.

(** [s] is [base] with the complete image of [df] moved over
    [file_path]: nothing else that existed has changed. *)
Definition committed (base : FS) (df : Frame) (file_path : string) (s : FS)
  : Prop :=
  s file_path = Some (Parquet df) /\
  forall q, base q <> None -> q <> file_path -> s q = base q.

(** The name in [temp_file], if any, was not a file of [base]. *)
Definition fresh_handle (base : FS) (temp_file : PyVar) : Prop :=
  forall tmp, temp_file = Handle tmp -> base tmp = None.

End Persistence.

Arguments Parquet {Frame} df.
Arguments Garbage {Frame}.
Arguments Value {A} a.
Arguments Exception {A}.
Arguments fs_set {Frame}.
Arguments outcome {Frame}.
Arguments final {Frame}.
Arguments observed {Frame}.
Arguments cleanup {Frame}.
Arguments try_block {Frame}.
Arguments retry_loop {Frame}.
Arguments safe_write_parquet {Frame}.
Arguments try_stage {Frame}.
Arguments status_frame {Frame}.
Arguments create_limit_status_parquet {Frame}.
Arguments read_parquet {Frame}.
Arguments load_stock_metadata {Frame}.
Arguments precompute_market_states {Frame}.
Arguments merged_frame {Frame}.
Arguments incremental_frame {Frame} _ _ _ _ _ {Schedule}.
Arguments update_market_states_incremental {Frame} _ _ _ _ _ _ _ _
  {Schedule}.
Arguments agrees {Frame}.
Arguments committed {Frame}.
Arguments fresh_handle {Frame}.

(** A small instance to run the model on: a frame is the list of its row
    ids, every stage succeeds and keeps the frame, and the manager uses
    the default paths of [MarketMetadataManager.__init__]. *)
Definition demo_is_empty (df : list nat) : bool :=
  match df with
  | [] => true
  | _ :: _ => false
  end.

Definition demo_manager : Manager :=
  {| market_states_path := "data_cache/other/market_states.parquet";
     stock_metadata_path := "data_cache/stock_daily/stock_daily_metadata.parquet" |}.

(** A disk with yesterday's snapshot (rows 1, 2) and today's stock
    metadata (rows 1, 2, 3). *)
Definition demo_disk : FS (list nat) :=
  fun q =>
    if String.eqb q (market_states_path demo_manager)
    then Some (Parquet [1; 2]%nat)
    else if String.eqb q (stock_metadata_path demo_manager)
         then Some (Parquet [1; 2; 3]%nat)
         else None.

(** A row id stands for a row; its last digit stands for the date, so
    that 3 and 13 are two different rows of one date and one name. *)
Definition demo_key (row : nat) : Unique.Key :=
  (Some (Z.of_nat (row mod 10)), Some "A").

(** The demo disk when the stock metadata holds a second row, 13, for
    the date and name of row 3. *)
Definition demo_disk_with_duplicate : FS (list nat) :=
  fs_set demo_disk (stock_metadata_path demo_manager)
    (Some (Parquet [1; 2; 3; 13]%nat)).

Definition demo_update (sched : list nat -> list nat)
  (oracle : nat -> Attempt) (fs : FS (list nat)) : bool * FS (list nat) :=
  update_market_states_incremental demo_is_empty (fun _ => true)
    (fun d => Some d) (fun d => Some d) (fun d => Some d) (fun d => Some d)
    (fun d => Some d) (fun d => d) (Unique.unique demo_key) demo_manager
    sched oracle fs.

(** An operating system on which the first write of every call fails
    half-way and the second attempt goes through. *)
Definition flaky_then_fine (attempt : nat) : Attempt :=
  match attempt with
  | O => WriteRaises "tmpk3v9x2aa.tmp" true
  | _ => AllGood "tmpq81nd0zz.tmp"
  end.

(** An operating system on which no write ever completes. *)
Definition disk_full (attempt : nat) : Attempt :=
  WriteRaises "tmpk3v9x2aa.tmp" true.

(** An operating system on which [os.rename] over an existing file
    raises, and the copy that [shutil.move] falls back to is cut short
    every time. *)
Definition copy_interrupted (attempt : nat) : Attempt :=
  CopyRaises "tmpk3v9x2aa.tmp" true.

(** The same operating system when the copy goes through. *)
Definition copy_completes (attempt : nat) : Attempt :=
  CopyGood "tmpq81nd0zz.tmp".

End Snapshot.

(* ===================================================================== *)
(** * Names the writer works with                                        *)
(* ===================================================================== *)

Module Writer.
Import Snapshot.

(** The name [NamedTemporaryFile] hands out during a pass, if the pass
    gets that far. *)
Definition temp_name (a : Attempt) : option string :=
  match a with
  | MakedirsRaises _ => None
  | TempfileRaises => None
  | WriteRaises tmp _ => Some tmp
  | MoveRaises tmp _ => Some tmp
  | CopyRaises tmp _ => Some tmp
  | CopyDoneRaises tmp _ => Some tmp
  | CopyGood tmp => Some tmp
  | AllGood tmp => Some tmp
  end.

(** Whether the clean-up [os.unlink] of a pass goes through. *)
Definition unlink_succeeds (a : Attempt) : bool :=
  match a with
  | MakedirsRaises u => u
  | TempfileRaises => true
  | WriteRaises _ u => u
  | MoveRaises _ u => u
  | CopyRaises _ u => u
  | CopyDoneRaises _ u => u
  | CopyGood _ => true
  | AllGood _ => true
  end.

(** Whether [shutil.move] falls back to copying onto the target during
    the pass. *)
Definition falls_back (a : Attempt) : bool :=
  match a with
  | CopyRaises _ _ => true
  | CopyDoneRaises _ _ => true
  | CopyGood _ => true
  | _ => false
  end.

(** Apart from [file_path], [fs] has no file that [base] did not have. *)
Definition no_new_files {Frame} (base fs : FS Frame) (file_path : string)
  : Prop :=
  forall q, base q = None -> q <> file_path -> fs q = None.

End Writer.

(* ===================================================================== *)
(** * Trading calendar: [is_latest_trading_day] and
      [is_latest_daily_trading_day]                                      *)
(* ===================================================================== *)

Module Calendar.
Local Open Scope Z_scope.

(** A [datetime.date] is its proleptic Gregorian ordinal
    ([date.toordinal()]): day 1 is Monday 0001-01-01, and
    [d - timedelta(days=k)] is [d - k]. *)

(** [d.weekday()]: Monday is 0, Sunday is 6. *)
Definition weekday (d : Z) : Z := (d - 1) mod 7.

(** [datetime.now()]: the date, and the time of day in microseconds
    since midnight. *)
Record Now : Type := mkNow {
  current_date : Z;
  current_time : Z
}.

(** [dt_time(18, 0)]. *)
Definition update_time : Z := 18 * 3600 * 1000000.

Section TradingDays.
(** The nested [is_holiday]: membership in [holidays.China], [False]
    when the library raises. *)
Variable is_holiday : Z -> bool.

Definition is_trading_day (check_date : Z) : bool :=
  if 5 <=? weekday check_date then false
  else if is_holiday check_date then false
  else true.

(** [for _ in range(15)] of [get_previous_trading_day], with [n] passes
    left; [None] when the loop runs out. *)
Fixpoint previous_loop (n : nat) (check_date : Z) : option Z :=
  match n with
  | O => None
  | S k =>
      if is_trading_day check_date then Some check_date
      else previous_loop k (check_date - 1)
  end.

Definition get_previous_trading_day (from_date : Z) : Z :=
  match previous_loop 15 (from_date - 1) with
  | Some check_date => check_date
  | None => from_date - 15
  end.

Definition get_latest_expected_trading_date (now : Now) : Z :=
  if is_trading_day (current_date now) then
    if update_time <=? current_time now then current_date now
    else get_previous_trading_day (current_date now)
  else get_previous_trading_day (current_date now).

(** The value [is_latest_trading_day] returns once the latest date of
    the metadata has been read: [latest_local_date >=
    expected_latest_date]. *)
Definition is_latest_trading_day (latest_local_date : Z) (now : Now) : bool :=
  get_latest_expected_trading_date now <=? latest_local_date.

End TradingDays.

(** [getattr(self, '_holidays', [])]: no method of the class assigns
    [_holidays], so the default is what the loop of
    [is_latest_daily_trading_day] reads. *)
Definition _holidays : list Z := [].

(** The condition of
    [while check_date.weekday() >= 5 or (... in getattr(self, '_holidays', []))]. *)
Definition keeps_looking (check_date : Z) : bool :=
  (5 <=? weekday check_date) || existsb (Z.eqb check_date) _holidays.

Lemma keeps_looking_decreases (check_date : Z) :
  keeps_looking check_date = true ->
  (Z.to_nat (weekday (check_date - 1) - 4) < Z.to_nat (weekday check_date - 4))%nat.
Proof.
  unfold keeps_looking, _holidays, weekday. cbn [existsb].
  rewrite orb_false_r. intros H. apply Z.leb_le in H.
  pose proof (Z.mod_pos_bound (check_date - 1) 7 ltac:(lia)) as Hb.
  assert (E : (check_date - 1 - 1) mod 7 = (check_date - 1) mod 7 - 1).
  { symmetry. apply (Z.mod_unique _ _ ((check_date - 1) / 7)); [lia|].
    pose proof (Z.div_mod (check_date - 1) 7 ltac:(lia)). lia. }
  rewrite E. lia.
Qed.

(** The loop itself, from [check_date] on. *)
Equations back_to_weekday (check_date : Z) : Z
  by wf (Z.to_nat (weekday check_date - 4)) lt :=
  back_to_weekday check_date with Streak.inspect (keeps_looking check_date) := {
    | exist _ true Hloop => back_to_weekday (check_date - 1)
    | exist _ false _ => check_date }.
Next Obligation.
  apply keeps_looking_decreases. exact Hloop.
Qed.

(** [is_latest_daily_trading_day] once the latest date of the snapshot
    has been read.  [today_is_holiday] is what the lookup in
    [CHINA_HOLIDAYS] gave ([False] when the import fails). *)
Definition is_latest_daily_trading_day (latest_date today : Z)
  (today_is_holiday : bool) : bool :=
  let is_weekend := 5 <=? weekday today in
  let is_trading_day := negb (is_weekend || today_is_holiday) in
  if is_trading_day then today <=? latest_date
  else back_to_weekday (today - 1) <=? latest_date.

End Calendar.

(* ===================================================================== *)
(** * Moving averages and their arrangement:
      [calculate_stock_indicators], [add_price_relative_indicators]      *)
(* ===================================================================== *)

Module Averages.
Import Polars.

(** The averages are stated for any Float64 arithmetic.  A Float64 cell
    is the rational it stands for; what the mean of some cells comes to
    in Float64 is the parameter [fmean], and [round(2)] is the [fround]
    of [Indicators.Float64Ops], so nothing below depends on how floats
    round. *)

(** [.rolling_mean(window_size=w, min_periods=mp)] at row [i]: the mean
    of the non-null cells of the window, null when fewer than [mp] of
    them. *)
Definition rolling_mean_at (fmean : list Q -> Q) (w mp : nat) (c : col Q)
  (i : nat) : option Q :=
  let vs := non_null (window w i c) in
  if (List.length vs <? mp)%nat then None else Some (fmean vs).

Definition rolling_mean (fmean : list Q -> Q) (w mp : nat) (c : col Q)
  : col Q :=
  map (rolling_mean_at fmean w mp c) (seq 0 (List.length c)).

(** [收盘.rolling_mean(window_size=w, min_periods=1).over('名称').round(2)]. *)
Definition moving_average (ops : Indicators.Float64Ops Q)
  (fmean : list Q -> Q) (w : nat) (close : col Q) : col Q :=
  map (option_map (Indicators.fround ops 2)) (rolling_mean fmean w 1 close).

(** The mean in exact arithmetic, as one instance. *)
Definition exact_mean (l : list Q) : Q :=
  (fold_right Qplus 0 l / inject_Z (Z.of_nat (List.length l)))%Q.

(** One row after [calculate_stock_indicators]: 收盘, MA5, MA10, MA20. *)
Record AveragedRow : Type := mkAveragedRow {
  close : option Q;
  MA5 : option Q;
  MA10 : option Q;
  MA20 : option Q
}.

Fixpoint zip4 (c a b d : col Q) : list AveragedRow :=
  match c, a, b, d with
  | x :: c', y :: a', z :: b', t :: d' =>
      {| close := x; MA5 := y; MA10 := z; MA20 := t |} :: zip4 c' a' b' d'
  | _, _, _, _ => []
  end.

(** The moving-average columns of [calculate_stock_indicators] on the
    closes of one symbol. *)
Definition calculate_stock_indicators (ops : Indicators.Float64Ops Q)
  (fmean : list Q -> Q) (close : col Q) : list AveragedRow :=
  zip4 close (moving_average ops fmean 5 close)
       (moving_average ops fmean 10 close)
       (moving_average ops fmean 20 close).

(** [((收盘 / MA - 1) * 100).round(2)], for any Float64 arithmetic. *)
Definition relative (ops : Indicators.Float64Ops Q) (c ma : option Q)
  : option Q :=
  option_map (Indicators.fround ops 2)
    (lift2 (Indicators.fmul ops)
       (lift2 (Indicators.fsub ops) (lift2 (Indicators.fdiv ops) c ma)
          (Some (Indicators.f1 ops)))
       (Some (Indicators.f100 ops))).

(** The 均线排列 expression: a [when/then] chain over two Kleene
    conjunctions. *)
Definition arrangement (ma5 ma10 ma20 : option Q) : string :=
  when_then_otherwise
    (kleene_and (Candles.gt ma5 ma10) (Candles.gt ma10 ma20))
    "多头排列"
    (when_then_otherwise
       (kleene_and (Candles.lt ma5 ma10) (Candles.lt ma10 ma20))
       "空头排列"
       "均线混乱").

(** The columns [add_price_relative_indicators] adds: 相对MA5, 相对MA10,
    相对MA20, 均线排列. *)
Record RelativeRow : Type := mkRelativeRow {
  averaged : AveragedRow;
  rel_MA5 : option Q;
  rel_MA10 : option Q;
  rel_MA20 : option Q;
  ma_arrangement : string
}.

Definition add_price_relative_indicators (ops : Indicators.Float64Ops Q)
  (df : list AveragedRow) : list RelativeRow :=
  map (fun r =>
         {| averaged := r;
            rel_MA5 := relative ops (close r) (MA5 r);
            rel_MA10 := relative ops (close r) (MA10 r);
            rel_MA20 := relative ops (close r) (MA20 r);
            ma_arrangement := arrangement (MA5 r) (MA10 r) (MA20 r) |})
      df.

(** A row that stands for a missing one when indexing past the end. *)
Definition no_row : RelativeRow :=
  {| averaged := {| close := None; MA5 := None; MA10 := None; MA20 := None |};
     rel_MA5 := None; rel_MA10 := None; rel_MA20 := None;
     ma_arrangement := "" |}.

End Averages.

(* ===================================================================== *)
(** * The loop of [_calc_streaks], pass by pass                          *)
(* ===================================================================== *)

Module CandleRuns.
Import Polars Candles.

(** The state of one counter list after the first [k] passes: its first
    [k] cells are the run lengths of the flags. *)
Definition filled_to (flags : col bool) (n k : nat) (arr : list Z) : Prop :=
  List.length arr = n /\
  forall j, (j < k)%nat ->
            nth j arr 0%Z = nth j (Streak.run_lengths 0 (map truthy flags)) 0%Z.

End CandleRuns.

(* ===================================================================== *)
(** * Counting the limit-up rows of a span                               *)
(* ===================================================================== *)

Module Chains.
Import Polars Streak.

(** The number of limit-up rows among the rows [lo .. hi]. *)
Definition limit_ups_between (limit_up : col Z) (lo hi : Z) : Z :=
  Z.of_nat
    (List.length
       (filter (fun j => is_one (cell limit_up j))
               (py_range_desc hi (lo - 1)))).

End Chains.

(* ===================================================================== *)
(** * Date values: [_parse_to_date]                                      *)
(* ===================================================================== *)

Module Dates.

(** The values the function tells apart: [None], a [datetime.date], a
    [datetime.datetime] (a date and a time of day), a [str], anything
    else. *)
Inductive PyValue : Type :=
| PyNoneValue
| PyDate (ordinal : Z)
| PyDatetime (ordinal : Z) (time_of_day : Z)
| PyStr (s : string)
| PyOther.

(** [isinstance(value, date)]: [datetime] is a subclass of [date]. *)
Definition isinstance_date (value : PyValue) : bool :=
  match value with
  | PyDate _ => true
  | PyDatetime _ _ => true
  | _ => false
  end.

Definition isinstance_datetime (value : PyValue) : bool :=
  match value with
  | PyDatetime _ _ => true
  | _ => false
  end.

Definition isinstance_str (value : PyValue) : bool :=
  match value with
  | PyStr _ => true
  | _ => false
  end.

Section Parsing.
(** [datetime.strptime(value, fmt)]: the parsed date and time of day,
    [None] for [ValueError]. *)
Variable strptime : string -> string -> option (Z * Z).

(** [for fmt in (...): try: return strptime(value, fmt).date()
    except ValueError: continue], then [return None]. *)
Fixpoint try_formats (value : string) (fmts : list string) : option PyValue :=
  match fmts with
  | [] => None
  | fmt :: rest =>
      match strptime value fmt with
      | Some (ordinal, _) => Some (PyDate ordinal)
      | None => try_formats value rest
      end
  end.

(** [_parse_to_date(value)]; the result [None] is Python's [None]. *)
Definition _parse_to_date (value : PyValue) : option PyValue :=
  match value with
  | PyNoneValue => None
  | _ =>
      if isinstance_date value then Some value
      else if isinstance_datetime value then
        match value with
        | PyDatetime ordinal _ => Some (PyDate ordinal)
        | _ => None
        end
      else if isinstance_str value then
        match value with
        | PyStr s => try_formats s ["%Y-%m-%d"; "%Y/%m/%d"; "%Y%m%d"]
        | _ => None
        end
      else None
  end.

End Parsing.

End Dates.

(* ===================================================================== *)
(** * The cached loader: [load_market_states]                            *)
(* ===================================================================== *)

Module Loader.
Import Snapshot.
Local Open Scope Z_scope.

(** A [datetime] is a count of microseconds; [a - b] is a [timedelta],
    normalised by Python to days, seconds in [0, 86400) and
    microseconds in [0, 10^6).  [.seconds] is the middle field. *)
Definition timedelta_seconds (delta : Z) : Z :=
  (delta mod 86400000000) / 1000000.

Section Loading.
Variable Frame : Type.
Variable is_empty : Frame -> bool.
Variables compute_limits_df continuous_df indicators_df relative_df
          candles_df : Frame -> option Frame.
Variable init_columns_df : Frame -> Frame.
(** [_ensure_date_column] and the zero-padding of 代码; [None] when one of
    them raises. *)
Variable prepare_df : Frame -> option Frame.

(** The attributes [_market_states_cache] and [_cache_timestamp]. *)
Record CacheState : Type := mkCacheState {
  _market_states_cache : option Frame;
  _cache_timestamp : option Z
}.

(** What the outside world answers to a call at recursion depth [k]:
    the clock when the cache is checked and when it is filled, how the
    write of a regeneration goes, whether the message of a failed read
    names a damaged file ("Invalid thrift", "File out of
    specification"), the backup name built from [time.time()], and
    whether the move to it goes through. *)
Record World : Type := mkWorld {
  now_at_check : nat -> Z;
  now_at_store : nat -> Z;
  write_oracle : nat -> nat -> Attempt;
  reports_corruption : nat -> bool;
  backup_path : nat -> string;
  backup_moves : nat -> bool
}.

(** The test that guards the cache. *)
Definition cache_is_fresh (st : CacheState) (now : Z) : bool :=
  match _market_states_cache st, _cache_timestamp st with
  | Some _, Some stamp => timedelta_seconds (now - stamp) <? 300
  | _, _ => false
  end.

(** [load_market_states] at recursion depth [depth].  [fuel] bounds the
    depth: where Python's recursion limit is hit, the [RecursionError]
    is caught by the [except Exception] around the recursive call, which
    returns [None]. *)
Fixpoint load_market_states (w : World) (self : Manager) (fuel depth : nat)
  (st : CacheState) (fs : FS Frame)
  : option Frame * CacheState * FS Frame :=
  match fuel with
  | O => (None, st, fs)
  | S fuel' =>
      let regenerate (fs0 : FS Frame) :=
        let (ok, fs1) :=
          precompute_market_states is_empty compute_limits_df continuous_df
            indicators_df relative_df candles_df init_columns_df self
            (write_oracle w depth) fs0 in
        if ok then load_market_states w self fuel' (S depth) st fs1
        else (None, st, fs1) in
      let repair :=
        if reports_corruption w depth then
          if backup_moves w depth then
            regenerate
              (fs_set (fs_set fs (backup_path w depth)
                         (fs (market_states_path self)))
                      (market_states_path self) None)
          else (None, st, fs)
        else (None, st, fs) in
      if cache_is_fresh st (now_at_check w depth)
      then (_market_states_cache st, st, fs)
      else
        match fs (market_states_path self) with
        | None => regenerate fs
        | Some _ =>
            match read_parquet fs (market_states_path self) with
            | Some data =>
                match prepare_df data with
                | Some data =>
                    (Some data,
                     {| _market_states_cache := Some data;
                        _cache_timestamp := Some (now_at_store w depth) |},
                     fs)
                | None => repair
                end
            | None => repair
            end
        end
  end.

End Loading.

Arguments _market_states_cache {Frame}.
Arguments _cache_timestamp {Frame}.
Arguments mkCacheState {Frame}.
Arguments cache_is_fresh {Frame}.
Arguments load_market_states {Frame}.

End Loader.

(* ===================================================================== *)
(** * Daily market statistics:
      [calculate_daily_market_stats_from_states]                         *)
(* ===================================================================== *)

Module DailyStats.
Import Polars.

(** One row of a frame, with the columns the counts read: 日期, 涨跌幅,
    涨停, 跌停, 炸板.  A cell of a column the frame does not have is never
    looked at. *)
Record Row : Type := mkRow {
  row_date : option Z;
  row_pct_chg : option Q;
  row_limit_up : option bool;
  row_limit_down : option bool;
  row_break : option bool
}.

Record DataFrame : Type := mkDataFrame {
  columns : list string;
  rows : list Row
}.



Definition is_empty (df : DataFrame) : bool :=
  match rows df with
  | [] => true
  | _ :: _ => false
  end.









End DailyStats.

(* ===================================================================== *)
(** * Facts about the column primitives                                  *)
(* ===================================================================== *)

Module ColumnFacts.
Import Polars.
Local Open Scope list_scope.

Lemma in_map2 {A B C} (f : A -> B -> C) (l1 : list A) (l2 : list B) (z : C) :
  In z (map2 f l1 l2) -> exists x y, In x l1 /\ In y l2 /\ z = f x y.
Proof.
  revert l2; induction l1 as [|x l1 IH]; intros [|y l2] H; simpl in H;
    try contradiction.
  destruct H as [<-|H].
  - exists x, y. simpl. auto.
  - destruct (IH _ H) as (x' & y' & ? & ? & ?). exists x', y'. simpl. auto.
Qed.

Lemma map2_length {A B C} (f : A -> B -> C) (a : list A) (b : list B) :
  List.length (map2 f a b) = Nat.min (List.length a) (List.length b).
Proof.
  revert b; induction a as [|x a IH]; intros [|y b]; simpl; auto.
Qed.




Lemma cumsum_from_length (c : col Z) (acc : Z) :
  List.length (cumsum_from acc c) = List.length c.
Proof.
  revert acc; induction c as [|[v|] t IH]; intros acc; cbn; [reflexivity| |];
    rewrite IH; reflexivity.
Qed.

Lemma int_range_over_from_length {K} (eqb : K -> K -> bool)
  (keys seen : list K) :
  List.length (int_range_over_from eqb seen keys) = List.length keys.
Proof.
  revert seen; induction keys as [|k t IH]; intros seen; cbn; [reflexivity|].
  rewrite IH. reflexivity.
Qed.

Lemma shift_fill_length {A} (n : nat) (v : A) (c : col A) :
  List.length (shift_fill n v c) = List.length c.
Proof.
  unfold shift_fill. rewrite length_firstn, length_app, repeat_length. lia.
Qed.

End ColumnFacts.

(* ===================================================================== *)
(** * Properties of the limit-bound calculator and the classifier        *)
(* ===================================================================== *)

Module LimitFacts.
Import Polars Limits ColumnFacts.

(** The expression [get_limit_pct_expr] builds, read from the outside in:
    the prefix tests come first, in the reverse of dict order, and the
    special-treatment test is the innermost one. *)
Lemma get_limit_pct_expr_unfold (c n : string) :
  get_limit_pct_expr c n =
  if starts_with c "9" then 0.30%Q
  else if starts_with c "4" then 0.30%Q
  else if starts_with c "8" then 0.30%Q
  else if starts_with c "30" then 0.20%Q
  else if starts_with c "68" then 0.20%Q
  else if str_contains "ST" n then 0.05%Q
  else 0.10%Q.
Proof. reflexivity. Qed.

Lemma limit_pct_values (c n : string) :
  In (get_limit_pct_expr c n) [0.30%Q; 0.20%Q; 0.05%Q; 0.10%Q].
Proof.
  rewrite get_limit_pct_expr_unfold.
  repeat match goal with
         | |- context [if ?b then _ else _] => destruct b
         end; simpl; auto 6.
Qed.

Lemma limit_pct_positive (c n : string) : (0 < get_limit_pct_expr c n)%Q.
Proof.
  pose proof (limit_pct_values c n) as H. simpl in H.
  destruct H as [<-|[<-|[<-|[<-|[]]]]]; reflexivity.
Qed.

(** C2, at the input where code and rule part: a special-treatment name
    on a ChiNext code.  The code answers 20%, the stated precedence 5%. *)
Theorem st_name_loses_to_code_prefix :
  get_limit_pct_expr "300001" "*ST A" = 0.20%Q /\
  spec_limit_pct "300001" "*ST A" = 0.05%Q.
Proof. split; reflexivity. Qed.

(** The five prefixes start with five different characters, so the
    order of the prefix tests is immaterial: the code computes the stated
    chain with the special-treatment test moved to the end. *)
Lemma get_limit_pct_expr_prefix_first (c n : string) :
  get_limit_pct_expr c n =
  if starts_with c "68" || starts_with c "30" then 0.20%Q
  else if starts_with c "8" || starts_with c "4" || starts_with c "9"
       then 0.30%Q
  else if str_contains "ST" n then 0.05%Q
  else 0.10%Q.
Proof.
  rewrite get_limit_pct_expr_unfold. unfold starts_with.
  destruct c as [|a c']; [reflexivity|]. cbn [prefix].
  destruct (ascii_dec "9" a) as [E9|N9], (ascii_dec "4" a) as [E4|N4],
    (ascii_dec "8" a) as [E8|N8], (ascii_dec "3" a) as [E3|N3],
    (ascii_dec "6" a) as [E6|N6];
    try congruence; cbn [orb];
    repeat match goal with
           | |- context [prefix ?x c'] => destruct (prefix x c')
           end; reflexivity.
Qed.

(** The precedence the code implements: the 20% prefixes, then the 30%
    prefixes, then special treatment, then the default. *)
Theorem limit_pct_precedence_in_code (c n : string) :
  get_limit_pct_expr c n =
  if starts_with c "68" || starts_with c "30" then 0.20%Q
  else if starts_with c "8" || starts_with c "4" || starts_with c "9"
       then 0.30%Q
  else if str_contains "ST" n then 0.05%Q
  else 0.10%Q.
Proof. apply get_limit_pct_expr_prefix_first. Qed.

(** Outside the overlap the code follows the stated precedence: the two
    agree on every row whose name carries no ST or whose code starts with
    none of the five prefixes. *)
Lemma limit_pct_agrees_off_overlap (c n : string) :
  str_contains "ST" n = false \/
  (starts_with c "68" || starts_with c "30" || starts_with c "8"
   || starts_with c "4" || starts_with c "9") = false ->
  get_limit_pct_expr c n = spec_limit_pct c n.
Proof.
  rewrite get_limit_pct_expr_prefix_first. unfold spec_limit_pct.
  destruct (starts_with c "9"), (starts_with c "4"), (starts_with c "8"),
    (starts_with c "30"), (starts_with c "68"), (str_contains "ST" n);
    simpl; intros [H|H]; try discriminate; reflexivity.
Qed.

(** On the overlap they always part: the code answers 20% or 30%. *)
Lemma limit_pct_on_overlap (c n : string) :
  str_contains "ST" n = true ->
  (starts_with c "68" || starts_with c "30" || starts_with c "8"
   || starts_with c "4" || starts_with c "9") = true ->
  spec_limit_pct c n = 0.05%Q /\
  (get_limit_pct_expr c n = 0.20%Q \/ get_limit_pct_expr c n = 0.30%Q).
Proof.
  rewrite get_limit_pct_expr_prefix_first. unfold spec_limit_pct.
  intros ->.
  destruct (starts_with c "9"), (starts_with c "4"), (starts_with c "8"),
    (starts_with c "30"), (starts_with c "68");
    simpl; intros H; try discriminate; auto.
Qed.

Lemma in_compute_limits (supplied : option (col Q)) (bars : list Bar)
  (r : LimitRow) :
  In r (compute_limits supplied bars) -> exists b prev, r = classify b prev.
Proof.
  unfold compute_limits. intros H. apply in_map2 in H.
  destruct H as (b & prev & _ & _ & ->). eauto.
Qed.

Lemma kleene_or_true (x y : option bool) :
  kleene_or x y = Some true -> x = Some true \/ y = Some true.
Proof. destruct x as [[|]|], y as [[|]|]; simpl; auto; discriminate. Qed.

(** C4 as stated fails on a one-cent share: 0.011 and 0.009 both round to
    0.01, the close equals both limit prices, and the row is flagged
    limit-up and limit-down at once. *)
Lemma limit_up_and_down_on_penny_bar :
  exists r, In r (compute_limits None penny_bars) /\
            limit_up_price r = Some 0.01%Q /\
            limit_down_price r = Some 0.01%Q /\
            is_limit_up r = Some true /\ is_limit_down r = Some true.
Proof.
  eexists. split; [right; left; reflexivity|].
  repeat split; reflexivity.
Qed.

(** C4, amended: on every row of the table whose rounded limit prices lie
    strictly on either side of the previous close and whose supplied
    percentage change has the sign of the move from the previous close,
    涨停 and 跌停 are not both true.  Rows without a previous close satisfy
    both conditions vacuously. *)
Theorem limit_flags_exclusive (supplied : option (col Q)) (bars : list Bar)
  (r : LimitRow) :
  In r (compute_limits supplied bars) ->
  brackets_prev_close r ->
  pct_chg_follows_close r ->
  ~ (is_limit_up r = Some true /\ is_limit_down r = Some true).
Proof.
  intros Hin Hbr Hsg [Hup Hdown].
  apply in_compute_limits in Hin. destruct Hin as (b & prev & ->).
  unfold brackets_prev_close, pct_chg_follows_close in *. simpl in *.
  pose proof (limit_pct_positive (code b) (name b)) as Hpos.
  set (L := get_limit_pct_expr (code b) (name b)) in *.
  apply kleene_or_true in Hup. apply kleene_or_true in Hdown.
  destruct (pct_chg b) as [x|] eqn:Hx, prev as [p|], (close b) as [c|] eqn:Hc;
    simpl in *;
    repeat match goal with
           | H : _ \/ _ |- _ => destruct H
           | H : None = Some _ |- _ => discriminate H
           | H : Some (Qle_bool _ _) = Some true |- _ =>
               injection H as H; apply Qle_bool_iff in H
           | H : Some (Qeq_bool _ _) = Some true |- _ =>
               injection H as H; apply Qeq_bool_iff in H
           end;
    try (specialize (Hbr _ _ _ eq_refl eq_refl eq_refl));
    try (specialize (Hsg _ _ _ eq_refl eq_refl eq_refl));
    lra.
Qed.

(** The amended statement at Scenario C: limit prices 11.00 and 9.00
    around 10.00, a close of 11.00 with a supplied change of +10%. *)
Lemma limit_flags_exclusive_scenario_c :
  let r := classify (nth 1 scenario_c_bars (mkBar "" "" None None None None None))
                    (Some 10%Q) in
  limit_up_price r = Some 11.00%Q /\ limit_down_price r = Some 9.00%Q /\
  is_limit_up r = Some true /\
  ~ (is_limit_up r = Some true /\ is_limit_down r = Some true).
Proof.
  cbv zeta. split; [reflexivity|]. split; [reflexivity|]. split; [reflexivity|].
  apply (limit_flags_exclusive None scenario_c_bars).
  - right; left; reflexivity.
  - intros p u d [= <-] [= <-] [= <-]. split; reflexivity.
  - intros p c x [= <-] [= <-] [= <-]. split; intros H.
    + reflexivity.
    + discriminate H.
Defined.

End LimitFacts.

(* ===================================================================== *)
(** * Properties of the streak engine                                    *)
(* ===================================================================== *)

Module StreakFacts.
Import Polars Limits Streak ColumnFacts.
Local Open Scope list_scope.

Lemma nth_map_seq {A} (f : nat -> A) (n i : nat) (d : A) :
  (i < n)%nat -> nth i (map f (seq 0 n)) d = f i.
Proof.
  intros H. rewrite (nth_indep _ d (f 0%nat)) by (rewrite length_map, length_seq; exact H).
  rewrite map_nth, seq_nth by exact H. reflexivity.
Qed.

Lemma nth_rolling_sum (w mp : nat) (c : col Z) (i : nat) :
  (i < List.length c)%nat ->
  nth i (rolling_sum w mp c) None = rolling_sum_at w mp c i.
Proof. intros H. unfold rolling_sum. apply nth_map_seq. exact H. Qed.

Lemma sequence_map_ok {A B} (f : A -> PyResult B) (g : A -> B) (l : list A) :
  (forall x, In x l -> f x = Ok (g x)) ->
  sequence (map f l) = Ok (map g l).
Proof.
  induction l as [|x l IH]; intros H; simpl; [reflexivity|].
  rewrite (H x) by (left; reflexivity).
  rewrite IH by (intros y Hy; apply H; right; exact Hy). reflexivity.
Qed.

Lemma in_non_null {A} (c : col A) (v : A) :
  In (Some v) c -> In v (non_null c).
Proof.
  induction c as [|[x|] c IH]; simpl; intros H.
  - contradiction.
  - destruct H as [[= ->]|H]; auto.
  - destruct H as [H|H]; [discriminate|auto].
Qed.

Lemma window_length {A} (w i : nat) (c : list A) :
  List.length (window w i c) = (Nat.min (S i) (List.length c) - (S i - w))%nat.
Proof. unfold window. rewrite length_skipn, length_firstn. reflexivity. Qed.

Lemma window_nth {A} (w i k : nat) (c : list A) (d : A) :
  nth k (window w i c) d =
  if (S i - w + k <? S i)%nat then nth (S i - w + k) c d else d.
Proof. unfold window. rewrite nth_skipn, nth_firstn. reflexivity. Qed.

(** Row [i] is the last row of its own window. *)
Lemma window_last {A} (w i : nat) (c : list A) (d : A) :
  (0 < w)%nat -> (i < List.length c)%nat -> In (nth i c d) (window w i c).
Proof.
  intros Hw Hi.
  assert (Hk : (i - (S i - w) < List.length (window w i c))%nat)
    by (rewrite window_length; lia).
  pose proof (nth_In _ d Hk) as Hin.
  rewrite window_nth in Hin.
  replace (S i - w + (i - (S i - w)))%nat with i in Hin by lia.
  replace (i <? S i)%nat with true in Hin
    by (symmetry; apply Nat.ltb_lt; lia).
  exact Hin.
Qed.

(** A limit-up row always has a trailing count: the comparison
    [last_5days_sum <= 1] never meets [None]. *)
Lemma rolling_sum_at_limit_up_row (limit_up : col Z) (i : nat) :
  is_one (nth i limit_up None) = true ->
  rolling_sum_at 5 1 limit_up i = Some (trailing_count limit_up i).
Proof.
  intros H. unfold rolling_sum_at, trailing_count.
  destruct (nth i limit_up None) as [v|] eqn:Hv; [|discriminate].
  assert (Hi : (i < List.length limit_up)%nat).
  { destruct (Nat.lt_ge_cases i (List.length limit_up)) as [Hlt|Hge]; [exact Hlt|].
    rewrite nth_overflow in Hv by exact Hge. discriminate. }
  pose proof (window_last 5 i limit_up None ltac:(lia) Hi) as Hin.
  rewrite Hv in Hin. apply in_non_null in Hin.
  destruct (non_null (window 5 i limit_up)) as [|x l]; [contradiction|].
  reflexivity.
Qed.

Lemma row_label_ok (limit_up : col Z) (i : nat) :
  (i < List.length limit_up)%nat ->
  row_label limit_up (rolling_sum 5 1 limit_up) i = Ok (label_of limit_up i).
Proof.
  intros Hi. unfold row_label, label_of.
  destruct (is_one (nth i limit_up None)) eqn:Hone; simpl; [|reflexivity].
  rewrite nth_rolling_sum by exact Hi.
  rewrite rolling_sum_at_limit_up_row by exact Hone.
  destruct (trailing_count limit_up i <=? 1)%Z; reflexivity.
Qed.

(** [process_group_with_precheck] never raises on the columns
    [calculate_continuous_limit_up_optimized] feeds it, and labels every
    row. *)
Lemma process_group_total (limit_up : col Z) :
  process_group_with_precheck limit_up (rolling_sum 5 1 limit_up) =
  Ok (map (label_of limit_up) (seq 0 (List.length limit_up))).
Proof.
  unfold process_group_with_precheck. apply sequence_map_ok.
  intros i Hi. apply in_seq in Hi. apply row_label_ok. lia.
Qed.

Lemma calculate_continuous_ok (zt : col bool) :
  zt <> [] ->
  calculate_continuous_limit_up_optimized zt =
  Ok {| streak_len := streak_column zt;
        board_label := map (label_of (map cast_int zt))
                           (seq 0 (List.length zt)) |}.
Proof.
  intros Hne. unfold calculate_continuous_limit_up_optimized.
  destruct zt as [|z zt']; [congruence|].
  rewrite process_group_total, length_map. reflexivity.
Qed.

(** The streak engine on a frame without rows raises, since
    [map_groups] has no group to work on.  On a 涨停 column with at least
    one row, whatever it holds, nulls included, no row makes
    [last_5days_sum <= 1] compare [None]: the label loop raises no
    [TypeError], and the function returns one 连板数 cell and one label
    per row. *)
Theorem streak_engine_labels_every_row (zt : col bool) :
  (zt = [] -> calculate_continuous_limit_up_optimized zt = ComputeError) /\
  (zt <> [] ->
   exists cols,
     calculate_continuous_limit_up_optimized zt = Ok cols /\
     List.length (streak_len cols) = List.length zt /\
     List.length (board_label cols) = List.length zt).
Proof.
  split; [intros ->; reflexivity|]. intros Hne.
  rewrite calculate_continuous_ok by exact Hne.
  eexists. split; [reflexivity|].
  cbn [streak_len board_label]. split.
  - unfold streak_column, int_range_over, limit_group, cumsum, is_limit_changed.
    rewrite map2_length, int_range_over_from_length, cumsum_from_length,
      length_map, map2_length, shift_fill_length.
    lia.
  - rewrite length_map, length_seq. reflexivity.
Qed.

(** ** The first row of a symbol *)

Lemma compute_limits_first_row (b : Bar) (rest : list Bar) :
  exists tl, compute_limits None (b :: rest) = classify b None :: tl.
Proof.
  unfold compute_limits, shift. simpl. eexists. reflexivity.
Qed.

Lemma streak_column_head (z : option bool) (zt : col bool) :
  hd_error (streak_column (z :: zt)) =
  Some (when_then_otherwise z 1%Z 0%Z).
Proof.
  unfold streak_column, limit_group, is_limit_changed, shift_fill, cumsum.
  simpl. destruct (ne z (Some false)) as [v|]; reflexivity.
Qed.

Lemma label_of_head (z : option bool) (zt : col bool) :
  label_of (map cast_int (z :: zt)) 0 =
  when_then_otherwise z "1天1板" "0天0板".
Proof.
  unfold label_of, trailing_count, window. simpl.
  destruct z as [[|]|]; reflexivity.
Qed.

Lemma first_row_flag (b : Bar) :
  is_limit_up (classify b None) =
  if Pipeline.reaches_limit b then Some true else None.
Proof.
  unfold classify, Pipeline.reaches_limit, Limits.ge, Limits.eq. simpl.
  destruct (pct_chg b) as [x|]; simpl; [|reflexivity].
  destruct (Qle_bool _ _); reflexivity.
Qed.

(** C5 as stated fails on a listing day that the feed reports 44% up: the
    row has no previous close, yet it is flagged limit-up, counts as the
    first board and is labelled accordingly. *)
Lemma first_row_flagged_on_listing_day :
  exists d, Pipeline.derive Pipeline.listing_day = Ok d /\
            map prev_close (Pipeline.rows d) = [None] /\
            map is_limit_up (Pipeline.rows d) = [Some true] /\
            streak_len (Pipeline.streaks d) = [1%Z] /\
            board_label (Pipeline.streaks d) = ["1天1板"].
Proof. eexists. repeat split; reflexivity. Qed.

(** C5, amended: the first row of a symbol has no previous close and no
    limit prices, and is classified by its supplied percentage change
    alone.  When that change is null or below the limit percentage, 涨停 is
    null (never true), 连板数 is 0 and the label is the sentinel; when it
    reaches the limit percentage, 涨停 is true, 连板数 is 1 and the label is
    "1天1板".  In both cases the whole symbol is processed without an
    error. *)
Theorem first_row_classification (b : Bar) (rest : list Bar) :
  exists d r0,
    Pipeline.derive (b :: rest) = Ok d /\
    hd_error (Pipeline.rows d) = Some r0 /\
    prev_close r0 = None /\
    limit_up_price r0 = None /\
    limit_down_price r0 = None /\
    is_limit_up r0 = (if Pipeline.reaches_limit b then Some true else None) /\
    hd_error (streak_len (Pipeline.streaks d)) =
      Some (if Pipeline.reaches_limit b then 1%Z else 0%Z) /\
    hd_error (board_label (Pipeline.streaks d)) =
      Some (if Pipeline.reaches_limit b then "1天1板" else "0天0板").
Proof.
  unfold Pipeline.derive.
  destruct (compute_limits_first_row b rest) as [tl ->].
  rewrite calculate_continuous_ok by discriminate.
  remember (classify b None) as r0 eqn:Hr0.
  eexists. exists r0.
  cbn [Pipeline.rows Pipeline.streaks streak_len board_label map hd_error].
  split; [reflexivity|]. split; [reflexivity|].
  unfold Pipeline.streaks, streak_len, board_label.
  rewrite streak_column_head.
  replace (seq 0 (List.length (is_limit_up r0 :: map is_limit_up tl)))
    with (0%nat :: seq 1 (List.length (map is_limit_up tl))) by reflexivity.
  cbn [map hd_error].
  change (cast_int (is_limit_up r0) :: map cast_int (map is_limit_up tl))
    with (map cast_int (is_limit_up r0 :: map is_limit_up tl)).
  rewrite label_of_head.
  subst r0. rewrite first_row_flag.
  repeat split; destruct (Pipeline.reaches_limit b); reflexivity.
Qed.

(** ** The backward walk *)

Lemma walk_unfold (limit_up : col Z) (st : WalkState) :
  walk limit_up st =
  match walk_iter limit_up st with
  | Some st' => walk limit_up st'
  | None => (consecutive_count st, start_pos st)
  end.
Proof.
  funelim (walk limit_up st).
  - rewrite Hstep. reflexivity.
  - match goal with E : walk_iter _ _ = None |- _ => rewrite E end.
    reflexivity.
Qed.

(** Induction along the passes of the loop. *)
Lemma walk_iter_ind (limit_up : col Z) (P : WalkState -> Prop) :
  (forall st,
      (forall st', walk_iter limit_up st = Some st' -> P st') -> P st) ->
  forall st, P st.
Proof.
  intros Hstep st.
  remember (Z.to_nat (current_pos st + 1)) as m eqn:Hm.
  revert st Hm. induction m as [m IH] using lt_wf_ind. intros st ->.
  apply Hstep. intros st' Hst'.
  apply (IH (Z.to_nat (current_pos st' + 1))); [|reflexivity].
  apply (walk_iter_decreases limit_up). exact Hst'.
Qed.

Lemma range_down_complete (start : Z) (len : nat) (j : Z) :
  (start - Z.of_nat len < j <= start)%Z -> In j (range_down start len).
Proof.
  revert start; induction len as [|k IH]; intros start H; simpl.
  - lia.
  - destruct (Z.eq_dec start j) as [->|Hne]; [left; reflexivity|].
    right. apply IH. lia.
Qed.

Lemma find_range_down_first (f : Z -> bool) (len : nat) (start j : Z) :
  (start - Z.of_nat len < j <= start)%Z ->
  f j = true ->
  (forall k, (j < k <= start)%Z -> f k = false) ->
  find f (range_down start len) = Some j.
Proof.
  revert start; induction len as [|n IH]; intros start Hj Hf Hgap; simpl.
  - lia.
  - destruct (Z.eq_dec start j) as [->|Hne].
    + rewrite Hf. reflexivity.
    + rewrite (Hgap start) by lia. apply IH; [lia|exact Hf|].
      intros k Hk. apply Hgap. lia.
Qed.

Lemma find_in_window_none (limit_up : col Z) (p ws : Z) :
  find_in_window limit_up p ws = None ->
  forall k, (ws <= k <= p)%Z -> is_one (cell limit_up k) = false.
Proof.
  unfold find_in_window, py_range_desc. intros H k Hk.
  apply (find_none _ _ H). apply range_down_complete. lia.
Qed.

Lemma cell_negative (limit_up : col Z) (k : Z) :
  (k < 0)%Z -> is_one (cell limit_up k) = false.
Proof.
  intros H. unfold cell. apply Z.ltb_lt in H. rewrite H. reflexivity.
Qed.

(** A pass of the loop that leaves it has seen no limit-up row among the
    five rows ending at the search pointer. *)
Lemma walk_iter_none (limit_up : col Z) (st : WalkState) :
  walk_iter limit_up st = None ->
  forall k, (current_pos st - 4 <= k <= current_pos st)%Z ->
            is_one (cell limit_up k) = false.
Proof.
  unfold walk_iter. intros H k Hk.
  destruct (current_pos st <? 0)%Z eqn:Hneg.
  - apply Z.ltb_lt in Hneg. apply cell_negative. lia.
  - apply Z.ltb_ge in Hneg.
    destruct (find_in_window _ _ _) eqn:Hf; [discriminate|].
    destruct (Z.lt_ge_cases k 0) as [Hk0|Hk0]; [apply cell_negative; exact Hk0|].
    apply (find_in_window_none _ _ _ Hf). lia.
Qed.

Lemma find_range_down_gap (f : Z -> bool) (len : nat) (start j : Z) :
  find f (range_down start len) = Some j ->
  forall k, (j < k <= start)%Z -> f k = false.
Proof.
  revert start; induction len as [|n IH]; intros start H k Hk; simpl in H.
  - discriminate.
  - destruct (f start) eqn:Hs.
    + injection H as <-. lia.
    + destruct (Z.eq_dec k start) as [->|Hne]; [exact Hs|].
      apply (IH _ H). pose proof (find_some _ _ H) as [Hin _].
      apply range_down_bounds in Hin. lia.
Qed.

(** A pass that stays in the loop has taken the nearest limit-up row at or
    before the search pointer, at most four rows back. *)
Lemma walk_iter_some (limit_up : col Z) (st st' : WalkState) :
  walk_iter limit_up st = Some st' ->
  exists j,
    st' = mkWalk (consecutive_count st + 1) j (j - 1) /\
    (0 <= j)%Z /\ (current_pos st - 4 <= j <= current_pos st)%Z /\
    is_one (cell limit_up j) = true /\
    forall k, (j < k <= current_pos st)%Z -> is_one (cell limit_up k) = false.
Proof.
  unfold walk_iter. destruct (current_pos st <? 0)%Z; [discriminate|].
  destruct (find_in_window _ _ _) as [j|] eqn:Hf; [|discriminate].
  intros [= <-]. exists j. split; [reflexivity|].
  pose proof (find_in_window_bounds _ _ _ _ Hf) as [Hb Hone].
  split; [lia|]. split; [lia|]. split; [exact Hone|].
  unfold find_in_window, py_range_desc in Hf.
  apply (find_range_down_gap _ _ _ _ Hf).
Qed.

Lemma walk_takes_row_within_four (limit_up : col Z) : chain_survives_gap 4 limit_up.
Proof.
  intros c p j (Hj & Hone & Hgap) Hdist.
  unfold walk_iter. cbn [current_pos consecutive_count].
  replace (p - 1 <? 0)%Z with false by (symmetry; apply Z.ltb_ge; lia).
  unfold find_in_window, py_range_desc.
  rewrite (find_range_down_first _ _ (p - 1) j); [reflexivity| |exact Hone|].
  - lia.
  - intros k Hk. apply Hgap. lia.
Qed.

(** Where the walk ends, the five rows before the earliest row of the
    chain hold no limit-up row. *)
Lemma walk_ends_on_empty_window (limit_up : col Z) (st : WalkState) :
  start_pos st = (current_pos st + 1)%Z ->
  forall k, (snd (walk limit_up st) - 5 <= k < snd (walk limit_up st))%Z ->
            is_one (cell limit_up k) = false.
Proof.
  induction st as [st IH] using (walk_iter_ind limit_up).
  intros Hinv k. rewrite walk_unfold.
  destruct (walk_iter limit_up st) as [st'|] eqn:Hstep.
  - apply (IH st' eq_refl).
    destruct (walk_iter_some _ _ _ Hstep) as (j & -> & _). simpl. lia.
  - cbn [snd]. intros Hk. apply (walk_iter_none _ _ Hstep). lia.
Qed.

(** C3 as stated fails at a gap of five rows: rows 6 and 7 are limit-up,
    row 0 is the nearest limit-up row before row 6 with rows 1..5 in
    between, and the pass that starts from row 6 leaves the loop without
    it; row 7 is labelled "2天2板". *)
Lemma chain_breaks_at_gap_of_five :
  let limit_up :=
    map cast_int [Some true; Some false; Some false; Some false; Some false;
                  Some false; Some true; Some true] in
  nearest_limit_up_before limit_up 6 0 /\
  (6 - 0 - 1 = 5)%Z /\
  walk_iter limit_up (mkWalk 2 6 5) = None /\
  label_of limit_up 7 = "2天2板" /\
  ~ chain_survives_gap 5 limit_up.
Proof.
  cbv zeta.
  assert (Hnear : nearest_limit_up_before
                    (map cast_int [Some true; Some false; Some false; Some false;
                                   Some false; Some false; Some true; Some true])
                    6 0).
  { split; [lia|]. split; [reflexivity|].
    intros k Hk.
    assert (Hcases : (k = 1 \/ k = 2 \/ k = 3 \/ k = 4 \/ k = 5)%Z) by lia.
    destruct Hcases as [-> | [-> | [-> | [-> | ->] ] ] ]; reflexivity. }
  split; [exact Hnear|]. split; [reflexivity|]. split; [reflexivity|].
  split; [reflexivity|].
  intros H. specialize (H 2%Z 6%Z 0%Z Hnear ltac:(lia)). discriminate H.
Qed.

(** C3, amended: the chain survives a gap of up to FOUR rows.  In the
    backward walk, whenever the nearest limit-up row before the last row
    [p] of the chain is separated from it by at most four rows that are
    not limit-up, the next pass takes it into the chain (the board count
    grows by one, the span reaches back to it); a pass leaves the loop
    only when none of the five rows before [p] is limit-up; where the
    walk of a row ends, none of the five rows before the earliest row of
    its chain is limit-up; and the label of a limit-up row with a trailing
    count above 1 is the one this walk yields. *)
Theorem chain_survives_gap_of_four (limit_up : col Z) :
  chain_survives_gap 4 limit_up /\
  (forall c p k,
      walk_iter limit_up (mkWalk c p (p - 1)) = None ->
      (p - 5 <= k < p)%Z -> is_one (cell limit_up k) = false) /\
  (forall (i : nat) k,
      let earliest := (Z.of_nat i - fst (full_walk limit_up i) + 1)%Z in
      (earliest - 5 <= k < earliest)%Z -> is_one (cell limit_up k) = false) /\
  (forall i : nat,
      is_one (nth i limit_up None) = true ->
      (1 < trailing_count limit_up i)%Z ->
      label_of limit_up i = full_walk_label limit_up i).
Proof.
  split; [apply walk_takes_row_within_four|]. split; [|split].
  - intros c p k H Hk. apply (walk_iter_none _ _ H). simpl. lia.
  - intros i k earliest Hk. subst earliest. unfold full_walk in Hk.
    destruct (walk limit_up _) as [cnt sp] eqn:Hw. cbn [fst] in Hk.
    pose proof (walk_ends_on_empty_window limit_up
                  {| consecutive_count := 1; start_pos := Z.of_nat i;
                     current_pos := Z.of_nat i - 1 |}) as Hend.
    rewrite Hw in Hend. cbn [snd start_pos current_pos] in Hend.
    apply Hend; lia.
  - intros i Hone Hcount. unfold label_of. rewrite Hone. cbn [negb].
    replace (trailing_count limit_up i <=? 1)%Z with false
      by (symmetry; apply Z.leb_gt; exact Hcount).
    reflexivity.
Qed.

(** The amended statement at Scenario A: the limit-up row 0 lies three
    rows before row 4 and is taken into its chain. *)
Lemma chain_survives_gap_scenario_a :
  let limit_up :=
    map cast_int [Some true; Some false; Some false; Some false; Some true] in
  walk_iter limit_up (mkWalk 1 4 (4 - 1)) = Some (mkWalk (1 + 1) 0 (0 - 1)) /\
  label_of limit_up 4 = "5天2板".
Proof.
  cbv zeta. split; [|reflexivity].
  apply (proj1 (chain_survives_gap_of_four _)).
  - split; [lia|]. split; [reflexivity|].
    intros k Hk.
    assert (Hcases : (k = 1 \/ k = 2 \/ k = 3)%Z) by lia.
    destruct Hcases as [-> | [-> | ->] ]; reflexivity.
  - lia.
Defined.

(** ** The pre-check against the walk it replaces *)

Lemma sum_non_null_nonneg (l : col Z) :
  (forall v, In (Some v) l -> 0 <= v)%Z -> (0 <= sumZ (non_null l))%Z.
Proof.
  unfold sumZ. induction l as [|[x|] l IH]; intros H; simpl.
  - lia.
  - pose proof (H x (or_introl eq_refl)).
    assert (0 <= fold_right Z.add 0 (non_null l))%Z
      by (apply IH; intros v Hv; apply H; right; exact Hv).
    lia.
  - apply IH. intros v Hv. apply H. right. exact Hv.
Qed.

Lemma sum_non_null_one (l : col Z) (b : nat) :
  (forall v, In (Some v) l -> 0 <= v)%Z ->
  is_one (nth b l None) = true -> (1 <= sumZ (non_null l))%Z.
Proof.
  revert b; induction l as [|x l IH]; intros b Hpos Hb.
  - destruct b; discriminate Hb.
  - assert (Htail : forall v, In (Some v) l -> (0 <= v)%Z)
      by (intros v Hv; apply Hpos; right; exact Hv).
    pose proof (sum_non_null_nonneg l Htail) as Hsum.
    destruct b as [|b]; simpl in Hb.
    + destruct x as [v|]; [|discriminate]. simpl in Hb.
      apply Z.eqb_eq in Hb. subst v. unfold sumZ in *. cbn [non_null fold_right]. lia.
    + pose proof (IH b Htail Hb) as Hone.
      destruct x as [v|]; [|exact Hone].
      pose proof (Hpos v (or_introl eq_refl)). unfold sumZ in *. cbn [non_null fold_right]. lia.
Qed.

Lemma sum_non_null_two (l : col Z) (a b : nat) :
  (forall v, In (Some v) l -> 0 <= v)%Z ->
  (a < b)%nat ->
  is_one (nth a l None) = true -> is_one (nth b l None) = true ->
  (2 <= sumZ (non_null l))%Z.
Proof.
  revert a b; induction l as [|x l IH]; intros a b Hpos Hab Ha Hb.
  - destruct a; discriminate Ha.
  - assert (Htail : forall v, In (Some v) l -> (0 <= v)%Z)
      by (intros v Hv; apply Hpos; right; exact Hv).
    destruct b as [|b]; [lia|]. simpl in Hb.
    destruct a as [|a]; simpl in Ha.
    + destruct x as [v|]; [|discriminate]. simpl in Ha.
      apply Z.eqb_eq in Ha. subst v.
      pose proof (sum_non_null_one l b Htail Hb). unfold sumZ in *. cbn [non_null fold_right]. lia.
    + pose proof (IH a b Htail ltac:(lia) Ha Hb) as Htwo.
      destruct x as [v|]; [|exact Htwo].
      pose proof (Hpos v (or_introl eq_refl)). unfold sumZ in *. cbn [non_null fold_right]. lia.
Qed.

Lemma in_window {A} (w i : nat) (c : list A) (x : A) :
  In x (window w i c) -> In x c.
Proof.
  unfold window. intros H.
  rewrite <- (firstn_skipn (S i) c). apply in_or_app. left.
  rewrite <- (firstn_skipn (S i - w) (firstn (S i) c)).
  apply in_or_app. right. exact H.
Qed.

Lemma cast_int_nonneg (zt : col bool) (v : Z) :
  In (Some v) (map cast_int zt) -> (0 <= v)%Z.
Proof.
  intros H. apply in_map_iff in H. destruct H as ([[|]|] & Hx & _);
    simpl in Hx; try discriminate; injection Hx as <-; lia.
Qed.

(** A limit-up row whose trailing count is at most 1 has no limit-up row
    among the four rows before it. *)
Lemma precheck_clears_four_rows (zt : col bool) (i k : nat) :
  is_one (nth i (map cast_int zt) None) = true ->
  (trailing_count (map cast_int zt) i <= 1)%Z ->
  (i - 4 <= k < i)%nat ->
  is_one (nth k (map cast_int zt) None) = false.
Proof.
  intros Hi Hcount Hk.
  destruct (is_one (nth k (map cast_int zt) None)) eqn:Hone; [|reflexivity].
  exfalso. unfold trailing_count in Hcount.
  assert (Htwo : (2 <= sumZ (non_null (window 5 i (map cast_int zt))))%Z).
  { apply (sum_non_null_two _ (k - (S i - 5)) (i - (S i - 5))).
    - intros v Hv. apply in_window in Hv. apply (cast_int_nonneg zt). exact Hv.
    - lia.
    - rewrite window_nth.
      replace (S i - 5 + (k - (S i - 5)))%nat with k by lia.
      replace (k <? S i)%nat with true by (symmetry; apply Nat.ltb_lt; lia).
      exact Hone.
    - rewrite window_nth.
      replace (S i - 5 + (i - (S i - 5)))%nat with i by lia.
      replace (i <? S i)%nat with true by (symmetry; apply Nat.ltb_lt; lia).
      exact Hi. }
  lia.
Qed.

Lemma cell_nth (limit_up : col Z) (k : nat) :
  cell limit_up (Z.of_nat k) = nth k limit_up None.
Proof.
  unfold cell. replace (Z.of_nat k <? 0)%Z with false
    by (symmetry; apply Z.ltb_ge; lia).
  rewrite Nat2Z.id. reflexivity.
Qed.

Lemma find_all_false {A} (f : A -> bool) (l : list A) :
  (forall x, In x l -> f x = false) -> find f l = None.
Proof.
  induction l as [|x l IH]; intros H; simpl; [reflexivity|].
  rewrite (H x (or_introl eq_refl)). apply IH.
  intros y Hy. apply H. right. exact Hy.
Qed.

(** The walk never lowers the board count. *)
Lemma walk_count_grows (limit_up : col Z) (st : WalkState) :
  (consecutive_count st <= fst (walk limit_up st))%Z.
Proof.
  induction st as [st IH] using (walk_iter_ind limit_up).
  rewrite walk_unfold.
  destruct (walk_iter limit_up st) as [st'|] eqn:Hstep; [|cbn; lia].
  specialize (IH st' eq_refl).
  destruct (walk_iter_some _ _ _ Hstep) as (j & -> & _). cbn in IH. lia.
Qed.

(** Where the short cut and the walk agree, and where they do not: on a
    limit-up row with a trailing count of at most 1, the walk yields one
    day and one board exactly when the row five rows back is not
    limit-up. *)
Lemma precheck_matches_walk_iff (zt : col bool) (i : nat) :
  is_one (nth i (map cast_int zt) None) = true ->
  (trailing_count (map cast_int zt) i <= 1)%Z ->
  full_walk (map cast_int zt) i = (1, 1)%Z <->
  is_one (cell (map cast_int zt) (Z.of_nat i - 5)) = false.
Proof.
  intros Hi Hcount. set (limit_up := map cast_int zt) in *.
  assert (Hclear : forall k, (Z.of_nat i - 4 <= k < Z.of_nat i)%Z ->
                             is_one (cell limit_up k) = false).
  { intros k Hk. destruct (Z.lt_ge_cases k 0) as [Hneg|Hpos].
    - apply cell_negative. exact Hneg.
    - rewrite <- (Z2Nat.id k) by exact Hpos. rewrite cell_nth.
      apply (precheck_clears_four_rows zt i); [exact Hi|exact Hcount|lia]. }
  unfold full_walk. rewrite walk_unfold.
  destruct (is_one (cell limit_up (Z.of_nat i - 5))) eqn:Hfive.
  - (* the walk finds the row five back *)
    assert (Hpos : (0 <= Z.of_nat i - 5)%Z).
    { destruct (Z.lt_ge_cases (Z.of_nat i - 5) 0) as [Hneg|Hge]; [|exact Hge].
      rewrite cell_negative in Hfive by exact Hneg. discriminate. }
    assert (Hstep : walk_iter limit_up
                      {| consecutive_count := 1; start_pos := Z.of_nat i;
                         current_pos := Z.of_nat i - 1 |} =
                    Some (mkWalk (1 + 1) (Z.of_nat i - 5) (Z.of_nat i - 5 - 1))).
    { apply walk_takes_row_within_four; [|lia].
      split; [lia|]. split; [exact Hfive|].
      intros k Hk. apply Hclear. lia. }
    rewrite Hstep.
    pose proof (walk_count_grows limit_up
                  (mkWalk (1 + 1) (Z.of_nat i - 5) (Z.of_nat i - 5 - 1))) as Hgrow.
    destruct (walk limit_up _) as [cnt sp]. cbn in Hgrow.
    split; [|discriminate]. intros [= _ Hcnt]. lia.
  - (* the walk finds nothing *)
    assert (Hstep : walk_iter limit_up
                      {| consecutive_count := 1; start_pos := Z.of_nat i;
                         current_pos := Z.of_nat i - 1 |} = None).
    { unfold walk_iter. cbn [current_pos].
      destruct (Z.of_nat i - 1 <? 0)%Z; [reflexivity|].
      unfold find_in_window. rewrite find_all_false; [reflexivity|].
      intros j Hj. unfold py_range_desc in Hj. apply range_down_bounds in Hj.
      destruct (Z.eq_dec j (Z.of_nat i - 5)) as [->|Hne]; [exact Hfive|].
      apply Hclear. lia. }
    rewrite Hstep. cbn.
    split; [reflexivity|]. intros _. f_equal. lia.
Qed.

(** The characterisation at the rows 0..5 of the input below: row 5
    passes the pre-check, and the walk would not yield one day and one
    board, because row 0 is limit-up. *)
Lemma precheck_matches_walk_iff_at_gap_of_four :
  let zt := [Some true; Some false; Some false; Some false; Some false;
             Some true] in
  full_walk (map cast_int zt) 5 = (1, 1)%Z <->
  is_one (cell (map cast_int zt) (Z.of_nat 5 - 5)) = false.
Proof.
  cbv zeta. apply (precheck_matches_walk_iff _ 5%nat).
  - reflexivity.
  - intros H. discriminate H.
Defined.

(** C1, at the input where the short cut and the walk part: limit-up on
    rows 0 and 5, nothing in between.  The trailing count of row 5 covers
    rows 1..5 and is 1, so the row is labelled "1天1板"; the walk it skips
    searches rows 4 down to 0, finds row 0 and yields "6天2板". *)
Theorem precheck_cuts_chain_at_gap_of_four :
  let limit_up :=
    map cast_int [Some true; Some false; Some false; Some false; Some false;
                  Some true] in
  nth 5 limit_up None = Some 1%Z /\
  nth 5 (rolling_sum 5 1 limit_up) None = Some 1%Z /\
  row_label limit_up (rolling_sum 5 1 limit_up) 5 = Ok "1天1板" /\
  full_walk_label limit_up 5 = "6天2板".
Proof. cbv zeta. repeat split; reflexivity. Qed.

(** ** The consecutive counter *)

Lemma ne_shifted_null_free (flags : list bool) (p : bool) :
  map2 ne (map Some flags)
       (firstn (List.length flags) (Some p :: map Some flags)) =
  map Some (changes p flags).
Proof.
  revert p; induction flags as [|b t IH]; intros p; [reflexivity|].
  cbn [List.length map firstn map2 changes]. f_equal. apply IH.
Qed.

Lemma filter_none_above (acc : Z) (seen : list (option Z)) :
  (forall s, In s seen -> exists v, s = Some v /\ (v <= acc)%Z) ->
  filter (key_eqb (Some (acc + 1)%Z)) seen = [].
Proof.
  induction seen as [|s seen IH]; intros H; [reflexivity|].
  destruct (H s (or_introl eq_refl)) as (v & -> & Hv). cbn.
  replace (acc + 1 =? v)%Z with false by (symmetry; apply Z.eqb_neq; lia).
  apply IH. intros s' Hs'. apply H. right. exact Hs'.
Qed.

(** The invariant of the group numbering on a column without nulls:
    every key seen so far is at most the running total [acc], [m] rows
    carry the key [acc] itself, and [k] is the counter of the previous
    row. *)
Lemma streak_groups_null_free (flags : list bool) :
  forall (p : bool) (acc : Z) (seen : list (option Z)) (m : nat) (k : Z),
    (forall s, In s seen -> exists v, s = Some v /\ (v <= acc)%Z) ->
    List.length (filter (key_eqb (Some acc)) seen) = m ->
    (p = true -> Z.of_nat m = k) ->
    (p = false -> k = 0%Z) ->
    map2 (fun z r => when_then_otherwise z (r + 1)%Z 0%Z)
         (map Some flags)
         (int_range_over_from key_eqb seen
            (cumsum_from acc (map cast_int (map Some (changes p flags))))) =
    run_lengths k flags.
Proof.
  induction flags as [|b t IH]; intros p acc seen m k Hseen Hm Htrue Hfalse;
    [reflexivity|].
  cbn [changes map cast_int option_map cumsum_from int_range_over_from map2
       run_lengths].
  destruct (Bool.eqb b p) eqn:Hbp; cbn [negb].
  - (* no change: the row joins the current group *)
    apply Bool.eqb_prop in Hbp. subst p.
    replace (acc + 0)%Z with acc by lia. rewrite Hm. f_equal.
    + destruct b; cbn; [rewrite (Htrue eq_refl); reflexivity|reflexivity].
    + apply (IH b acc (Some acc :: seen) (S m)).
      * intros s [<-|Hs]; [exists acc; split; [reflexivity|lia]|apply Hseen; exact Hs].
      * cbn. rewrite Z.eqb_refl. cbn. rewrite Hm. reflexivity.
      * intros ->. rewrite <- (Htrue eq_refl). lia.
      * intros ->. reflexivity.
  - (* a change: the row opens a new group *)
    rewrite (filter_none_above acc seen Hseen). cbn [List.length Z.of_nat].
    assert (Hk : b = true -> k = 0%Z).
    { intros ->. apply Hfalse. destruct p; [discriminate Hbp|reflexivity]. }
    f_equal.
    + destruct b; cbn; [rewrite (Hk eq_refl); reflexivity|reflexivity].
    + apply (IH b (acc + 1)%Z (Some (acc + 1)%Z :: seen) 1%nat).
      * intros s [<-|Hs]; [exists (acc + 1)%Z; split; [reflexivity|lia]|].
        destruct (Hseen s Hs) as (v & -> & Hv). exists v. split; [reflexivity|lia].
      * cbn. rewrite Z.eqb_refl. cbn.
        rewrite (filter_none_above acc seen Hseen). reflexivity.
      * intros ->. rewrite (Hk eq_refl). reflexivity.
      * intros ->. reflexivity.
Qed.

(** On a 涨停 column without nulls the counter is the run length: k on the
    k-th row of a run of true rows, 0 on every false row. *)
Lemma streak_column_null_free (flags : list bool) :
  streak_column (map Some flags) = run_lengths 0 flags.
Proof.
  unfold streak_column, limit_group, is_limit_changed, shift_fill, cumsum,
    int_range_over.
  rewrite length_map. cbn [repeat app].
  rewrite ne_shifted_null_free.
  apply (streak_groups_null_free flags false 0%Z [] 0%nat 0%Z).
  - intros s [].
  - reflexivity.
  - discriminate.
  - reflexivity.
Qed.

(** C6, at an input where the counter does not follow the run: a symbol
    that closes at the limit on the second and third bar of its history.
    Its first row has no previous close, so 涨停 is null there; the change
    flag of row 1 is null as well, rows 0 and 1 share the null group, and
    连板数 comes out as 0, 2, 1 where the run would give 0, 1, 2. *)
Theorem streak_len_miscounts_after_null_row :
  exists d,
    Pipeline.derive Pipeline.two_boards_after_listing = Ok d /\
    map is_limit_up (Pipeline.rows d) = [None; Some true; Some true] /\
    limit_group (map is_limit_up (Pipeline.rows d)) = [None; None; Some 0%Z] /\
    streak_len (Pipeline.streaks d) = [0; 2; 1]%Z.
Proof. eexists. repeat split; reflexivity. Qed.

End StreakFacts.

(* ===================================================================== *)
(** * Properties of the multi-period returns                             *)
(* ===================================================================== *)

Module IndicatorFacts.
Import Polars Indicators ColumnFacts.
Local Open Scope list_scope.




End IndicatorFacts.

(* ===================================================================== *)
(** * Properties of the candle streaks                                   *)
(* ===================================================================== *)

Module CandleFacts.
Import Polars Candles.
Local Open Scope list_scope.
Local Open Scope Z_scope.

Lemma set_nth_length {A} (i : nat) (v : A) (l : list A) :
  List.length (set_nth i v l) = List.length l.
Proof.
  revert i; induction l as [|x l IH]; intros [|i]; simpl; auto.
Qed.

Lemma nth_set_nth {A} (i j : nat) (v d : A) (l : list A) :
  nth j (set_nth i v l) d =
  if (j =? i)%nat then (if (i <? List.length l)%nat then v else d)
  else nth j l d.
Proof.
  revert i j; induction l as [|x l IH]; intros [|i] [|j]; simpl; auto;
    try (destruct (j =? i)%nat; reflexivity).
Qed.

Lemma counts_flagged_set (flags : col bool) (arr : list Z) (i : nat) (v : Z) :
  counts_flagged flags arr ->
  0 <= v -> (0 < v -> truthy (nth i flags None) = true) ->
  counts_flagged flags (set_nth i v arr).
Proof.
  intros [Hlen Hall] Hv Hflag. split.
  - rewrite set_nth_length. exact Hlen.
  - intros j. rewrite nth_set_nth.
    destruct (j =? i)%nat eqn:Hji; [|apply Hall].
    apply Nat.eqb_eq in Hji. subst j.
    destruct (i <? List.length arr)%nat; [auto|].
    split; [lia|intros; lia].
Qed.

Lemma counts_flagged_update (flags : col bool) (arr : list Z) (i : nat) :
  counts_flagged flags arr ->
  counts_flagged flags
    (if truthy (nth i flags None)
     then set_nth i (if (0 <? i)%nat then nth (i - 1) arr 0 + 1 else 1) arr
     else set_nth i 0 arr).
Proof.
  intros H. destruct (truthy (nth i flags None)) eqn:Ht.
  - pose proof (proj1 (proj2 H (i - 1)%nat)) as Hprev.
    apply counts_flagged_set; [exact H| |intros _; exact Ht].
    destruct (0 <? i)%nat; lia.
  - apply counts_flagged_set; [exact H|lia|lia].
Qed.

Lemma streak_step_keeps (pos neg : col bool) (st : list Z * list Z) (i : nat) :
  counts_flagged pos (fst st) -> counts_flagged neg (snd st) ->
  counts_flagged pos (fst (streak_step pos neg st i)) /\
  counts_flagged neg (snd (streak_step pos neg st i)).
Proof.
  destruct st as [up down]. cbn [fst snd]. intros Hu Hd.
  unfold streak_step. cbn [fst snd].
  split; apply counts_flagged_update; assumption.
Qed.

Lemma calc_streaks_flagged (pos neg : col bool) :
  List.length neg = List.length pos ->
  counts_flagged pos (fst (_calc_streaks pos neg)) /\
  counts_flagged neg (snd (_calc_streaks pos neg)).
Proof.
  intros Hlen. unfold _calc_streaks.
  assert (Hinit : counts_flagged pos
                    (fst (repeat 0 (List.length pos), repeat 0 (List.length pos))) /\
                  counts_flagged neg
                    (snd (repeat 0 (List.length pos), repeat 0 (List.length pos)))).
  { cbn [fst snd]. split; (split; [rewrite repeat_length; auto|]);
      intros i; rewrite nth_repeat; split; lia. }
  revert Hinit.
  generalize (repeat 0 (List.length pos), repeat 0 (List.length pos)).
  generalize (seq 0 (List.length pos)).
  intros idx. induction idx as [|i idx IH]; intros st [Hu Hd]; simpl.
  - split; assumption.
  - apply IH. apply streak_step_keeps; assumption.
Qed.

Lemma in_zip_rows (oc : list (option Q * option Q)) (pos neg : col bool)
  (up down : list Z) (r : CandleRow) :
  In r (zip_rows oc pos neg up down) ->
  exists k,
    r = {| open_price := fst (nth k oc (None, None));
           close := snd (nth k oc (None, None));
           is_up_candle := nth k pos None;
           is_down_candle := nth k neg None;
           up_streak_days := nth k up 0;
           down_streak_days := nth k down 0 |}.
Proof.
  revert pos neg up down.
  induction oc as [|[o c] oc IH]; intros [|p pos] [|n neg] [|u up] [|d down] H;
    simpl in H; try contradiction.
  destruct H as [<-|H].
  - exists 0%nat. reflexivity.
  - destruct (IH _ _ _ _ H) as [k ->]. exists (S k). reflexivity.
Qed.

Lemma zip_rows_length (oc : list (option Q * option Q)) (pos neg : col bool)
  (up down : list Z) :
  List.length pos = List.length oc -> List.length neg = List.length oc ->
  List.length up = List.length oc -> List.length down = List.length oc ->
  List.length (zip_rows oc pos neg up down) = List.length oc.
Proof.
  revert pos neg up down.
  induction oc as [|[o c] oc IH]; intros [|p pos] [|n neg] [|u up] [|d down];
    simpl; intros; try lia.
  f_equal. apply IH; lia.
Qed.

(** C10: the result has one row per input row; on every row both candle
    counters are non-negative, at most one of them is positive, and both
    are 0 when the close equals the open. *)
Theorem candle_streaks_exclusive (oc : list (option Q * option Q)) :
  List.length (add_candlestick_trend_streaks oc) = List.length oc /\
  Forall (fun r =>
            0 <= up_streak_days r /\ 0 <= down_streak_days r /\
            ~ (0 < up_streak_days r /\ 0 < down_streak_days r) /\
            (forall o c, open_price r = Some o -> close r = Some c ->
                         Qeq c o ->
                         up_streak_days r = 0 /\ down_streak_days r = 0))
         (add_candlestick_trend_streaks oc).
Proof.
  unfold add_candlestick_trend_streaks.
  set (pos := map (fun r => gt (snd r) (fst r)) oc).
  set (neg := map (fun r => lt (snd r) (fst r)) oc).
  assert (Hlp : List.length pos = List.length oc) by apply length_map.
  assert (Hln : List.length neg = List.length oc) by apply length_map.
  destruct (calc_streaks_flagged pos neg ltac:(lia)) as [[Hlu Hu] [Hld Hd]].
  destruct (_calc_streaks pos neg) as [up down]. cbn [fst snd] in *.
  split; [apply zip_rows_length; lia|].
  apply Forall_forall. intros r Hr.
  apply in_zip_rows in Hr. destruct Hr as [k ->]. cbn.
  destruct (Hu k) as [Hu0 Hu1]. destruct (Hd k) as [Hd0 Hd1].
  assert (Hp : nth k pos None =
               gt (snd (nth k oc (None, None))) (fst (nth k oc (None, None))))
    by (subst pos; apply (map_nth (fun r => gt (snd r) (fst r)) oc (None, None))).
  assert (Hn : nth k neg None =
               lt (snd (nth k oc (None, None))) (fst (nth k oc (None, None))))
    by (subst neg; apply (map_nth (fun r => lt (snd r) (fst r)) oc (None, None))).
  rewrite Hp in Hu1. rewrite Hn in Hd1.
  destruct (nth k oc (None, None)) as [[o|] [c|]]; cbn in *;
    unfold truthy in *; cbn in *.
  all: split; [exact Hu0|]; split; [exact Hd0|]; split.
  all: try (intros [H1 H2]; specialize (Hu1 H1); specialize (Hd1 H2);
            try discriminate).
  all: try (intros o' c' Ho Hc; try discriminate).
  - apply negb_true_iff in Hu1, Hd1.
    destruct (Qle_bool c o) eqn:E1; [discriminate|].
    destruct (Qle_bool o c) eqn:E2; [discriminate|].
    assert (~ (c <= o)%Q) by (rewrite <- Qle_bool_iff; congruence).
    assert (~ (o <= c)%Q) by (rewrite <- Qle_bool_iff; congruence).
    lra.
  - injection Ho as <-. injection Hc as <-. intros Heq.
    assert (E1 : Qle_bool c o = true) by (apply Qle_bool_iff; lra).
    assert (E2 : Qle_bool o c = true) by (apply Qle_bool_iff; lra).
    rewrite E1 in Hu1. rewrite E2 in Hd1. cbn in *.
    split.
    + destruct (Z.eq_dec (nth k up 0) 0) as [|Hne]; [assumption|].
      assert (H : 0 < nth k up 0) by lia. specialize (Hu1 H). discriminate.
    + destruct (Z.eq_dec (nth k down 0) 0) as [|Hne]; [assumption|].
      assert (H : 0 < nth k down 0) by lia. specialize (Hd1 H). discriminate.
Qed.

End CandleFacts.

(* ===================================================================== *)
(** * Properties of the snapshot writer and the incremental merger       *)
(* ===================================================================== *)

Module SnapshotFacts.
Import Snapshot Writer.
Local Open Scope list_scope.

Section Persistence.
Variable Frame : Type.
Variable is_empty : Frame -> bool.
Variables compute_limits_df continuous_df indicators_df relative_df
          candles_df : Frame -> option Frame.
Variable init_columns_df : Frame -> Frame.

Lemma fs_set_same (fs : FS Frame) (p : string) (v : option (FileContent Frame)) :
  fs_set fs p v p = v.
Proof. unfold fs_set. rewrite String.eqb_refl. reflexivity. Qed.

Lemma fs_set_other (fs : FS Frame) (p q : string)
  (v : option (FileContent Frame)) :
  q <> p -> fs_set fs p v q = fs q.
Proof.
  intros H. unfold fs_set. apply String.eqb_neq in H. rewrite H. reflexivity.
Qed.

(** Writing something at [p] removes no file. *)
Lemma fs_set_keeps_files (fs : FS Frame) (p q : string)
  (v : option (FileContent Frame)) :
  fs q <> None -> v <> None -> fs_set fs p v q <> None.
Proof.
  intros Hq Hv. unfold fs_set. destruct (String.eqb q p); assumption.
Qed.

(** Writing at a name that was not a file of [base] keeps agreement. *)
Lemma agrees_set_fresh (base fs : FS Frame) (tmp : string)
  (v : option (FileContent Frame)) :
  agrees base fs -> base tmp = None -> agrees base (fs_set fs tmp v).
Proof.
  intros Hag Hfresh q Hq. rewrite fs_set_other; [apply Hag; exact Hq|].
  intros ->. contradiction.
Qed.

Lemma fresh_name (base fs : FS Frame) (tmp : string) :
  agrees base fs -> fs tmp = None -> base tmp = None.
Proof.
  intros Hag Hnone. destruct (base tmp) eqn:Hb; [|reflexivity].
  rewrite <- Hnone, <- Hb. symmetry. apply Hag. rewrite Hb. discriminate.
Qed.

Lemma cleanup_agrees (base fs fs' : FS Frame) (tf : PyVar) (u : bool) :
  agrees base fs -> fresh_handle base tf ->
  cleanup tf u fs = Some fs' -> agrees base fs'.
Proof.
  intros Hag Hfresh. unfold cleanup.
  destruct tf as [| |tmp]; [discriminate|intros [= <-]; exact Hag|].
  destruct (fs tmp); intros [= <-]; [|exact Hag].
  destruct u; [|exact Hag].
  apply agrees_set_fresh; [exact Hag|apply Hfresh; reflexivity].
Qed.

(** One [try] block in which [shutil.move] does not fall back to
    copying: either the rename went through and the target holds the
    complete frame, or everything that existed is as it was. *)
Lemma try_block_spec (base fs : FS Frame) (df : Frame) (file_path : string)
  (a : Attempt) (tf : PyVar) :
  falls_back a = false ->
  agrees base fs -> fresh_handle base tf -> base file_path <> None ->
  match try_block df file_path a tf fs with
  | (inl fs', states) =>
      committed base df file_path fs' /\
      forall s, In s states ->
                agrees base s \/ committed base df file_path s
  | (inr (tf', _, fs'), states) =>
      agrees base fs' /\ fresh_handle base tf' /\
      forall s, In s states -> agrees base s
  end.
Proof.
  intros Hrename Hag Hfresh Htarget.
  assert (Hnone : fresh_handle base PyNone) by (intros tmp H; discriminate H).
  destruct a as [u| |tmp u|tmp u|tmp u|tmp u|tmp|tmp];
    cbn [falls_back] in Hrename; try discriminate Hrename; cbn [try_block].
  - repeat split; auto. intros s [].
  - repeat split; auto. intros s [].
  - destruct (fs tmp) eqn:Htmp.
    + repeat split; auto. intros s [].
    + pose proof (fresh_name _ _ _ Hag Htmp) as Hb.
      split; [apply agrees_set_fresh; assumption|]. split.
      * intros t [= <-]. exact Hb.
      * intros s [<-|[]]. apply agrees_set_fresh; assumption.
  - destruct (fs tmp) eqn:Htmp.
    + repeat split; auto. intros s [].
    + pose proof (fresh_name _ _ _ Hag Htmp) as Hb.
      split; [repeat apply agrees_set_fresh; assumption|]. split.
      * intros t [= <-]. exact Hb.
      * intros s [<-|[<-|[]]]; repeat apply agrees_set_fresh; assumption.
  - destruct (fs tmp) eqn:Htmp.
    + repeat split; auto. intros s [].
    + pose proof (fresh_name _ _ _ Hag Htmp) as Hb.
      assert (Hne : file_path <> tmp) by (intros ->; contradiction).
      assert (Hcommit : committed base df file_path
                (fs_set
                   (fs_set (fs_set (fs_set fs tmp (Some Garbage)) tmp
                                   (Some (Parquet df)))
                           file_path
                           (fs_set (fs_set fs tmp (Some Garbage)) tmp
                                   (Some (Parquet df)) tmp))
                   tmp None)).
      { split.
        - rewrite fs_set_other by exact Hne.
          rewrite fs_set_same, fs_set_same. reflexivity.
        - intros q Hq Hqp.
          assert (q <> tmp) by (intros ->; contradiction).
          rewrite !fs_set_other by assumption. apply Hag. exact Hq. }
      split; [exact Hcommit|].
      intros s [<-|[<-|[<-|[]]]].
      * left. apply agrees_set_fresh; assumption.
      * left. repeat apply agrees_set_fresh; assumption.
      * right. exact Hcommit.
Qed.

(** The retry loop, from any pass on, when no pass falls back to
    copying. *)
Lemma retry_loop_spec (base : FS Frame) (df : Frame) (file_path : string)
  (max_retries : nat) (oracle : nat -> Attempt) (remaining : nat) :
  (forall k, falls_back (oracle k) = false) ->
  base file_path <> None ->
  forall (attempt : nat) (tf : PyVar) (fs : FS Frame) (seen : list (FS Frame)),
    agrees base fs -> fresh_handle base tf ->
    (forall s, In s seen -> agrees base s) ->
    let r := retry_loop df file_path max_retries oracle remaining attempt tf
               fs seen in
    (forall s, In s (observed r) ->
               agrees base s \/ committed base df file_path s) /\
    (outcome r = Returned true -> committed base df file_path (final r)) /\
    (outcome r <> Returned true ->
     agrees base (final r) /\ forall s, In s (observed r) -> agrees base s).
Proof.
  intros Hrename Htarget.
  induction remaining as [|remaining IH]; intros attempt tf fs seen Hag Hfresh Hseen;
    cbn [retry_loop].
  - cbn. repeat split; auto. discriminate.
  - pose proof (try_block_spec base fs df file_path (oracle attempt) tf
                  (Hrename attempt) Hag Hfresh Htarget) as Htry.
    destruct (try_block df file_path (oracle attempt) tf fs)
      as [[fs'|[[tf' u] fs']] states].
    + destruct Htry as [Hcommit Hstates]. cbn. split; [|split].
      * intros s Hs. apply in_app_or in Hs. destruct Hs as [Hs|Hs]; auto.
      * intros _. exact Hcommit.
      * intros H. contradiction H. reflexivity.
    + destruct Htry as (Hag' & Hfresh' & Hstates).
      destruct (cleanup tf' u fs') as [fs''|] eqn:Hclean.
      * pose proof (cleanup_agrees _ _ _ _ _ Hag' Hfresh' Hclean) as Hag''.
        assert (Hseen' : forall s, In s (seen ++ states ++ [fs'']) -> agrees base s).
        { intros s Hs. apply in_app_or in Hs. destruct Hs as [Hs|Hs]; auto.
          apply in_app_or in Hs. destruct Hs as [Hs|[<-|[]]]; auto. }
        destruct (attempt <? max_retries - 1)%nat.
        -- apply IH; assumption.
        -- cbn. split; [|split].
           ++ intros s Hs. left. apply Hseen'. exact Hs.
           ++ discriminate.
           ++ intros _. split; assumption.
      * assert (Hseen' : forall s, In s (seen ++ states) -> agrees base s).
        { intros s Hs. apply in_app_or in Hs. destruct Hs as [Hs|Hs]; auto. }
        cbn. split; [|split].
        -- intros s Hs. left. apply Hseen'. exact Hs.
        -- discriminate.
        -- intros _. split; assumption.
Qed.

Lemma agrees_refl (fs : FS Frame) : agrees fs fs.
Proof. intros q _. reflexivity. Qed.

(** [safe_write_parquet] over an existing target, when no pass falls
    back to copying. *)
Lemma safe_write_spec (df : option Frame) (file_path : string)
  (max_retries : nat) (oracle : nat -> Attempt) (fs : FS Frame) :
  (forall k, falls_back (oracle k) = false) ->
  fs file_path <> None ->
  let r := safe_write_parquet is_empty df file_path max_retries oracle fs in
  (forall s, In s (observed r) ->
             agrees fs s \/
             exists d, df = Some d /\ committed fs d file_path s) /\
  (outcome r = Returned true ->
   exists d, df = Some d /\ is_empty d = false /\
             committed fs d file_path (final r)) /\
  (outcome r <> Returned true ->
   agrees fs (final r) /\ forall s, In s (observed r) -> agrees fs s).
Proof.
  intros Hrename Htarget. unfold safe_write_parquet.
  assert (Htrivial :
            let r := {| outcome := Returned false; final := fs; observed := [fs] |} in
            (forall s, In s (observed r) ->
                       agrees fs s \/
                       exists d, df = Some d /\ committed fs d file_path s) /\
            (outcome r = Returned true ->
             exists d, df = Some d /\ is_empty d = false /\
                       committed fs d file_path (final r)) /\
            (outcome r <> Returned true ->
             agrees fs (final r) /\ forall s, In s (observed r) -> agrees fs s)).
  { cbn. split; [|split].
    - intros s [<-|[]]. left. apply agrees_refl.
    - discriminate.
    - intros _. split; [apply agrees_refl|]. intros s [<-|[]]. apply agrees_refl. }
  destruct df as [d|]; [|exact Htrivial].
  destruct (is_empty d) eqn:Hempty; [exact Htrivial|].
  clear Htrivial.
  pose proof (retry_loop_spec fs d file_path max_retries oracle max_retries
                Hrename Htarget 0 Unbound fs [fs] (agrees_refl fs)
                ltac:(intros tmp H; discriminate H)
                ltac:(intros s [<-|[]]; apply agrees_refl)) as (Hobs & Hok & Hfail).
  cbv zeta. split; [|split].
  - intros s Hs. destruct (Hobs s Hs) as [H|H]; [left; exact H|].
    right. exists d. split; [reflexivity|exact H].
  - intros H. exists d. repeat split; auto; apply (Hok H).
  - exact Hfail.
Qed.

(** How a write that meets no failure proceeds: an empty temporary file,
    the complete frame in the temporary file, and then one step that puts
    it at the target and removes the temporary name. *)
Lemma clean_write_trace (df : Frame) (file_path tmp : string)
  (retries : nat) (oracle : nat -> Attempt) (fs : FS Frame) :
  is_empty df = false -> oracle 0%nat = AllGood tmp -> fs tmp = None ->
  let r := safe_write_parquet is_empty (Some df) file_path (S retries)
             oracle fs in
  outcome r = Returned true /\
  observed r =
    [ fs;
      fs_set fs tmp (Some Garbage);
      fs_set (fs_set fs tmp (Some Garbage)) tmp (Some (Parquet df));
      fs_set (fs_set (fs_set (fs_set fs tmp (Some Garbage)) tmp
                             (Some (Parquet df)))
                     file_path (Some (Parquet df)))
             tmp None ].
Proof.
  intros Hne Hgood Hfresh. unfold safe_write_parquet. rewrite Hne.
  cbn [retry_loop]. rewrite Hgood. cbn [try_block]. rewrite Hfresh. cbn.
  rewrite fs_set_same. split; reflexivity.
Qed.

(** Writing over an existing snapshot on a system where [shutil.move]
    never falls back to copying (its [os.rename] goes through, or raises
    and so does the first step of the copy).  The target path only ever
    holds the previous snapshot or the complete new frame: whatever
    happens to the temporary file, to the rename and to the clean-up,
    every observable state has one of the two at the target.  When the
    writer does not return [True], the target is the previous snapshot,
    untouched, and [create_limit_status_parquet] raises; when it returns
    the frame, the target holds exactly that frame.  And the writer does
    write: a first pass that meets no failure returns [True]. *)
Theorem write_by_rename_is_atomic (file_path : string)
  (oracle : nat -> Attempt) (fs : FS Frame) (old : FileContent Frame) :
  (forall k, falls_back (oracle k) = false) ->
  fs file_path = Some old ->
  (forall (df : Frame) (max_retries : nat),
      let r := safe_write_parquet is_empty (Some df) file_path max_retries
                 oracle fs in
      (forall s, In s (observed r) ->
                 s file_path = Some old \/ s file_path = Some (Parquet df)) /\
      (outcome r = Returned true -> final r file_path = Some (Parquet df)) /\
      (outcome r <> Returned true ->
       final r file_path = Some old /\
       forall s, In s (observed r) -> s file_path = Some old)) /\
  (forall (df : Frame),
      let call := create_limit_status_parquet is_empty compute_limits_df
                    continuous_df indicators_df relative_df candles_df
                    init_columns_df df file_path oracle fs in
      match fst call with
      | Value status_df =>
          final (snd call) file_path = Some (Parquet status_df)
      | Exception =>
          final (snd call) file_path = Some old /\
          forall s, In s (observed (snd call)) -> s file_path = Some old
      end) /\
  (forall (df : Frame) (tmp : string) (retries : nat),
      is_empty df = false -> oracle 0%nat = AllGood tmp -> fs tmp = None ->
      outcome (safe_write_parquet is_empty (Some df) file_path (S retries)
                 oracle fs) = Returned true).
Proof.
  intros Hrename Hold.
  assert (Htarget : fs file_path <> None) by (rewrite Hold; discriminate).
  assert (Hsafe : forall (df : Frame) (max_retries : nat),
      let r := safe_write_parquet is_empty (Some df) file_path max_retries
                 oracle fs in
      (forall s, In s (observed r) ->
                 s file_path = Some old \/ s file_path = Some (Parquet df)) /\
      (outcome r = Returned true -> final r file_path = Some (Parquet df)) /\
      (outcome r <> Returned true ->
       final r file_path = Some old /\
       forall s, In s (observed r) -> s file_path = Some old)).
  { intros df max_retries.
    pose proof (safe_write_spec (Some df) file_path max_retries oracle fs
                  Hrename Htarget) as (Hobs & Hok & Hfail).
    cbv zeta. split; [|split].
    - intros s Hs. destruct (Hobs s Hs) as [Hag|(d & [= <-] & Hc & _)].
      + left. rewrite (Hag file_path Htarget). exact Hold.
      + right. exact Hc.
    - intros H. destruct (Hok H) as (d & [= <-] & _ & Hc & _). exact Hc.
    - intros H. destruct (Hfail H) as [Hag Hall]. split.
      + rewrite (Hag file_path Htarget). exact Hold.
      + intros s Hs. rewrite (Hall s Hs file_path Htarget). exact Hold. }
  split; [exact Hsafe|]. split.
  - intros df. cbv zeta. unfold create_limit_status_parquet.
    destruct (status_frame _ _ _ _ _ _ df) as [status_df|].
    + destruct (Hsafe status_df 3%nat) as (_ & Hok & Hfail).
      destruct (outcome (safe_write_parquet is_empty (Some status_df) file_path 3
                           oracle fs)) as [[|]|] eqn:Hout; cbn [fst snd].
      * apply Hok. reflexivity.
      * apply Hfail. discriminate.
      * apply Hfail. discriminate.
    + cbn. split; [exact Hold|]. intros s [<-|[]]. exact Hold.
  - intros df tmp retries Hne Hgood Hfresh.
    apply (clean_write_trace df file_path tmp retries oracle fs Hne Hgood
             Hfresh).
Qed.

End Persistence.

(** C8: what the writer does to an existing snapshot on a system where
    [os.rename] raises because the target exists (Windows), so that
    [shutil.move] copies the temporary file onto the target.  With the
    copy cut short on each of the three attempts, the writer returns
    [False] and [create_limit_status_parquet] raises, and the target
    holds neither yesterday's snapshot nor the new frame but a file that
    does not parse.  With the copy going through, the writer returns
    [True], and on the way the target was observable in that same
    state. *)
Theorem interrupted_copy_leaves_partial_snapshot :
  let target := market_states_path demo_manager in
  let r := safe_write_parquet demo_is_empty (Some [1; 2; 3]%nat) target 3
             copy_interrupted demo_disk in
  let call := create_limit_status_parquet demo_is_empty (fun d => Some d)
                (fun d => Some d) (fun d => Some d) (fun d => Some d)
                (fun d => Some d) (fun d => d) [1; 2; 3]%nat target
                copy_interrupted demo_disk in
  let r' := safe_write_parquet demo_is_empty (Some [1; 2; 3]%nat) target 3
              copy_completes demo_disk in
  demo_disk target = Some (Parquet [1; 2]%nat) /\
  (outcome r = Returned false /\ final r target = Some Garbage) /\
  (fst call = Exception /\ final (snd call) target = Some Garbage) /\
  (outcome r' = Returned true /\
   final r' target = Some (Parquet [1; 2; 3]%nat) /\
   exists s, In s (observed r') /\ s target = Some Garbage).
Proof.
  cbv zeta. split; [reflexivity|]. split; [split; reflexivity|].
  split; [split; reflexivity|]. split; [reflexivity|]. split; [reflexivity|].
  exists (nth 3
            (observed
               (safe_write_parquet demo_is_empty (Some [1; 2; 3]%nat)
                  (market_states_path demo_manager) 3 copy_completes
                  demo_disk)) demo_disk).
  split; [|reflexivity].
  cbn. right. right. right. left. reflexivity.
Qed.

(** On the demo disk with a disk that is full: three attempts fail, the
    writer returns [False], and the target still holds yesterday's
    snapshot. *)
Lemma snapshot_survives_full_disk :
  let target := market_states_path demo_manager in
  let r := safe_write_parquet demo_is_empty (Some [1; 2; 3]%nat) target 3
             disk_full demo_disk in
  outcome r = Returned false /\
  final r target = Some (Parquet [1; 2]%nat).
Proof.
  cbv zeta. split; [reflexivity|].
  pose proof (write_by_rename_is_atomic (list nat) demo_is_empty
                (fun d => Some d) (fun d => Some d) (fun d => Some d)
                (fun d => Some d) (fun d => Some d) (fun d => d)
                (market_states_path demo_manager) disk_full demo_disk
                (Parquet [1; 2]%nat) (fun k => eq_refl) eq_refl) as [H _].
  specialize (H [1; 2; 3]%nat 3%nat). cbv zeta in H.
  destruct H as (_ & _ & H).
  assert (Hfailed : outcome (safe_write_parquet demo_is_empty
                               (Some [1; 2; 3]%nat)
                               (market_states_path demo_manager) 3 disk_full
                               demo_disk) <> Returned true)
    by (intros E; vm_compute in E; discriminate E).
  exact (proj1 (H Hfailed)).
Defined.

End SnapshotFacts.

(* ===================================================================== *)
(** * Facts about the trading calendar                                   *)
(* ===================================================================== *)

Module CalendarFacts.
Import Calendar.
Local Open Scope Z_scope.

Lemma weekday_range (d : Z) : 0 <= weekday d < 7.
Proof. unfold weekday. apply Z.mod_pos_bound. lia. Qed.

Lemma weekday_pred (d : Z) :
  weekday (d - 1) = if weekday d =? 0 then 6 else weekday d - 1.
Proof.
  unfold weekday.
  pose proof (Z.mod_pos_bound (d - 1) 7 ltac:(lia)) as Hb.
  pose proof (Z.div_mod (d - 1) 7 ltac:(lia)) as Hd.
  destruct ((d - 1) mod 7 =? 0) eqn:E.
  - apply Z.eqb_eq in E. symmetry.
    apply (Z.mod_unique _ _ ((d - 1) / 7 - 1)); lia.
  - apply Z.eqb_neq in E. symmetry.
    apply (Z.mod_unique _ _ ((d - 1) / 7)); lia.
Qed.

Lemma weekend_not_trading (is_holiday : Z -> bool) (d : Z) :
  5 <= weekday d -> is_trading_day is_holiday d = false.
Proof.
  intros H. unfold is_trading_day.
  apply Z.leb_le in H. rewrite H. reflexivity.
Qed.

Lemma trading_day_inv (is_holiday : Z -> bool) (d : Z) :
  is_trading_day is_holiday d = true ->
  weekday d < 5 /\ is_holiday d = false.
Proof.
  unfold is_trading_day.
  destruct (5 <=? weekday d) eqn:Hw; [discriminate|].
  destruct (is_holiday d); [discriminate|].
  intros _. apply Z.leb_gt in Hw. split; [lia|reflexivity].
Qed.

(** The bounded search: what it returns is the first trading day met
    while stepping back from [check_date]; when it runs out, none of the
    [n] days it looked at is a trading day. *)
Lemma previous_loop_spec (is_holiday : Z -> bool) (n : nat) :
  forall check_date,
    match previous_loop is_holiday n check_date with
    | Some r =>
        check_date - Z.of_nat n < r <= check_date /\
        is_trading_day is_holiday r = true /\
        forall d, r < d <= check_date -> is_trading_day is_holiday d = false
    | None =>
        forall d, check_date - Z.of_nat n < d <= check_date ->
                  is_trading_day is_holiday d = false
    end.
Proof.
  induction n as [|k IH]; intros c.
  - cbn [previous_loop]. intros d Hd. lia.
  - cbn [previous_loop].
    destruct (is_trading_day is_holiday c) eqn:Hc.
    + split; [lia|]. split; [exact Hc|]. intros d Hd. lia.
    + specialize (IH (c - 1)).
      destruct (previous_loop is_holiday k (c - 1)) as [r|].
      * destruct IH as (Hb & Ht & Hgap). split; [lia|]. split; [exact Ht|].
        intros d Hd. destruct (Z.eq_dec d c) as [->|Hne]; [exact Hc|].
        apply Hgap. lia.
      * intros d Hd. destruct (Z.eq_dec d c) as [->|Hne]; [exact Hc|].
        apply IH. lia.
Qed.

(** [get_previous_trading_day] returns a day among the fifteen before
    [from_date], with no trading day between it and [from_date].  The day
    is a trading day, except when none of the fifteen is: then it is the
    fifteenth day back, itself not a trading day. *)
Theorem previous_trading_day_is_nearest (is_holiday : Z -> bool)
  (from_date : Z) :
  let r := get_previous_trading_day is_holiday from_date in
  from_date - 15 <= r < from_date /\
  (forall d, r < d < from_date -> is_trading_day is_holiday d = false) /\
  (is_trading_day is_holiday r = true \/
   (r = from_date - 15 /\
    forall d, from_date - 15 <= d < from_date ->
              is_trading_day is_holiday d = false)).
Proof.
  unfold get_previous_trading_day.
  pose proof (previous_loop_spec is_holiday 15 (from_date - 1)) as H.
  destruct (previous_loop is_holiday 15 (from_date - 1)) as [r|]; cbn zeta.
  - destruct H as (Hb & Ht & Hgap).
    split; [lia|]. split; [|left; exact Ht].
    intros d Hd. apply Hgap. lia.
  - split; [lia|]. split.
    + intros d Hd. apply H. lia.
    + right. split; [reflexivity|]. intros d Hd. apply H. lia.
Qed.

(** With no public holiday on the three days before [from_date], the
    previous trading day is the Friday for a Monday, the Friday for a
    Sunday, and the day before otherwise. *)
Theorem previous_trading_day_skips_weekend (is_holiday : Z -> bool)
  (from_date : Z) :
  is_holiday (from_date - 1) = false ->
  is_holiday (from_date - 2) = false ->
  is_holiday (from_date - 3) = false ->
  get_previous_trading_day is_holiday from_date =
  if weekday from_date =? 0 then from_date - 3
  else if weekday from_date =? 6 then from_date - 2
  else from_date - 1.
Proof.
  intros H1 H2 H3. unfold get_previous_trading_day.
  pose proof (weekday_range from_date) as Hr.
  pose proof (weekday_pred from_date) as P1.
  pose proof (weekday_pred (from_date - 1)) as P2.
  pose proof (weekday_pred (from_date - 1 - 1)) as P3.
  replace (from_date - 2) with (from_date - 1 - 1) in H2 by lia.
  replace (from_date - 3) with (from_date - 1 - 1 - 1) in H3 by lia.
  cbn [previous_loop]. unfold is_trading_day.
  rewrite H1, H2, H3.
  destruct (weekday from_date =? 0) eqn:E0.
  - assert (W1 : weekday (from_date - 1) = 6) by exact P1.
    assert (W2 : weekday (from_date - 1 - 1) = 5)
      by (rewrite P2, W1; reflexivity).
    assert (W3 : weekday (from_date - 1 - 1 - 1) = 4)
      by (rewrite P3, W2; reflexivity).
    rewrite W1, W2, W3. cbn. lia.
  - apply Z.eqb_neq in E0.
    destruct (weekday from_date =? 6) eqn:E6.
    + apply Z.eqb_eq in E6.
      assert (W1 : weekday (from_date - 1) = 5)
        by (rewrite P1, E6; reflexivity).
      assert (W2 : weekday (from_date - 1 - 1) = 4)
        by (rewrite P2, W1; reflexivity).
      rewrite W1, W2. cbn. lia.
    + apply Z.eqb_neq in E6. rewrite P1.
      replace (5 <=? weekday from_date - 1) with false
        by (symmetry; apply Z.leb_gt; lia).
      reflexivity.
Qed.

(** Monday 2024-01-01 (ordinal 738886) in a calendar without public
    holidays: the previous trading day is Friday 2023-12-29. *)
Lemma previous_trading_day_before_a_monday :
  get_previous_trading_day (fun _ => false) 738886 = 738883.
Proof.
  exact (previous_trading_day_skips_weekend (fun _ => false) 738886
           eq_refl eq_refl eq_refl).
Defined.

(** The previous trading day lies among the fifteen days before. *)
Lemma previous_trading_day_range (is_holiday : Z -> bool) (from_date : Z) :
  from_date - 15 <= get_previous_trading_day is_holiday from_date < from_date.
Proof.
  unfold get_previous_trading_day.
  pose proof (previous_loop_spec is_holiday 15 (from_date - 1)) as H.
  destruct (previous_loop is_holiday 15 (from_date - 1)) as [r|]; lia.
Qed.

(** The date the metadata is expected to reach is never in the future and
    never more than fifteen days back; it is today exactly when today is
    a trading day and it is 18:00 or later.  Metadata dated today or later
    therefore always counts as up to date. *)
Theorem expected_trading_date_bounds (is_holiday : Z -> bool) (now : Now)
  (latest_local_date : Z) :
  let e := get_latest_expected_trading_date is_holiday now in
  current_date now - 15 <= e <= current_date now /\
  (e = current_date now <->
   is_trading_day is_holiday (current_date now) = true /\
   update_time <= current_time now) /\
  (current_date now <= latest_local_date ->
   is_latest_trading_day is_holiday latest_local_date now = true).
Proof.
  cbn zeta.
  pose proof (previous_trading_day_range is_holiday (current_date now))
    as Hp.
  assert (Hb : current_date now - 15 <=
               get_latest_expected_trading_date is_holiday now <=
               current_date now).
  { unfold get_latest_expected_trading_date.
    destruct (is_trading_day is_holiday (current_date now));
      [destruct (update_time <=? current_time now)|]; lia. }
  split; [exact Hb|]. split.
  - unfold get_latest_expected_trading_date.
    destruct (is_trading_day is_holiday (current_date now)).
    + destruct (update_time <=? current_time now) eqn:Ht.
      * apply Z.leb_le in Ht. split; [intros _; split; [reflexivity|exact Ht]|reflexivity].
      * apply Z.leb_gt in Ht. split; [lia|]. intros [_ H]. lia.
    + split; [lia|]. intros [H _]. discriminate H.
  - intros Hl. unfold is_latest_trading_day. apply Z.leb_le. lia.
Qed.

(** ** The loop of [is_latest_daily_trading_day] *)

Lemma back_to_weekday_unfold (check_date : Z) :
  back_to_weekday check_date =
  if keeps_looking check_date then back_to_weekday (check_date - 1)
  else check_date.
Proof.
  funelim (back_to_weekday check_date).
  - rewrite Hloop. reflexivity.
  - match goal with E : keeps_looking _ = false |- _ => rewrite E end.
    reflexivity.
Qed.

Lemma keeps_looking_weekend (d : Z) :
  keeps_looking d = (5 <=? weekday d).
Proof. unfold keeps_looking, _holidays. cbn [existsb]. apply orb_false_r. Qed.

(** From any day, the loop stops at the nearest weekday at or before it,
    at most two days back. *)
Lemma back_to_weekday_spec (d : Z) :
  d - 2 <= back_to_weekday d <= d /\
  weekday (back_to_weekday d) < 5 /\
  forall k, back_to_weekday d < k <= d -> 5 <= weekday k.
Proof.
  pose proof (weekday_range d) as Hr.
  pose proof (weekday_pred d) as P1.
  pose proof (weekday_pred (d - 1)) as P2.
  rewrite back_to_weekday_unfold, keeps_looking_weekend.
  destruct (5 <=? weekday d) eqn:E.
  - apply Z.leb_le in E.
    rewrite back_to_weekday_unfold, keeps_looking_weekend.
    replace (weekday d =? 0) with false in P1
      by (symmetry; apply Z.eqb_neq; lia).
    destruct (5 <=? weekday (d - 1)) eqn:E1.
    + apply Z.leb_le in E1.
      replace (weekday (d - 1) =? 0) with false in P2
        by (symmetry; apply Z.eqb_neq; lia).
      rewrite back_to_weekday_unfold, keeps_looking_weekend.
      replace (5 <=? weekday (d - 1 - 1)) with false
        by (symmetry; apply Z.leb_gt; lia).
      split; [lia|]. split; [lia|].
      intros k Hk.
      assert (Hc : k = d \/ k = d - 1) by lia.
      destruct Hc as [->| ->]; assumption.
    + apply Z.leb_gt in E1. split; [lia|]. split; [lia|].
      intros k Hk. assert (k = d) as -> by lia. exact E.
  - apply Z.leb_gt in E. split; [lia|]. split; [lia|].
    intros k Hk. lia.
Qed.

(** On a day that is not a trading day, [is_latest_daily_trading_day]
    compares the latest date of the snapshot with the nearest weekday
    before today, at most three days back; whether that weekday is a
    public holiday plays no part. *)
Theorem daily_check_uses_last_weekday (latest_date today : Z)
  (today_is_holiday : bool) :
  (5 <=? weekday today) || today_is_holiday = true ->
  exists check_date,
    is_latest_daily_trading_day latest_date today today_is_holiday =
      (check_date <=? latest_date) /\
    today - 3 <= check_date < today /\
    weekday check_date < 5 /\
    forall k, check_date < k < today -> 5 <= weekday k.
Proof.
  intros H. unfold is_latest_daily_trading_day. rewrite H. cbn [negb].
  exists (back_to_weekday (today - 1)).
  destruct (back_to_weekday_spec (today - 1)) as (Hb & Hw & Hgap).
  split; [reflexivity|]. split; [lia|]. split; [exact Hw|].
  intros k Hk. apply Hgap. lia.
Qed.

(** Saturday 2024-01-06 (ordinal 738891): the reference day is one of
    the three days before it. *)
Lemma daily_check_on_a_saturday :
  exists check_date,
    is_latest_daily_trading_day 738890 738891 false =
      (check_date <=? 738890) /\
    738891 - 3 <= check_date < 738891 /\
    weekday check_date < 5 /\
    forall k, check_date < k < 738891 -> 5 <= weekday k.
Proof.
  exact (daily_check_uses_last_weekday 738890 738891 false eq_refl).
Defined.

End CalendarFacts.

(* ===================================================================== *)
(** * Facts about [round(2)]                                             *)
(* ===================================================================== *)

Module RoundingFacts.
Import Limits.

Lemma round_half_away_error (q : Q) :
  (inject_Z (round_half_away q) - (1 # 2) <= q /\
   q <= inject_Z (round_half_away q) + (1 # 2))%Q.
Proof.
  destruct q as [n d]. unfold round_half_away. cbn [Qnum Qden].
  set (k := ((2 * Z.abs n + Z.pos d) / (2 * Z.pos d))%Z).
  assert (Hk : (2 * Z.pos d * k <= 2 * Z.abs n + Z.pos d
                < 2 * Z.pos d * k + 2 * Z.pos d)%Z).
  { subst k.
    pose proof (Z.mul_div_le (2 * Z.abs n + Z.pos d) (2 * Z.pos d)
                  ltac:(lia)).
    pose proof (Z.mul_succ_div_gt (2 * Z.abs n + Z.pos d) (2 * Z.pos d)
                  ltac:(lia)).
    lia. }
  clearbody k.
  unfold Qle, Qminus, Qplus, Qopp, inject_Z. cbn [Qnum Qden].
  destruct (Z.sgn_spec n) as [[Hn ->]|[[Hn ->]|[Hn ->]]]; split; nia.
Qed.

(** Rounding to the hundredth moves a price by half a cent at most. *)
Lemma round2_error (q : Q) :
  (q - (1 # 200) <= round2 q /\ round2 q <= q + (1 # 200))%Q.
Proof.
  unfold round2.
  pose proof (round_half_away_error (q * 100)) as [H1 H2].
  assert (E : (round_half_away (q * 100) # 100 ==
               inject_Z (round_half_away (q * 100)) * (1 # 100))%Q).
  { unfold Qeq, Qmult, inject_Z. cbn [Qnum Qden]. lia. }
  set (r := (round_half_away (q * 100) # 100)%Q) in *.
  set (z := inject_Z (round_half_away (q * 100))) in *.
  clearbody r z. split; lra.
Qed.

(** A price that is a whole number of cents rounds to itself. *)
Lemma round_half_away_hundredths (q : Q) (z : Z) :
  (q == z # 100)%Q -> round_half_away (q * 100) = z.
Proof.
  destruct q as [n d]. unfold Qeq, round_half_away, Qmult. cbn [Qnum Qden].
  intros H.
  assert (E : (n * 100 = z * Z.pos d)%Z) by lia.
  rewrite E. rewrite Pos.mul_1_r.
  rewrite Z.abs_mul, Z.sgn_mul. cbn [Z.abs Z.sgn].
  replace (2 * (Z.abs z * Z.pos d) + Z.pos d)%Z
    with ((2 * Z.abs z + 1) * Z.pos d)%Z by lia.
  rewrite Z.div_mul_cancel_r by lia.
  replace ((2 * Z.abs z + 1) / 2)%Z with (Z.abs z).
  2:{ apply (Z.div_unique _ _ _ 1); lia. }
  lia.
Qed.

Lemma Qle_bool_false (x y : Q) : Qle_bool x y = false -> (y < x)%Q.
Proof.
  intros H. apply Qnot_le_lt. intros Hle.
  apply Qle_bool_iff in Hle. congruence.
Qed.

End RoundingFacts.

(* ===================================================================== *)
(** * Facts about the moving averages and their arrangement              *)
(* ===================================================================== *)

Module AverageFacts.
Import Polars Averages ColumnFacts StreakFacts RoundingFacts.
Local Open Scope list_scope.

Section Arithmetic.
Variable ops : Indicators.Float64Ops Q.
Variable fmean : list Q -> Q.

Lemma rolling_mean_length (w mp : nat) (c : col Q) :
  List.length (rolling_mean fmean w mp c) = List.length c.
Proof. unfold rolling_mean. rewrite length_map, length_seq. reflexivity. Qed.

Lemma moving_average_length (w : nat) (c : col Q) :
  List.length (moving_average ops fmean w c) = List.length c.
Proof. unfold moving_average. rewrite length_map. apply rolling_mean_length. Qed.

Lemma nth_moving_average (w : nat) (c : col Q) (i : nat) :
  (i < List.length c)%nat ->
  nth i (moving_average ops fmean w c) None =
  option_map (Indicators.fround ops 2) (rolling_mean_at fmean w 1 c i).
Proof.
  intros H. unfold moving_average.
  change None with (option_map (Indicators.fround ops 2) None) at 1.
  rewrite map_nth. unfold rolling_mean.
  rewrite nth_map_seq by exact H. reflexivity.
Qed.

Lemma nth_zip4 (c a b d : col Q) (i : nat) (dflt : AveragedRow) :
  List.length a = List.length c -> List.length b = List.length c ->
  List.length d = List.length c -> (i < List.length c)%nat ->
  nth i (zip4 c a b d) dflt =
  {| close := nth i c None; MA5 := nth i a None; MA10 := nth i b None;
     MA20 := nth i d None |}.
Proof.
  revert a b d i.
  induction c as [|x c IH]; intros a b d i Ha Hb Hd Hi; [simpl in Hi; lia|].
  destruct a as [|y a]; [discriminate|].
  destruct b as [|z b]; [discriminate|].
  destruct d as [|t d]; [discriminate|].
  destruct i as [|i]; [reflexivity|].
  cbn [zip4 nth]. apply IH; simpl in *; lia.
Qed.

Lemma nth_calculate_stock_indicators (c : col Q) (i : nat)
  (dflt : AveragedRow) :
  (i < List.length c)%nat ->
  nth i (calculate_stock_indicators ops fmean c) dflt =
  {| close := nth i c None;
     MA5 := option_map (Indicators.fround ops 2) (rolling_mean_at fmean 5 1 c i);
     MA10 := option_map (Indicators.fround ops 2) (rolling_mean_at fmean 10 1 c i);
     MA20 := option_map (Indicators.fround ops 2) (rolling_mean_at fmean 20 1 c i) |}.
Proof.
  intros H. unfold calculate_stock_indicators.
  rewrite nth_zip4 by (try apply moving_average_length; exact H).
  rewrite !nth_moving_average by exact H. reflexivity.
Qed.

Lemma calculate_stock_indicators_length (c : col Q) :
  List.length (calculate_stock_indicators ops fmean c) = List.length c.
Proof.
  unfold calculate_stock_indicators.
  pose proof (moving_average_length 5 c) as H5.
  pose proof (moving_average_length 10 c) as H10.
  pose proof (moving_average_length 20 c) as H20.
  revert H5 H10 H20.
  generalize (moving_average ops fmean 5 c) (moving_average ops fmean 10 c)
             (moving_average ops fmean 20 c).
  induction c as [|x c IH]; intros a b d Ha Hb Hd; [reflexivity|].
  destruct a as [|y a]; [discriminate|].
  destruct b as [|z b]; [discriminate|].
  destruct d as [|t d]; [discriminate|].
  cbn [zip4 List.length]. f_equal. apply IH; simpl in *; lia.
Qed.

(** During the first [w] rows of a history the window of width [w] is the
    whole history so far, whatever larger width is asked for. *)
Lemma window_short_history {A} (w w' i : nat) (c : list A) :
  (i < w)%nat -> (i < w')%nat -> window w i c = window w' i c.
Proof.
  intros H H'. unfold window.
  replace (S i - w)%nat with 0%nat by lia.
  replace (S i - w')%nat with 0%nat by lia. reflexivity.
Qed.

Lemma arrangement_of_equal (m : option Q) :
  arrangement m m m = "均线混乱".
Proof.
  destruct m as [q|]; [|reflexivity].
  unfold arrangement, Candles.gt, Candles.lt, lift2.
  assert (E : Qle_bool q q = true) by (apply Qle_bool_iff; apply Qle_refl).
  rewrite E. reflexivity.
Qed.

(** The first five rows of every symbol: the three averages are taken
    over the same closes, so MA5 = MA10 = MA20, the three relative
    columns coincide, and 均线排列 is "均线混乱" whatever the prices did and
    however the arithmetic rounds. *)
Theorem short_history_has_no_trend (close : col Q) (i : nat) :
  (i < 5)%nat -> (i < List.length close)%nat ->
  let r := nth i (add_price_relative_indicators ops
                    (calculate_stock_indicators ops fmean close)) no_row in
  MA5 (averaged r) = MA10 (averaged r) /\
  MA10 (averaged r) = MA20 (averaged r) /\
  rel_MA5 r = rel_MA10 r /\ rel_MA10 r = rel_MA20 r /\
  ma_arrangement r = "均线混乱".
Proof.
  intros H5 Hi. cbn zeta. unfold add_price_relative_indicators.
  set (f := fun r : AveragedRow => _).
  rewrite (nth_indep _ no_row
             (f {| close := None; MA5 := None; MA10 := None; MA20 := None |}))
    by (rewrite length_map, calculate_stock_indicators_length; exact Hi).
  rewrite map_nth. rewrite nth_calculate_stock_indicators by exact Hi.
  subst f. cbn [averaged rel_MA5 rel_MA10 rel_MA20 ma_arrangement
                  Averages.close MA5 MA10 MA20].
  unfold rolling_mean_at.
  rewrite (window_short_history 10 5 i close) by lia.
  rewrite (window_short_history 20 5 i close) by lia.
  repeat split; try reflexivity. apply arrangement_of_equal.
Qed.

(** ** Which rows have an average *)

Lemma non_null_nil_iff {A} (c : col A) :
  non_null c = [] <-> forall x, In x c -> x = None.
Proof.
  induction c as [|[v|] c IH]; simpl.
  - split; [intros _ x []|reflexivity].
  - split; [discriminate|]. intros H.
    specialize (H (Some v) (or_introl eq_refl)). discriminate.
  - rewrite IH. split.
    + intros H x [<-|Hx]; [reflexivity|apply H; exact Hx].
    + intros H x Hx. apply H. right. exact Hx.
Qed.

Lemma rolling_mean_at_none (w : nat) (c : col Q) (i : nat) :
  rolling_mean_at fmean w 1 c i = None <-> non_null (window w i c) = [].
Proof.
  unfold rolling_mean_at.
  destruct (non_null (window w i c)) as [|x l]; cbn [List.length Nat.ltb Nat.leb].
  - split; reflexivity.
  - split; discriminate.
Qed.

(** With [min_periods=1] an average is null only where its whole window
    holds no close: every row that has a close has its three averages. *)
Theorem moving_average_null_iff_no_close (w : nat) (close : col Q) (i : nat) :
  (0 < w)%nat -> (i < List.length close)%nat ->
  (nth i (moving_average ops fmean w close) None = None <->
   forall x, In x (window w i close) -> x = None) /\
  (nth i close None <> None ->
   nth i (moving_average ops fmean w close) None <> None).
Proof.
  intros Hw Hi. rewrite nth_moving_average by exact Hi.
  assert (E : option_map (Indicators.fround ops 2)
                (rolling_mean_at fmean w 1 close i) = None <->
              forall x, In x (window w i close) -> x = None).
  { rewrite <- non_null_nil_iff, <- rolling_mean_at_none.
    destruct (rolling_mean_at fmean w 1 close i); split; intros H;
      try discriminate; reflexivity. }
  split; [exact E|].
  intros Hc Hnone. apply Hc. apply (proj1 E Hnone).
  apply window_last; assumption.
Qed.

End Arithmetic.

(** ** The arrangement label *)

(** 均线排列 is "多头排列" exactly when the three averages are present and
    strictly descending from MA5 to MA20, "空头排列" exactly when they are
    present and strictly ascending, and "均线混乱" in every other case: a
    missing average or two equal ones never count as a trend. *)
Theorem arrangement_reads_strict_order (ma5 ma10 ma20 : option Q) :
  (arrangement ma5 ma10 ma20 = "多头排列" <->
   exists a b c, ma5 = Some a /\ ma10 = Some b /\ ma20 = Some c /\
                 (b < a)%Q /\ (c < b)%Q) /\
  (arrangement ma5 ma10 ma20 = "空头排列" <->
   exists a b c, ma5 = Some a /\ ma10 = Some b /\ ma20 = Some c /\
                 (a < b)%Q /\ (b < c)%Q) /\
  (arrangement ma5 ma10 ma20 <> "多头排列" ->
   arrangement ma5 ma10 ma20 <> "空头排列" ->
   arrangement ma5 ma10 ma20 = "均线混乱").
Proof.
  destruct ma5 as [a|], ma10 as [b|], ma20 as [c|];
    unfold arrangement, Candles.gt, Candles.lt, lift2.
  all: repeat match goal with
              | |- context [Qle_bool ?x ?y] => destruct (Qle_bool x y) eqn:?
              end.
  all: cbn [negb kleene_and when_then_otherwise].
  all: repeat match goal with
              | H : Qle_bool _ _ = true |- _ => apply Qle_bool_iff in H
              | H : Qle_bool _ _ = false |- _ => apply Qle_bool_false in H
              end.
  all: split; [|split].
  all: try (intros H1 H2; try reflexivity; exfalso;
            ((apply H1; reflexivity) || (apply H2; reflexivity))).
  all: split;
    [ intros H; try discriminate H;
      match goal with
      | |- exists _ _ _, Some ?x = _ /\ Some ?y = _ /\ Some ?z = _ /\ _ =>
          exists x, y, z; repeat split; try reflexivity; lra
      end
    | intros (x & y & z & E1 & E2 & E3 & H1 & H2);
      try discriminate E1; try discriminate E2; try discriminate E3;
      injection E1 as <-; injection E2 as <-; injection E3 as <-;
      try reflexivity; exfalso; lra ].
Qed.

(** Three rows of a rising share, in exact arithmetic: still "均线混乱"
    on the third. *)
Lemma short_history_three_rising_closes :
  let r := nth 2 (add_price_relative_indicators Indicators.exact_ops
                    (calculate_stock_indicators Indicators.exact_ops
                       exact_mean [Some 10%Q; Some 11%Q; Some 12.1%Q]))
             no_row in
  MA5 (averaged r) = MA10 (averaged r) /\
  MA10 (averaged r) = MA20 (averaged r) /\
  rel_MA5 r = rel_MA10 r /\ rel_MA10 r = rel_MA20 r /\
  ma_arrangement r = "均线混乱".
Proof.
  apply (short_history_has_no_trend Indicators.exact_ops exact_mean
           [Some 10%Q; Some 11%Q; Some 12.1%Q] 2); simpl; lia.
Defined.

(** A history whose second close is missing: MA5 on the third row is
    null only if rows 0..2 hold no close. *)
Lemma moving_average_with_a_missing_close :
  (nth 2 (moving_average Indicators.exact_ops exact_mean 5
            [Some 10%Q; None; Some 12%Q]) None = None <->
   forall x, In x (window 5 2 [Some 10%Q; None; Some 12%Q]) -> x = None) /\
  (nth 2 [Some 10%Q; None; Some 12%Q] None <> None ->
   nth 2 (moving_average Indicators.exact_ops exact_mean 5
            [Some 10%Q; None; Some 12%Q]) None <> None).
Proof.
  apply (moving_average_null_iff_no_close Indicators.exact_ops exact_mean 5
           [Some 10%Q; None; Some 12%Q] 2);
    simpl; lia.
Defined.

End AverageFacts.

(* ===================================================================== *)
(** * Further facts about the limit prices and the state flags           *)
(* ===================================================================== *)

Module LimitPriceFacts.
Import Polars Limits ColumnFacts LimitFacts RoundingFacts.
Local Open Scope list_scope.

Lemma kleene_and_true (x y : option bool) :
  kleene_and x y = Some true -> x = Some true /\ y = Some true.
Proof. destruct x as [[|]|], y as [[|]|]; simpl; auto; discriminate. Qed.

(** Above ten cents the rounded limit prices lie strictly on either side
    of the previous close, for each of the four limit percentages: the
    smallest band, 5% of the previous close, is then wider than the half
    cent that rounding can take away. *)
Theorem limit_prices_bracket_prev_close (supplied : option (col Q))
  (bars : list Bar) (r : LimitRow) (p : Q) :
  In r (compute_limits supplied bars) ->
  prev_close r = Some p -> (1 # 10 < p)%Q ->
  brackets_prev_close r.
Proof.
  intros Hin Hp Hbig. apply in_compute_limits in Hin.
  destruct Hin as (b & prev & ->).
  cbn [prev_close classify] in Hp. subst prev.
  intros p' u d Hp' Hu Hd.
  cbn [prev_close limit_up_price limit_down_price classify option_map]
    in Hp', Hu, Hd.
  injection Hp' as <-. injection Hu as <-. injection Hd as <-.
  pose proof (limit_pct_values (code b) (name b)) as Hv.
  set (L := get_limit_pct_expr (code b) (name b)) in *.
  destruct (round2_error (p * (1 + L))) as [U1 U2].
  destruct (round2_error (p * (1 - L))) as [D1 D2].
  set (u := round2 (p * (1 + L))) in *.
  set (d := round2 (p * (1 - L))) in *.
  clearbody u d. simpl in Hv.
  destruct Hv as [E|[E|[E|[E|[]]]]]; rewrite <- E in *; split; lra.
Qed.

(** Scenario C: a previous close of 10.00 on a main-board code. *)
Lemma limit_prices_bracket_scenario_c :
  brackets_prev_close
    (nth 1 (compute_limits None scenario_c_bars)
       (classify (mkBar "" "" None None None None None) None)).
Proof.
  apply (limit_prices_bracket_prev_close None scenario_c_bars _ 10%Q).
  - right. left. reflexivity.
  - reflexivity.
  - reflexivity.
Defined.

(** A row flagged 炸板 has a close that is not the limit-up price.  If it
    is flagged 涨停 as well, the flag comes from the supplied 涨跌幅 alone:
    the price test [涨停价 == 收盘] is false on it. *)
Theorem broken_board_closes_below_limit (supplied : option (col Q))
  (bars : list Bar) (r : LimitRow) :
  In r (compute_limits supplied bars) ->
  is_break r = Some true ->
  eq (limit_up_price r) (close (bar r)) = Some false /\
  (is_limit_up r = Some true ->
   exists x, pct_chg (bar r) = Some x /\ (limit_pct r <= x * 0.01)%Q).
Proof.
  intros Hin Hbreak. apply in_compute_limits in Hin.
  destruct Hin as (b & prev & ->).
  cbn [is_break is_limit_up limit_up_price limit_pct bar classify] in *.
  apply kleene_and_true in Hbreak. destruct Hbreak as [_ Hlt].
  set (L := get_limit_pct_expr (code b) (name b)) in *.
  destruct prev as [p|]; [|destruct (close b); discriminate Hlt].
  destruct (close b) as [c|] eqn:Hc; [|discriminate Hlt].
  cbn [option_map lt lift2] in Hlt. injection Hlt as Hlt.
  apply negb_true_iff in Hlt. apply Qle_bool_false in Hlt.
  assert (Hne : Qeq_bool (round2 (p * (1 + L))) c = false).
  { destruct (Qeq_bool (round2 (p * (1 + L))) c) eqn:E; [|reflexivity].
    exfalso. apply Qeq_bool_iff in E. unfold round2 at 1 in E.
    symmetry in E. apply round_half_away_hundredths in E.
    unfold round2 in Hlt. rewrite E in Hlt.
    exact (Qlt_irrefl _ Hlt). }
  cbn [option_map eq lift2]. rewrite Hne. split; [reflexivity|].
  intros Hup. apply kleene_or_true in Hup.
  destruct Hup as [Hup|Hup]; [|discriminate Hup].
  destruct (pct_chg b) as [x|]; [|discriminate Hup].
  cbn [option_map ge lift2] in Hup. injection Hup as Hup.
  exists x. split; [reflexivity|]. apply Qle_bool_iff. exact Hup.
Qed.

(** A main-board share that touches 11.00 after a close of 10.00 and
    falls back to 10.50. *)
Lemma broken_board_after_touching_limit :
  let r := nth 1 (compute_limits None
                    [ mkBar "600000" "Y" (Some 10%Q) (Some 10%Q) (Some 10%Q)
                        (Some 10%Q) (Some 0%Q);
                      mkBar "600000" "Y" (Some 10%Q) (Some 11%Q) (Some 10%Q)
                        (Some 10.5%Q) (Some 5%Q) ])
             (classify (mkBar "" "" None None None None None) None) in
  eq (limit_up_price r) (close (bar r)) = Some false /\
  (is_limit_up r = Some true ->
   exists x, pct_chg (bar r) = Some x /\ (limit_pct r <= x * 0.01)%Q).
Proof.
  apply (broken_board_closes_below_limit None
           [ mkBar "600000" "Y" (Some 10%Q) (Some 10%Q) (Some 10%Q)
               (Some 10%Q) (Some 0%Q);
             mkBar "600000" "Y" (Some 10%Q) (Some 11%Q) (Some 10%Q)
               (Some 10.5%Q) (Some 5%Q) ]).
  - right. left. reflexivity.
  - reflexivity.
Defined.

End LimitPriceFacts.

(* ===================================================================== *)
(** * The candle counters as run lengths                                 *)
(* ===================================================================== *)

Module CandleRunFacts.
Import Polars Candles CandleRuns CandleFacts.
Local Open Scope list_scope.
Local Open Scope Z_scope.

(** The recurrence [run_lengths] obeys, read by row index. *)
Lemma nth_run_lengths (fl : list bool) :
  forall (p : Z) (k : nat),
    (k < List.length fl)%nat ->
    nth k (Streak.run_lengths p fl) 0 =
    if nth k fl false
    then (if (0 <? k)%nat then nth (k - 1) (Streak.run_lengths p fl) 0 else p) + 1
    else 0.
Proof.
  induction fl as [|b t IH]; intros p k Hk; [simpl in Hk; lia|].
  destruct k as [|k]; [reflexivity|].
  cbn [Streak.run_lengths nth]. rewrite IH by (simpl in Hk; lia).
  replace (S k - 1)%nat with k by lia.
  destruct (nth k t false); [|reflexivity].
  destruct k as [|k]; [reflexivity|].
  cbn [Nat.ltb Nat.leb nth]. replace (S k - 1)%nat with k by lia.
  reflexivity.
Qed.

Lemma run_lengths_length (fl : list bool) :
  forall p, List.length (Streak.run_lengths p fl) = List.length fl.
Proof. induction fl as [|b t IH]; intros p; simpl; auto. Qed.

(** One pass of the loop body writes cell [i] of a counter list and
    nothing else. *)
Lemma nth_counter_update (flags : col bool) (arr : list Z) (i j : nat) :
  (i < List.length arr)%nat ->
  nth j (if truthy (nth i flags None)
         then set_nth i (if (0 <? i)%nat then nth (i - 1) arr 0 + 1 else 1) arr
         else set_nth i 0 arr) 0 =
  if (j =? i)%nat
  then (if truthy (nth i flags None)
        then (if (0 <? i)%nat then nth (i - 1) arr 0 else 0) + 1
        else 0)
  else nth j arr 0.
Proof.
  intros Hi. apply Nat.ltb_lt in Hi.
  destruct (truthy (nth i flags None)); rewrite nth_set_nth, Hi;
    destruct (j =? i)%nat; try reflexivity.
  destruct (0 <? i)%nat; reflexivity.
Qed.

Lemma counter_update_length (flags : col bool) (arr : list Z) (i : nat) :
  List.length
    (if truthy (nth i flags None)
     then set_nth i (if (0 <? i)%nat then nth (i - 1) arr 0 + 1 else 1) arr
     else set_nth i 0 arr) = List.length arr.
Proof. destruct (truthy (nth i flags None)); apply set_nth_length. Qed.

Lemma filled_to_step (flags : col bool) (n k : nat) (arr : list Z) :
  List.length flags = n -> (k < n)%nat ->
  filled_to flags n k arr ->
  filled_to flags n (S k)
    (if truthy (nth k flags None)
     then set_nth k (if (0 <? k)%nat then nth (k - 1) arr 0 + 1 else 1) arr
     else set_nth k 0 arr).
Proof.
  intros Hfl Hk [Hlen Hpre]. split.
  - rewrite counter_update_length. exact Hlen.
  - intros j Hj. rewrite nth_counter_update by lia.
    destruct (j =? k)%nat eqn:E.
    + apply Nat.eqb_eq in E. subst j.
      rewrite nth_run_lengths by (rewrite length_map; lia).
      change false with (truthy None). rewrite map_nth.
      destruct (truthy (nth k flags None)); [|reflexivity].
      destruct (0 <? k)%nat eqn:E0; [|reflexivity].
      apply Nat.ltb_lt in E0. rewrite Hpre by lia. reflexivity.
    + apply Nat.eqb_neq in E. apply Hpre. lia.
Qed.

Lemma calc_streaks_prefix (pos neg : col bool) (k : nat) :
  List.length neg = List.length pos -> (k <= List.length pos)%nat ->
  let n := List.length pos in
  let st := fold_left (streak_step pos neg) (seq 0 k)
              (repeat 0 n, repeat 0 n) in
  filled_to pos n k (fst st) /\ filled_to neg n k (snd st).
Proof.
  intros Hlen. cbn zeta. induction k as [|k IH]; intros Hk.
  - cbn [seq fold_left fst snd].
    split; (split; [apply repeat_length|intros j Hj; lia]).
  - rewrite seq_S, fold_left_app. cbn [fold_left Nat.add].
    destruct IH as [Hu Hd]; [lia|].
    destruct (fold_left (streak_step pos neg) (seq 0 k) _) as [up down].
    cbn [fst snd] in *. unfold streak_step. cbn [fst snd].
    split; apply filled_to_step; (assumption || lia).
Qed.

Lemma calc_streaks_run_lengths (pos neg : col bool) :
  List.length neg = List.length pos ->
  _calc_streaks pos neg =
  (Streak.run_lengths 0 (map truthy pos), Streak.run_lengths 0 (map truthy neg)).
Proof.
  intros Hlen. unfold _calc_streaks.
  destruct (calc_streaks_prefix pos neg (List.length pos) Hlen (le_n _))
    as [[Hlu Hu] [Hld Hd]].
  destruct (fold_left _ _ _) as [up down]. cbn [fst snd] in *.
  f_equal.
  - apply (nth_ext _ _ 0 0).
    + rewrite run_lengths_length, length_map. exact Hlu.
    + intros j Hj. apply Hu. lia.
  - apply (nth_ext _ _ 0 0).
    + rewrite run_lengths_length, length_map. lia.
    + intros j Hj. apply Hd. lia.
Qed.

Lemma zip_rows_counters (oc : list (option Q * option Q)) (pos neg : col bool)
  (up down : list Z) :
  List.length pos = List.length oc -> List.length neg = List.length oc ->
  List.length up = List.length oc -> List.length down = List.length oc ->
  map up_streak_days (zip_rows oc pos neg up down) = up /\
  map down_streak_days (zip_rows oc pos neg up down) = down.
Proof.
  revert pos neg up down.
  induction oc as [|[o c] oc IH]; intros [|p pos] [|n neg] [|u up] [|d down];
    simpl; intros H1 H2 H3 H4; try lia; try (split; reflexivity).
  destruct (IH pos neg up down) as [E1 E2]; try lia.
  rewrite E1, E2. split; reflexivity.
Qed.

(** 连阳天数 is the number of consecutive rows, ending at the current one,
    on which the close is above the open, and 连阴天数 the same for closes
    below the open: a row whose close equals its open, or that lacks a
    price, restarts both counts at 0. *)
Theorem candle_streaks_are_run_lengths (oc : list (option Q * option Q)) :
  map up_streak_days (add_candlestick_trend_streaks oc) =
    Streak.run_lengths 0 (map (fun r => truthy (gt (snd r) (fst r))) oc) /\
  map down_streak_days (add_candlestick_trend_streaks oc) =
    Streak.run_lengths 0 (map (fun r => truthy (lt (snd r) (fst r))) oc).
Proof.
  unfold add_candlestick_trend_streaks.
  rewrite calc_streaks_run_lengths by (rewrite !length_map; reflexivity).
  rewrite !map_map.
  apply zip_rows_counters;
    rewrite ?run_lengths_length, ?length_map; reflexivity.
Qed.

End CandleRunFacts.

(* ===================================================================== *)
(** * What the board label counts                                        *)
(* ===================================================================== *)

Module ChainFacts.
Import Polars Streak Chains ColumnFacts StreakFacts.
Local Open Scope list_scope.
Local Open Scope Z_scope.

Lemma range_down_app (start : Z) (a b : nat) :
  range_down start (a + b) =
  range_down start a ++ range_down (start - Z.of_nat a) b.
Proof.
  revert start. induction a as [|a IH]; intros start.
  - cbn [Nat.add range_down app Z.of_nat]. f_equal. lia.
  - cbn [Nat.add range_down app]. f_equal. rewrite IH. f_equal. f_equal. lia.
Qed.

Lemma limit_ups_between_split (limit_up : col Z) (lo m hi : Z) :
  lo <= m -> m <= hi + 1 ->
  limit_ups_between limit_up lo hi =
  limit_ups_between limit_up m hi + limit_ups_between limit_up lo (m - 1).
Proof.
  intros H1 H2. unfold limit_ups_between, py_range_desc.
  replace (Z.to_nat (hi - (lo - 1)))
    with (Z.to_nat (hi - (m - 1)) + Z.to_nat (m - 1 - (lo - 1)))%nat by lia.
  rewrite range_down_app, filter_app, length_app, Nat2Z.inj_add.
  replace (hi - Z.of_nat (Z.to_nat (hi - (m - 1)))) with (m - 1) by lia.
  reflexivity.
Qed.

Lemma filter_all_false {A} (f : A -> bool) (l : list A) :
  (forall x, In x l -> f x = false) -> filter f l = [].
Proof.
  induction l as [|x l IH]; intros H; [reflexivity|].
  cbn [filter]. rewrite (H x (or_introl eq_refl)).
  apply IH. intros y Hy. apply H. right. exact Hy.
Qed.

Lemma limit_ups_between_none (limit_up : col Z) (lo hi : Z) :
  (forall k, lo <= k <= hi -> is_one (cell limit_up k) = false) ->
  limit_ups_between limit_up lo hi = 0.
Proof.
  intros H. unfold limit_ups_between, py_range_desc.
  rewrite filter_all_false; [reflexivity|].
  intros j Hj. apply range_down_bounds in Hj. apply H. lia.
Qed.

Lemma limit_ups_between_one (limit_up : col Z) (j : Z) :
  is_one (cell limit_up j) = true -> limit_ups_between limit_up j j = 1.
Proof.
  intros H. unfold limit_ups_between, py_range_desc.
  replace (Z.to_nat (j - (j - 1))) with 1%nat by lia.
  cbn [range_down filter]. rewrite H. reflexivity.
Qed.

Lemma limit_ups_between_le (limit_up : col Z) (lo hi : Z) :
  lo <= hi + 1 -> 0 <= limit_ups_between limit_up lo hi <= hi - lo + 1.
Proof.
  intros H. unfold limit_ups_between, py_range_desc.
  pose proof (filter_length_le (fun j => is_one (cell limit_up j))
                (range_down hi (Z.to_nat (hi - (lo - 1))))) as Hle.
  assert (Hlen : forall s n, List.length (range_down s n) = n).
  { intros s n. revert s. induction n as [|n IH]; intros s; simpl; auto. }
  rewrite Hlen in Hle. lia.
Qed.

(** The walk, from any state in which the search pointer is the row
    before the earliest row of the chain: the chain it ends with starts
    on a limit-up row if it started on one, and the count has grown by
    the number of limit-up rows the chain has taken in. *)
Lemma walk_counts (limit_up : col Z) (st : WalkState) :
  start_pos st = current_pos st + 1 ->
  snd (walk limit_up st) <= start_pos st /\
  (0 <= start_pos st -> 0 <= snd (walk limit_up st)) /\
  (is_one (cell limit_up (start_pos st)) = true ->
   is_one (cell limit_up (snd (walk limit_up st))) = true) /\
  fst (walk limit_up st) =
  consecutive_count st +
  limit_ups_between limit_up (snd (walk limit_up st)) (current_pos st).
Proof.
  induction st as [st IH] using (walk_iter_ind limit_up).
  intros Hinv. rewrite walk_unfold.
  destruct (walk_iter limit_up st) as [st'|] eqn:Hstep.
  - destruct (walk_iter_some _ _ _ Hstep) as (j & -> & Hj0 & Hjw & Hone & Hgap).
    destruct (IH _ eq_refl) as (Hle & Hnn & Hfirst & Hcount).
    { cbn [start_pos current_pos]. lia. }
    cbn [start_pos current_pos consecutive_count] in Hle, Hnn, Hfirst, Hcount.
    set (r := walk limit_up (mkWalk (consecutive_count st + 1) j (j - 1))) in *.
    split; [lia|]. split; [intros _; apply Hnn; exact Hj0|].
    split; [intros _; apply Hfirst; exact Hone|].
    rewrite Hcount.
    rewrite (limit_ups_between_split limit_up (snd r) j (current_pos st))
      by lia.
    rewrite (limit_ups_between_split limit_up j (j + 1) (current_pos st))
      by lia.
    rewrite (limit_ups_between_none limit_up (j + 1) (current_pos st))
      by (intros k Hk; apply Hgap; lia).
    replace (j + 1 - 1) with j by lia.
    rewrite (limit_ups_between_one limit_up j Hone). lia.
  - cbn [fst snd]. split; [lia|]. split; [auto|]. split; [auto|].
    rewrite limit_ups_between_none; [lia|]. intros k Hk. lia.
Qed.

(** The pair the detailed walk computes for a limit-up row [i]. *)
Lemma full_walk_counts (limit_up : col Z) (i : nat) :
  is_one (nth i limit_up None) = true ->
  let D := fst (full_walk limit_up i) in
  let B := snd (full_walk limit_up i) in
  1 <= B <= D /\ D <= Z.of_nat i + 1 /\
  is_one (cell limit_up (Z.of_nat i - D + 1)) = true /\
  B = limit_ups_between limit_up (Z.of_nat i - D + 1) (Z.of_nat i).
Proof.
  intros Hone. unfold full_walk.
  pose proof (walk_counts limit_up (mkWalk 1 (Z.of_nat i) (Z.of_nat i - 1)))
    as H.
  cbn [start_pos current_pos consecutive_count] in H.
  destruct H as (Hle & Hnn & Hfirst & Hcount); [lia|].
  destruct (walk limit_up (mkWalk 1 (Z.of_nat i) (Z.of_nat i - 1)))
    as [c s] eqn:Hw.
  cbn [fst snd] in *.
  rewrite <- cell_nth in Hone.
  specialize (Hnn ltac:(lia)). specialize (Hfirst Hone).
  replace (Z.of_nat i - (Z.of_nat i - s + 1) + 1) with s by lia.
  assert (Hall : c = limit_ups_between limit_up s (Z.of_nat i)).
  { rewrite (limit_ups_between_split limit_up s (Z.of_nat i) (Z.of_nat i))
      by lia.
    rewrite (limit_ups_between_one limit_up _ Hone). lia. }
  pose proof (limit_ups_between_le limit_up s (Z.of_nat i - 1) ltac:(lia)).
  split; [lia|]. split; [lia|]. split; [exact Hfirst|exact Hall].
Qed.

(** The label 连板天数 of every row of a frame that has rows.  A row
    that is not limit-up gets "0天0板".  A limit-up row gets "D天B板" where
    the span of [D] rows ending at it starts on a limit-up row and holds
    exactly [B] limit-up rows, so that [1 <= B <= D]. *)
Theorem board_label_counts_limit_up_rows (zt : col bool) :
  zt <> [] ->
  exists cols,
    calculate_continuous_limit_up_optimized zt = Ok cols /\
    forall i, (i < List.length zt)%nat ->
      (nth i zt None <> Some true ->
       nth i (board_label cols) EmptyString = "0天0板"%string) /\
      (nth i zt None = Some true ->
       exists D B,
         nth i (board_label cols) EmptyString = label D B /\
         1 <= B <= D /\ D <= Z.of_nat i + 1 /\
         nth (Z.to_nat (Z.of_nat i - D + 1)) zt None = Some true /\
         B = limit_ups_between (map cast_int zt) (Z.of_nat i - D + 1)
               (Z.of_nat i)).
Proof.
  intros Hrows.
  eexists. split; [apply calculate_continuous_ok; exact Hrows|].
  clear Hrows. intros i Hi. cbn [board_label].
  rewrite (nth_indep _ EmptyString (label_of (map cast_int zt) 0%nat))
    by (rewrite length_map, length_seq; exact Hi).
  rewrite map_nth, seq_nth by exact Hi. cbn [Nat.add].
  assert (Hcell : forall k, nth k (map cast_int zt) None = cast_int (nth k zt None)).
  { intros k. change None with (cast_int None) at 1. apply map_nth. }
  assert (Hflag : forall k, is_one (nth k (map cast_int zt) None) = true <->
                            nth k zt None = Some true).
  { intros k. rewrite Hcell. destruct (nth k zt None) as [[|]|]; cbn;
      split; intros H; (reflexivity || discriminate). }
  unfold label_of. split.
  - intros Hne. destruct (is_one (nth i (map cast_int zt) None)) eqn:E;
      [|reflexivity].
    exfalso. apply Hne. apply Hflag. exact E.
  - intros Hup. pose proof (proj2 (Hflag i) Hup) as Hone.
    rewrite Hone. cbn [negb].
    destruct (trailing_count (map cast_int zt) i <=? 1).
    + exists 1, 1. split; [reflexivity|]. split; [lia|]. split; [lia|].
      replace (Z.of_nat i - 1 + 1) with (Z.of_nat i) by lia.
      rewrite Nat2Z.id. split; [exact Hup|].
      symmetry. apply limit_ups_between_one. rewrite cell_nth. exact Hone.
    + destruct (full_walk_counts (map cast_int zt) i Hone)
        as (HB & HD & Hfirst & Hcount).
      unfold full_walk_label.
      destruct (full_walk (map cast_int zt) i) as [D B]. cbn [fst snd] in *.
      exists D, B. split; [reflexivity|]. split; [exact HB|].
      split; [exact HD|]. split; [|exact Hcount].
      apply Hflag. rewrite <- cell_nth. rewrite Z2Nat.id by lia. exact Hfirst.
Qed.

(** Two boards with one day between them. *)
Lemma board_labels_of_three_rows :
  exists cols,
    calculate_continuous_limit_up_optimized [Some true; Some false; Some true]
      = Ok cols /\
    forall i, (i < 3)%nat ->
      (nth i [Some true; Some false; Some true] None <> Some true ->
       nth i (board_label cols) EmptyString = "0天0板"%string) /\
      (nth i [Some true; Some false; Some true] None = Some true ->
       exists D B,
         nth i (board_label cols) EmptyString = label D B /\
         1 <= B <= D /\ D <= Z.of_nat i + 1 /\
         nth (Z.to_nat (Z.of_nat i - D + 1))
             [Some true; Some false; Some true] None = Some true /\
         B = limit_ups_between (map cast_int [Some true; Some false; Some true])
               (Z.of_nat i - D + 1) (Z.of_nat i)).
Proof.
  apply (board_label_counts_limit_up_rows [Some true; Some false; Some true]).
  discriminate.
Defined.

End ChainFacts.

(* ===================================================================== *)
(** * Further facts about the snapshot writer                            *)
(* ===================================================================== *)

Module WriterFacts.
Import Snapshot Writer SnapshotFacts.
Local Open Scope list_scope.

Section Persistence.
Variable Frame : Type.
Variable is_empty : Frame -> bool.
Variable has_date : Frame -> bool.
Variables compute_limits_df continuous_df indicators_df relative_df
          candles_df : Frame -> option Frame.
Variable init_columns_df : Frame -> Frame.
Variable Schedule : Type.
Variable unique_df : Schedule -> Frame -> Frame.

(** ** When the writer raises *)

(** Once [temp_file] has been assigned it stays assigned. *)
Lemma try_block_keeps_bound (df : Frame) (file_path : string) (a : Attempt)
  (tf tf' : PyVar) (u : bool) (fs fs' : FS Frame) (states : list (FS Frame)) :
  try_block df file_path a tf fs = (inr (tf', u, fs'), states) ->
  tf <> Unbound -> tf' <> Unbound.
Proof.
  destruct a as [u0| |tmp u0|tmp u0|tmp u0|tmp u0|tmp|tmp]; cbn [try_block];
    try destruct (fs tmp);
    intros E H; inversion E; subst; (assumption || discriminate).
Qed.

(** A pass that gets past [os.makedirs] assigns [temp_file]. *)
Lemma try_block_binds (df : Frame) (file_path : string) (a : Attempt)
  (tf tf' : PyVar) (u : bool) (fs fs' : FS Frame) (states : list (FS Frame)) :
  (forall u0, a <> MakedirsRaises u0) ->
  try_block df file_path a tf fs = (inr (tf', u, fs'), states) ->
  tf' <> Unbound.
Proof.
  intros Ha.
  destruct a as [u0| |tmp u0|tmp u0|tmp u0|tmp u0|tmp|tmp]; cbn [try_block];
    try destruct (fs tmp);
    intros E; inversion E; subst; try discriminate.
  exfalso. eapply Ha. reflexivity.
Qed.

Lemma retry_loop_bound_never_raises (df : Frame) (file_path : string)
  (max_retries : nat) (oracle : nat -> Attempt) (remaining : nat) :
  forall (attempt : nat) (tf : PyVar) (fs : FS Frame) (seen : list (FS Frame)),
    tf <> Unbound ->
    outcome (retry_loop df file_path max_retries oracle remaining attempt tf
               fs seen) <> Raised.
Proof.
  induction remaining as [|remaining IH]; intros attempt tf fs seen Htf;
    cbn [retry_loop].
  - cbn. discriminate.
  - destruct (try_block df file_path (oracle attempt) tf fs)
      as [[fs'|[[tf' u] fs']] states] eqn:Htry.
    + cbn. discriminate.
    + pose proof (try_block_keeps_bound _ _ _ _ _ _ _ _ _ Htry Htf) as Htf'.
      destruct tf' as [| |tmp]; [congruence| |].
      * cbn [cleanup]. destruct (attempt <? max_retries - 1)%nat.
        -- apply IH. discriminate.
        -- cbn. discriminate.
      * cbn [cleanup].
        destruct (fs' tmp); destruct (attempt <? max_retries - 1)%nat;
          try (apply IH; discriminate); cbn; discriminate.
Qed.

(** The loop does not raise when its first pass gets past
    [os.makedirs]. *)
Lemma retry_loop_past_makedirs (df : Frame) (file_path : string)
  (max_retries : nat) (oracle : nat -> Attempt) (remaining attempt : nat)
  (tf : PyVar) (fs : FS Frame) (seen : list (FS Frame)) :
  (forall u, oracle attempt <> MakedirsRaises u) ->
  outcome (retry_loop df file_path max_retries oracle remaining attempt tf
             fs seen) <> Raised.
Proof.
  intros Ha. destruct remaining as [|remaining]; cbn [retry_loop].
  - cbn. discriminate.
  - destruct (try_block df file_path (oracle attempt) tf fs)
      as [[fs'|[[tf' u] fs']] states] eqn:Htry.
    + cbn. discriminate.
    + pose proof (try_block_binds _ _ _ _ _ _ _ _ _ Ha Htry) as Htf'.
      destruct tf' as [| |tmp]; [congruence| |].
      * cbn [cleanup]. destruct (attempt <? max_retries - 1)%nat.
        -- apply retry_loop_bound_never_raises. discriminate.
        -- cbn. discriminate.
      * cbn [cleanup].
        destruct (fs' tmp); destruct (attempt <? max_retries - 1)%nat;
          try (apply retry_loop_bound_never_raises; discriminate);
          cbn; discriminate.
Qed.

(** [safe_write_parquet] lets an exception escape in exactly one case:
    the frame is not empty, at least one attempt is allowed, and
    [os.makedirs] raises on the first attempt.  [temp_file] is then read
    by the handler before any assignment to it.  Every other failure, on
    any attempt, ends in a return value. *)
Theorem safe_write_raises_iff_first_makedirs_fails (df : option Frame)
  (file_path : string) (max_retries : nat) (oracle : nat -> Attempt)
  (fs : FS Frame) :
  outcome (safe_write_parquet is_empty df file_path max_retries oracle fs)
    = Raised <->
  exists d u, df = Some d /\ is_empty d = false /\
              (0 < max_retries)%nat /\ oracle 0%nat = MakedirsRaises u.
Proof.
  unfold safe_write_parquet. split.
  - destruct df as [d|]; [|cbn; discriminate].
    destruct (is_empty d) eqn:He; [cbn; discriminate|].
    destruct max_retries as [|n]; [cbn; discriminate|].
    intros Hr.
    assert (Hm : (exists u, oracle 0%nat = MakedirsRaises u) \/
                 forall u, oracle 0%nat <> MakedirsRaises u).
    { destruct (oracle 0%nat); try (right; intros; discriminate).
      left. eexists. reflexivity. }
    destruct Hm as [[u Ho]|Hm].
    + exists d, u. repeat split; [exact He|lia|exact Ho].
    + exfalso. revert Hr. apply retry_loop_past_makedirs. exact Hm.
  - intros (d & u & -> & He & Hn & Ho). rewrite He.
    destruct max_retries as [|n]; [lia|].
    cbn [retry_loop]. rewrite Ho. reflexivity.
Qed.

(** ** What the writer leaves behind *)

Lemma no_new_files_unset (base fs g : FS Frame) (file_path tmp : string) :
  (forall q, q <> tmp -> q <> file_path -> g q = fs q) ->
  no_new_files base fs file_path ->
  no_new_files base (fs_set g tmp None) file_path.
Proof.
  intros Hg H q Hq Hne. unfold fs_set.
  destruct (String.eqb q tmp) eqn:E; [reflexivity|].
  apply String.eqb_neq in E. rewrite Hg by assumption. apply H; assumption.
Qed.

Lemma cleanup_no_new_files (base fs fs' : FS Frame) (file_path : string)
  (tf : PyVar) (u : bool) :
  no_new_files base fs file_path ->
  cleanup tf u fs = Some fs' -> no_new_files base fs' file_path.
Proof.
  intros H. destruct tf as [| |tmp]; cbn [cleanup].
  - discriminate.
  - intros [= <-]. exact H.
  - destruct (fs tmp); [|intros [= <-]; exact H].
    destruct u; intros [= <-]; [|exact H].
    apply (no_new_files_unset base fs); auto.
Qed.

(** The handler of a pass that wrote its temporary file, when the
    unlink goes through. *)
Lemma cleanup_handle_no_new_files (base fs g : FS Frame)
  (file_path tmp : string) :
  (forall q, q <> tmp -> q <> file_path -> g q = fs q) ->
  g tmp <> None ->
  no_new_files base fs file_path ->
  match cleanup (Handle tmp) true g with
  | Some fs'' => no_new_files base fs'' file_path
  | None => no_new_files base g file_path
  end.
Proof.
  intros Hg Htmp H. cbn [cleanup].
  destruct (g tmp); [|contradiction Htmp; reflexivity].
  apply (no_new_files_unset base fs); assumption.
Qed.

(** One pass whose clean-up unlink goes through: whether it ends in the
    move or in the handler, no new name is left. *)
Lemma try_block_no_new_files (base fs : FS Frame) (df : Frame)
  (file_path : string) (a : Attempt) (tf : PyVar) :
  unlink_succeeds a = true ->
  no_new_files base fs file_path ->
  match try_block df file_path a tf fs with
  | (inl fs', _) => no_new_files base fs' file_path
  | (inr (tf', u, fs'), _) =>
      match cleanup tf' u fs' with
      | Some fs'' => no_new_files base fs'' file_path
      | None => no_new_files base fs' file_path
      end
  end.
Proof.
  intros Hu H.
  destruct a as [u| |tmp u|tmp u|tmp u|tmp u|tmp|tmp];
    cbn [unlink_succeeds] in Hu; try subst u; cbn [try_block].
  - destruct (cleanup tf true fs) as [fs''|] eqn:Hc; [|exact H].
    apply (cleanup_no_new_files _ _ _ _ _ _ H Hc).
  - exact H.
  - destruct (fs tmp) eqn:Ht; [exact H|].
    apply (cleanup_handle_no_new_files base fs); [| |exact H].
    + intros q Hq _. apply fs_set_other. exact Hq.
    + rewrite fs_set_same. discriminate.
  - destruct (fs tmp) eqn:Ht; [exact H|].
    apply (cleanup_handle_no_new_files base fs); [| |exact H].
    + intros q Hq _. rewrite !fs_set_other by exact Hq. reflexivity.
    + rewrite fs_set_same. discriminate.
  - destruct (fs tmp) eqn:Ht; [exact H|].
    apply (cleanup_handle_no_new_files base fs); [| |exact H].
    + intros q Hq Hp. rewrite !fs_set_other by assumption. reflexivity.
    + apply fs_set_keeps_files; [|discriminate].
      rewrite fs_set_same. discriminate.
  - destruct (fs tmp) eqn:Ht; [exact H|].
    assert (Hcopy : fs_set (fs_set (fs_set fs tmp (Some Garbage)) tmp
                                   (Some (Parquet df)))
                           file_path (Some Garbage) tmp <> None).
    { apply fs_set_keeps_files; [|discriminate].
      rewrite fs_set_same. discriminate. }
    apply (cleanup_handle_no_new_files base fs); [| |exact H].
    + intros q Hq Hp. rewrite !fs_set_other by assumption. reflexivity.
    + apply fs_set_keeps_files; exact Hcopy.
  - destruct (fs tmp) eqn:Ht; [exact H|].
    apply (no_new_files_unset base fs); [|exact H].
    intros q Hq Hp. rewrite !fs_set_other by assumption. reflexivity.
  - destruct (fs tmp) eqn:Ht; [exact H|].
    apply (no_new_files_unset base fs); [|exact H].
    intros q Hq Hp. rewrite !fs_set_other by assumption. reflexivity.
Qed.

Lemma retry_loop_no_new_files (base : FS Frame) (df : Frame)
  (file_path : string) (max_retries : nat) (oracle : nat -> Attempt)
  (remaining : nat) :
  (forall k, unlink_succeeds (oracle k) = true) ->
  forall (attempt : nat) (tf : PyVar) (fs : FS Frame) (seen : list (FS Frame)),
    no_new_files base fs file_path ->
    no_new_files base
      (final (retry_loop df file_path max_retries oracle remaining attempt
                tf fs seen)) file_path.
Proof.
  intros Hu. induction remaining as [|remaining IH];
    intros attempt tf fs seen Hfs; cbn [retry_loop]; [exact Hfs|].
  pose proof (try_block_no_new_files base fs df file_path (oracle attempt) tf
                (Hu attempt) Hfs) as Htry.
  destruct (try_block df file_path (oracle attempt) tf fs)
    as [[fs'|[[tf' u] fs']] states]; [exact Htry|].
  destruct (cleanup tf' u fs') as [fs''|]; [|exact Htry].
  destruct (attempt <? max_retries - 1)%nat; [apply IH|]; exact Htry.
Qed.

(** As long as the clean-up unlink goes through whenever it is tried,
    [safe_write_parquet] leaves no temporary file behind: whether it
    returns [True], returns [False] or raises, the only path that can
    exist afterwards without having existed before is the target. *)
Theorem writer_leaves_no_temp_files (df : option Frame) (file_path : string)
  (max_retries : nat) (oracle : nat -> Attempt) (fs : FS Frame) :
  (forall k, unlink_succeeds (oracle k) = true) ->
  no_new_files fs
    (final (safe_write_parquet is_empty df file_path max_retries oracle fs))
    file_path.
Proof.
  intros Hu.
  assert (H0 : no_new_files fs fs file_path) by (intros q Hq _; exact Hq).
  unfold safe_write_parquet. destruct df as [d|]; [|exact H0].
  destruct (is_empty d); [exact H0|].
  apply retry_loop_no_new_files; assumption.
Qed.

(** ** What the writer does at one path *)

Lemma cleanup_at (fs fs' : FS Frame) (tf : PyVar) (u : bool) (x : string) :
  (forall t, tf = Handle t -> t <> x) ->
  cleanup tf u fs = Some fs' -> fs' x = fs x.
Proof.
  intros Hx. destruct tf as [| |tmp]; cbn [cleanup].
  - discriminate.
  - intros [= <-]. reflexivity.
  - destruct (fs tmp); [|intros [= <-]; reflexivity].
    destruct u; intros [= <-]; [|reflexivity].
    apply fs_set_other. intros E. apply (Hx tmp eq_refl). symmetry. exact E.
Qed.

(** One pass, seen from a path [x] that the pass does not pick as its
    temporary name.  A pass that ends in the handler has left [x] as it
    was, unless [x] is the target and [shutil.move] fell back to
    copying. *)
Lemma try_block_at (fs : FS Frame) (df : Frame) (file_path : string)
  (a : Attempt) (tf : PyVar) (x : string) :
  (forall t, tf = Handle t -> t <> x) ->
  (temp_name a = Some x -> fs x <> None) ->
  match try_block df file_path a tf fs with
  | (inl fs', _) =>
      fs' x = if String.eqb x file_path then Some (Parquet df) else fs x
  | (inr (tf', _, fs'), _) =>
      (x <> file_path \/ falls_back a = false -> fs' x = fs x) /\
      (fs x <> None -> fs' x <> None) /\
      forall t, tf' = Handle t -> t <> x
  end.
Proof.
  intros Htf Hname.
  assert (Hearly : (x <> file_path \/ false = false -> fs x = fs x) /\
                   (fs x <> None -> fs x <> None) /\
                   forall t, PyNone = Handle t -> t <> x).
  { split; [reflexivity|]. split; [auto|discriminate]. }
  destruct a as [u| |tmp u|tmp u|tmp u|tmp u|tmp|tmp];
    cbn [try_block temp_name falls_back] in *.
  - split; [reflexivity|]. split; [auto|exact Htf].
  - exact Hearly.
  - destruct (fs tmp) eqn:Ht; [exact Hearly|].
    assert (Hne : x <> tmp).
    { intros ->. apply (Hname eq_refl). exact Ht. }
    rewrite fs_set_other by exact Hne.
    split; [reflexivity|]. split; [auto|].
    intros t [= <-]. congruence.
  - destruct (fs tmp) eqn:Ht; [exact Hearly|].
    assert (Hne : x <> tmp).
    { intros ->. apply (Hname eq_refl). exact Ht. }
    rewrite !fs_set_other by exact Hne.
    split; [reflexivity|]. split; [auto|].
    intros t [= <-]. congruence.
  - destruct (fs tmp) eqn:Ht.
    + split; [reflexivity|]. split; [auto|discriminate].
    + assert (Hne : x <> tmp).
      { intros ->. apply (Hname eq_refl). exact Ht. }
      split; [|split].
      * intros [Hp|Hp]; [|discriminate Hp].
        rewrite !fs_set_other by assumption. reflexivity.
      * intros Hx. apply fs_set_keeps_files; [|discriminate].
        rewrite !fs_set_other by exact Hne. exact Hx.
      * intros t [= <-]. congruence.
  - destruct (fs tmp) eqn:Ht.
    + split; [reflexivity|]. split; [auto|discriminate].
    + assert (Hne : x <> tmp).
      { intros ->. apply (Hname eq_refl). exact Ht. }
      assert (Hcopy : fs_set (fs_set (fs_set fs tmp (Some Garbage)) tmp
                                     (Some (Parquet df)))
                             file_path (Some Garbage) tmp <> None).
      { apply fs_set_keeps_files; [|discriminate].
        rewrite fs_set_same. discriminate. }
      split; [|split].
      * intros [Hp|Hp]; [|discriminate Hp].
        rewrite !fs_set_other by assumption. reflexivity.
      * intros Hx. apply fs_set_keeps_files; [|exact Hcopy].
        apply fs_set_keeps_files; [|discriminate].
        rewrite !fs_set_other by exact Hne. exact Hx.
      * intros t [= <-]. congruence.
  - destruct (fs tmp) eqn:Ht.
    + split; [reflexivity|]. split; [auto|discriminate].
    + assert (Hne : x <> tmp).
      { intros ->. apply (Hname eq_refl). exact Ht. }
      rewrite fs_set_other by exact Hne.
      destruct (String.eqb x file_path) eqn:E.
      * apply String.eqb_eq in E. subst x.
        rewrite fs_set_same.
        rewrite fs_set_other by (intros E; apply Hne; symmetry; exact E).
        apply fs_set_same.
      * apply String.eqb_neq in E.
        rewrite !fs_set_other by assumption. reflexivity.
  - destruct (fs tmp) eqn:Ht.
    + split; [reflexivity|]. split; [auto|discriminate].
    + assert (Hne : x <> tmp).
      { intros ->. apply (Hname eq_refl). exact Ht. }
      rewrite fs_set_other by exact Hne.
      destruct (String.eqb x file_path) eqn:E.
      * apply String.eqb_eq in E. subst x.
        rewrite fs_set_same, fs_set_same. reflexivity.
      * apply String.eqb_neq in E.
        rewrite !fs_set_other by assumption. reflexivity.
Qed.

(** The retry loop, seen from a path [x] that is either never picked as
    a temporary name, or is an existing file (and so cannot be picked:
    the name handed out is always a fresh one). *)
Lemma retry_loop_at (df : Frame) (file_path : string) (max_retries : nat)
  (oracle : nat -> Attempt) (x : string) (remaining : nat) :
  forall (attempt : nat) (tf : PyVar) (fs : FS Frame) (seen : list (FS Frame)),
    (forall k, temp_name (oracle k) <> Some x) \/ fs x <> None ->
    (forall t, tf = Handle t -> t <> x) ->
    let r := retry_loop df file_path max_retries oracle remaining attempt tf
               fs seen in
    (outcome r = Returned true ->
     final r x = if String.eqb x file_path then Some (Parquet df) else fs x) /\
    (outcome r <> Returned true ->
     x <> file_path \/ (forall k, falls_back (oracle k) = false) ->
     final r x = fs x).
Proof.
  induction remaining as [|remaining IH]; intros attempt tf fs seen Hx Htf;
    cbn zeta; cbn [retry_loop].
  - cbn. split; [discriminate|reflexivity].
  - pose proof (try_block_at fs df file_path (oracle attempt) tf x Htf) as Htry.
    assert (Hname : temp_name (oracle attempt) = Some x -> fs x <> None).
    { destruct Hx as [Hx|Hx]; [intros E; destruct (Hx _ E)|auto]. }
    specialize (Htry Hname).
    destruct (try_block df file_path (oracle attempt) tf fs)
      as [[fs'|[[tf' u] fs']] states].
    + cbn. split; [intros _; exact Htry|congruence].
    + destruct Htry as (Hsame & Hkeep & Htf').
      assert (Hquiet : x <> file_path \/
                       (forall k, falls_back (oracle k) = false) ->
                       fs' x = fs x).
      { intros [Hq|Hq]; apply Hsame; [left; exact Hq|right; apply Hq]. }
      destruct (cleanup tf' u fs') as [fs''|] eqn:Hc.
      * pose proof (cleanup_at _ _ _ _ _ Htf' Hc) as Hfs''.
        destruct (attempt <? max_retries - 1)%nat.
        -- destruct (IH (S attempt) tf' fs'' (seen ++ states ++ [fs'']))
             as [I1 I2]; [|exact Htf'|].
           ++ destruct Hx as [Hx|Hx]; [left; exact Hx|right].
              rewrite Hfs''. apply Hkeep. exact Hx.
           ++ split.
              ** intros H. rewrite (I1 H).
                 destruct (String.eqb x file_path) eqn:E; [reflexivity|].
                 apply String.eqb_neq in E. rewrite Hfs''.
                 apply Hsame. left. exact E.
              ** intros H Hq. rewrite (I2 H Hq), Hfs''. apply Hquiet.
                 exact Hq.
        -- cbn. split; [discriminate|]. intros _ Hq. rewrite Hfs''.
           apply Hquiet. exact Hq.
      * cbn. split; [discriminate|]. intros _ Hq. apply Hquiet. exact Hq.
Qed.

Lemma safe_write_at (df : option Frame) (file_path : string)
  (max_retries : nat) (oracle : nat -> Attempt) (fs : FS Frame) (x : string) :
  (forall k, temp_name (oracle k) <> Some x) \/ fs x <> None ->
  let r := safe_write_parquet is_empty df file_path max_retries oracle fs in
  (outcome r = Returned true ->
   exists d, df = Some d /\
             final r x =
             if String.eqb x file_path then Some (Parquet d) else fs x) /\
  (outcome r <> Returned true ->
   x <> file_path \/ (forall k, falls_back (oracle k) = false) ->
   final r x = fs x).
Proof.
  intros Hx. cbn zeta. unfold safe_write_parquet.
  destruct df as [d|]; [|cbn; split; [discriminate|reflexivity]].
  destruct (is_empty d); [cbn; split; [discriminate|reflexivity]|].
  destruct (retry_loop_at d file_path max_retries oracle x max_retries 0
              Unbound fs [fs] Hx ltac:(discriminate)) as [H1 H2].
  split; [|exact H2]. intros H. exists d. split; [reflexivity|auto].
Qed.

(** The writer's result at an existing file other than the target. *)
Lemma safe_write_elsewhere (df : option Frame) (file_path : string)
  (max_retries : nat) (oracle : nat -> Attempt) (fs : FS Frame) (x : string) :
  x <> file_path -> fs x <> None ->
  final (safe_write_parquet is_empty df file_path max_retries oracle fs) x
  = fs x.
Proof.
  intros Hne Hx.
  destruct (safe_write_at df file_path max_retries oracle fs x
              (or_intror Hx)) as [H1 H2].
  destruct (outcome (safe_write_parquet is_empty df file_path max_retries
                       oracle fs)) as [[|]|] eqn:Ho.
  - destruct (H1 eq_refl) as (d & _ & E). rewrite E.
    apply String.eqb_neq in Hne. rewrite Hne. reflexivity.
  - apply H2; [discriminate|left; exact Hne].
  - apply H2; [discriminate|left; exact Hne].
Qed.

(** A write over an existing target that returns [True] has put the
    complete frame at the target, by rename or by copy, and has changed
    no other file. *)
Lemma safe_write_commits (d : Frame) (file_path : string)
  (max_retries : nat) (oracle : nat -> Attempt) (fs : FS Frame) :
  fs file_path <> None ->
  outcome (safe_write_parquet is_empty (Some d) file_path max_retries oracle
             fs) = Returned true ->
  committed fs d file_path
    (final (safe_write_parquet is_empty (Some d) file_path max_retries oracle
              fs)).
Proof.
  intros Htarget Hok. split.
  - destruct (safe_write_at (Some d) file_path max_retries oracle fs file_path
                (or_intror Htarget)) as [H1 _].
    destruct (H1 Hok) as (d' & [= <-] & E). rewrite E, String.eqb_refl.
    reflexivity.
  - intros q Hq Hne. apply safe_write_elsewhere; assumption.
Qed.

(** ** The manager's two writers *)

(** How [precompute_market_states] ends: without a write, or with the
    status frame of the stock metadata handed to the writer. *)
Lemma precompute_cases (self : Manager) (oracle : nat -> Attempt)
  (fs : FS Frame) :
  let res := precompute_market_states is_empty compute_limits_df
               continuous_df indicators_df relative_df candles_df
               init_columns_df self oracle fs in
  (fst res = false /\ snd res = fs) \/
  exists stock status,
    load_stock_metadata self fs = Some stock /\
    status_frame compute_limits_df continuous_df indicators_df relative_df
      candles_df init_columns_df stock = Some status /\
    let r := safe_write_parquet is_empty (Some status)
               (market_states_path self) 3 oracle fs in
    snd res = final r /\ (fst res = true <-> outcome r = Returned true).
Proof.
  cbn zeta. unfold precompute_market_states.
  destruct (load_stock_metadata self fs) as [stock|] eqn:Hl;
    [|left; split; reflexivity].
  destruct (is_empty stock); [left; split; reflexivity|].
  unfold create_limit_status_parquet.
  destruct (status_frame _ _ _ _ _ _ stock) as [status|] eqn:Hs;
    [|left; split; reflexivity].
  right. exists stock, status. split; [reflexivity|]. split; [exact Hs|].
  destruct (outcome (safe_write_parquet is_empty (Some status)
                       (market_states_path self) 3 oracle fs))
    as [[|]|] eqn:Ho; cbn [fst snd]; (split; [reflexivity|]);
    split; congruence.
Qed.

(** How [update_market_states_incremental] ends when a snapshot is in
    place. *)
Lemma update_cases (self : Manager) (sched : Schedule)
  (oracle : nat -> Attempt) (fs : FS Frame) (snapshot : FileContent Frame) :
  fs (market_states_path self) = Some snapshot ->
  let res := update_market_states_incremental is_empty has_date
               compute_limits_df continuous_df indicators_df relative_df
               candles_df init_columns_df unique_df self sched oracle fs in
  (fst res = false /\ snd res = fs) \/
  exists existing_states stock_data,
    snapshot = Parquet existing_states /\
    has_date existing_states = true /\
    incremental_frame compute_limits_df continuous_df indicators_df
      relative_df candles_df unique_df sched (load_stock_metadata self fs)
      = Some stock_data /\
    let r := safe_write_parquet is_empty (Some stock_data)
               (market_states_path self) 3 oracle fs in
    snd res = final r /\ (fst res = true <-> outcome r = Returned true).
Proof.
  intros Hsnap. cbn zeta. unfold update_market_states_incremental.
  rewrite Hsnap. unfold read_parquet. rewrite Hsnap.
  destruct snapshot as [existing|]; [|left; split; reflexivity].
  destruct (has_date existing) eqn:Hdate; cbn [negb];
    [|left; split; reflexivity].
  destruct (incremental_frame _ _ _ _ _ _ sched (load_stock_metadata self fs))
    as [stock_data|] eqn:Hi; [|left; split; reflexivity].
  right. exists existing, stock_data. split; [reflexivity|].
  split; [exact Hdate|]. split; [reflexivity|].
  destruct (outcome (safe_write_parquet is_empty (Some stock_data)
                       (market_states_path self) 3 oracle fs))
    as [[|]|] eqn:Ho; cbn [fst snd]; (split; [reflexivity|]);
    split; congruence.
Qed.

Lemma incremental_frame_needs_stock (sched : Schedule) (d : option Frame)
  (stock_data : Frame) :
  incremental_frame compute_limits_df continuous_df indicators_df
    relative_df candles_df unique_df sched d = Some stock_data ->
  d <> None.
Proof. destruct d; [discriminate|]. cbn. discriminate. Qed.

Lemma load_stock_metadata_exists (self : Manager) (fs : FS Frame) :
  load_stock_metadata self fs <> None -> fs (stock_metadata_path self) <> None.
Proof.
  unfold load_stock_metadata, read_parquet.
  destruct (fs (stock_metadata_path self)); [discriminate|congruence].
Qed.

(** Neither branch of [update_market_states_incremental] ever changes
    the stock metadata file it reads from, whatever happens to the
    write: the only existing file it can replace is the snapshot. *)
Theorem update_leaves_stock_metadata_alone (self : Manager)
  (sched : Schedule) (oracle : nat -> Attempt) (fs : FS Frame) :
  market_states_path self <> stock_metadata_path self ->
  snd (update_market_states_incremental is_empty has_date compute_limits_df
         continuous_df indicators_df relative_df candles_df init_columns_df
         unique_df self sched oracle fs) (stock_metadata_path self)
  = fs (stock_metadata_path self).
Proof.
  intros Hpaths.
  destruct (fs (market_states_path self)) as [snapshot|] eqn:Hsnap.
  - destruct (update_cases self sched oracle fs snapshot Hsnap)
      as [[_ ->]|(existing & stock_data & _ & _ & Hi & Hfinal & _)];
      [reflexivity|].
    rewrite Hfinal. apply safe_write_elsewhere; [congruence|].
    apply load_stock_metadata_exists.
    apply (incremental_frame_needs_stock _ _ _ Hi).
  - unfold update_market_states_incremental. rewrite Hsnap.
    destruct (precompute_cases self oracle fs)
      as [[_ ->]|(stock & status & Hl & _ & Hfinal & _)]; [reflexivity|].
    rewrite Hfinal. apply safe_write_elsewhere; [congruence|].
    apply load_stock_metadata_exists. congruence.
Qed.

(** What [precompute_market_states] leaves at the snapshot path when the
    temporary name is never the target's own.  When it returns [True],
    the path holds the complete image of the status frame derived from
    the stock metadata.  When it returns [False] and [shutil.move] has
    not fallen back to copying in any pass, the path holds what it held
    before, or is still missing. *)
Theorem precompute_writes_status_frame (self : Manager)
  (oracle : nat -> Attempt) (fs : FS Frame) :
  (forall k, temp_name (oracle k) <> Some (market_states_path self)) ->
  let res := precompute_market_states is_empty compute_limits_df
               continuous_df indicators_df relative_df candles_df
               init_columns_df self oracle fs in
  (fst res = true ->
   exists stock status,
     load_stock_metadata self fs = Some stock /\
     status_frame compute_limits_df continuous_df indicators_df relative_df
       candles_df init_columns_df stock = Some status /\
     snd res (market_states_path self) = Some (Parquet status)) /\
  (fst res = false ->
   (forall k, falls_back (oracle k) = false) ->
   snd res (market_states_path self) = fs (market_states_path self)).
Proof.
  intros Hname. cbn zeta.
  destruct (precompute_cases self oracle fs)
    as [[Hf ->]|(stock & status & Hl & Hs & Hfinal & Hok)].
  - split; [congruence|reflexivity].
  - destruct (safe_write_at (Some status) (market_states_path self) 3 oracle
                fs (market_states_path self) (or_introl Hname)) as [H1 H2].
    split.
    + intros Ht. exists stock, status. split; [exact Hl|]. split; [exact Hs|].
      destruct (H1 (proj1 Hok Ht)) as (d & [= <-] & E).
      rewrite Hfinal, E, String.eqb_refl. reflexivity.
    + intros Hf Hrename. rewrite Hfinal. apply H2; [|right; exact Hrename].
      intros Ho. apply (proj2 Hok) in Ho. congruence.
Qed.

(** ** Which failures stop a build *)

(** The full build stops only when [compute_limits] or the streak engine
    raises: the indicators, the relative indicators and the candle
    streaks sit in [try] blocks of their own.  The incremental build has
    a [try] around the candle streaks only, so there a failure of the
    indicators or of the relative indicators stops the build as well. *)
Theorem fatal_stages_of_the_two_builds (sched : Schedule) (df : Frame) :
  (status_frame compute_limits_df continuous_df indicators_df relative_df
     candles_df init_columns_df df <> None <->
   exists s1 s2,
     compute_limits_df df = Some s1 /\
     continuous_df (init_columns_df s1) = Some s2) /\
  (incremental_frame compute_limits_df continuous_df indicators_df
     relative_df candles_df unique_df sched (Some df) <> None <->
   exists s1 s2 s3 s4,
     compute_limits_df df = Some s1 /\ continuous_df s1 = Some s2 /\
     indicators_df s2 = Some s3 /\ relative_df s3 = Some s4).
Proof.
  split.
  - unfold status_frame.
    destruct (compute_limits_df df) as [s1|];
      [|split; [congruence|intros (a & b & H & _); discriminate]].
    destruct (continuous_df (init_columns_df s1)) as [s2|] eqn:H2.
    + split; [|discriminate]. intros _. exists s1, s2.
      split; [reflexivity|exact H2].
    + split; [congruence|intros (a & b & [= <-] & H); congruence].
  - unfold incremental_frame, merged_frame.
    destruct (compute_limits_df df) as [s1|];
      [|split; [congruence|intros (a & b & c & d & H & _); discriminate]].
    destruct (continuous_df s1) as [s2|] eqn:H2;
      [|split; [congruence|];
        intros (a & b & c & d & [= <-] & H & _); congruence].
    destruct (indicators_df s2) as [s3|] eqn:H3;
      [|split; [congruence|];
        intros (a & b & c & d & [= <-] & Hb & Hc & _); congruence].
    destruct (relative_df s3) as [s4|] eqn:H4;
      [|split; [congruence|];
        intros (a & b & c & d & [= <-] & Hb & Hc & Hd); congruence].
    split; [|discriminate]. intros _. exists s1, s2, s3, s4.
    repeat split; assumption.
Qed.

(** A snapshot file that does not parse stops the incremental update for
    good: [pl.read_parquet] raises before anything is computed, the
    function returns [False], and the disk is left as it is, so the next
    call meets the same file.  ([update_metadata] returns [False] right
    after, before it reaches the loader that could set the file
    aside.) *)
Theorem unreadable_snapshot_blocks_update (self : Manager)
  (sched : Schedule) (oracle : nat -> Attempt) (fs : FS Frame) :
  fs (market_states_path self) = Some Garbage ->
  update_market_states_incremental is_empty has_date compute_limits_df
    continuous_df indicators_df relative_df candles_df init_columns_df
    unique_df self sched oracle fs
  = (false, fs).
Proof.
  intros H. unfold update_market_states_incremental, read_parquet.
  rewrite H. reflexivity.
Qed.

End Persistence.

(** The writer on the demo disk, first attempt failing half-way: the
    half-written temporary file is gone afterwards. *)
Lemma writer_cleans_up_after_flaky_write :
  no_new_files demo_disk
    (final (safe_write_parquet demo_is_empty (Some [1; 2; 3]%nat)
              (market_states_path demo_manager) 3 flaky_then_fine demo_disk))
    (market_states_path demo_manager).
Proof.
  apply (writer_leaves_no_temp_files (list nat) demo_is_empty).
  intros [|k]; reflexivity.
Defined.

(** The merge on the demo disk: the stock metadata is as before. *)
Lemma update_leaves_demo_stock_metadata :
  snd (demo_update (fun rows => rows) flaky_then_fine demo_disk)
      (stock_metadata_path demo_manager)
  = demo_disk (stock_metadata_path demo_manager).
Proof.
  apply (update_leaves_stock_metadata_alone (list nat) demo_is_empty
           (fun _ => true) (fun d => Some d) (fun d => Some d)
           (fun d => Some d) (fun d => Some d) (fun d => Some d)
           (fun d => d) (list nat -> list nat) (Unique.unique demo_key)
           demo_manager (fun rows => rows) flaky_then_fine demo_disk).
  discriminate.
Defined.

(** A disk that holds the stock metadata and no snapshot yet. *)
Lemma precompute_on_a_disk_without_snapshot :
  let fs : FS (list nat) :=
    fun q => if String.eqb q (stock_metadata_path demo_manager)
             then Some (Parquet [1; 2; 3]%nat) else None in
  let res := precompute_market_states demo_is_empty (fun d => Some d)
               (fun d => Some d) (fun d => Some d) (fun d => Some d)
               (fun d => Some d) (fun d => d) demo_manager flaky_then_fine
               fs in
  fst res = true /\
  (fst res = true ->
   exists stock status,
     load_stock_metadata demo_manager fs = Some stock /\
     status_frame (fun d => Some d) (fun d => Some d) (fun d => Some d)
       (fun d => Some d) (fun d => Some d) (fun d => d) stock = Some status /\
     snd res (market_states_path demo_manager) = Some (Parquet status)) /\
  (fst res = false ->
   (forall k, falls_back (flaky_then_fine k) = false) ->
   snd res (market_states_path demo_manager)
   = fs (market_states_path demo_manager)).
Proof.
  intros fs. split; [reflexivity|].
  apply (precompute_writes_status_frame (list nat) demo_is_empty
           (fun d => Some d) (fun d => Some d) (fun d => Some d)
           (fun d => Some d) (fun d => Some d) (fun d => d) demo_manager
           flaky_then_fine fs).
  intros [|k]; cbn; discriminate.
Defined.

(** The demo disk with a snapshot cut short by a crash. *)
Lemma update_on_a_truncated_snapshot :
  let fs := fs_set demo_disk (market_states_path demo_manager) (Some Garbage) in
  demo_update (fun rows => rows) flaky_then_fine fs = (false, fs).
Proof.
  intros fs.
  apply (unreadable_snapshot_blocks_update (list nat) demo_is_empty
           (fun _ => true) (fun d => Some d) (fun d => Some d)
           (fun d => Some d) (fun d => Some d) (fun d => Some d)
           (fun d => d) (list nat -> list nat) (Unique.unique demo_key)
           demo_manager (fun rows => rows) flaky_then_fine fs).
  reflexivity.
Defined.

End WriterFacts.

(* ===================================================================== *)
(** * Running the incremental merge twice                                *)
(* ===================================================================== *)

Module MergeFacts.
Import Snapshot Writer SnapshotFacts WriterFacts.
Local Open Scope list_scope.

Section Merge.
Variable Row : Type.
Variable key : Row -> Unique.Key.
Variable is_empty : list Row -> bool.
Variable has_date : list Row -> bool.
Variables compute_limits_df continuous_df indicators_df relative_df
          candles_df : list Row -> option (list Row).
Variable init_columns_df : list Row -> list Row.

Lemma cell_eqb_eq (A : Type) (eqb : A -> A -> bool) :
  (forall a b, eqb a b = true <-> a = b) ->
  forall x y, Unique.cell_eqb eqb x y = true <-> x = y.
Proof.
  intros Heqb [a|] [b|]; cbn [Unique.cell_eqb].
  - rewrite Heqb. split; [intros ->; reflexivity|intros [= ->]; reflexivity].
  - split; discriminate.
  - split; discriminate.
  - split; reflexivity.
Qed.

Lemma key_eqb_eq (a b : Unique.Key) : Unique.key_eqb a b = true <-> a = b.
Proof.
  destruct a as [d n], b as [d' n']. unfold Unique.key_eqb. cbn [fst snd].
  rewrite Bool.andb_true_iff.
  rewrite (cell_eqb_eq Z Z.eqb Z.eqb_eq).
  rewrite (cell_eqb_eq string String.eqb String.eqb_eq).
  split; [intros [-> ->]; reflexivity|intros [= -> ->]; split; reflexivity].
Qed.

Lemma seen_key (k : Unique.Key) (seen : list Unique.Key) :
  existsb (Unique.key_eqb k) seen = true <-> In k seen.
Proof.
  rewrite existsb_exists. split.
  - intros (k' & Hin & E). apply key_eqb_eq in E. subst k'. exact Hin.
  - intros Hin. exists k. split; [exact Hin|apply key_eqb_eq; reflexivity].
Qed.

(** The keys that are kept are the keys of the rows that were not seen
    before. *)
Lemma first_per_key_keys (rows : list Row) :
  forall (seen : list Unique.Key) (k : Unique.Key),
    In k (map key (Unique.first_per_key key seen rows)) <->
    In k (map key rows) /\ ~ In k seen.
Proof.
  induction rows as [|r t IH]; intros seen k; cbn [Unique.first_per_key map].
  - cbn. tauto.
  - destruct (existsb (Unique.key_eqb (key r)) seen) eqn:E.
    + apply seen_key in E. rewrite IH. cbn [In]. split.
      * intros [H1 H2]. split; [right; exact H1|exact H2].
      * intros [[H1|H1] H2]; [subst k; contradiction|split; assumption].
    + assert (Hr : ~ In (key r) seen).
      { intros H. apply seen_key in H. congruence. }
      cbn [map In]. rewrite IH. cbn [In]. split.
      * intros [H|[H1 H2]].
        -- subst k. split; [left; reflexivity|exact Hr].
        -- split; [right; exact H1|]. intros H. apply H2. right. exact H.
      * intros [[H|H] H2]; [left; exact H|].
        destruct (Unique.key_eqb (key r) k) eqn:Ek.
        -- left. apply key_eqb_eq. exact Ek.
        -- right. split; [exact H|]. intros [H3|H3]; [|contradiction].
           apply key_eqb_eq in H3. congruence.
Qed.

(** No key is kept twice. *)
Lemma first_per_key_nodup (rows : list Row) :
  forall seen : list Unique.Key,
    NoDup (map key (Unique.first_per_key key seen rows)).
Proof.
  induction rows as [|r t IH]; intros seen; cbn [Unique.first_per_key map].
  - constructor.
  - destruct (existsb (Unique.key_eqb (key r)) seen); [apply IH|].
    cbn [map]. constructor; [|apply IH].
    intros H. apply first_per_key_keys in H. destruct H as [_ H].
    apply H. left. reflexivity.
Qed.

(** Every row that is kept is a row of the frame. *)
Lemma first_per_key_rows (rows : list Row) :
  forall (seen : list Unique.Key) (r : Row),
    In r (Unique.first_per_key key seen rows) -> In r rows.
Proof.
  induction rows as [|r0 t IH]; intros seen r; cbn [Unique.first_per_key].
  - intros [].
  - destruct (existsb (Unique.key_eqb (key r0)) seen).
    + intros H. right. apply (IH _ _ H).
    + intros [H|H]; [left; exact H|right; apply (IH _ _ H)].
Qed.

Lemma unique_keys (sched : Unique.Schedule Row) (df : list Row)
  (k : Unique.Key) :
  Unique.reorders sched ->
  In k (map key (Unique.unique key sched df)) <-> In k (map key df).
Proof.
  intros Hs. unfold Unique.unique. rewrite first_per_key_keys.
  pose proof (Permutation_map key (Hs df)) as Hp. split.
  - intros [H _]. apply (Permutation_in _ Hp H).
  - intros H. split; [|intros []].
    apply (Permutation_in _ (Permutation_sym Hp) H).
Qed.

Lemma unique_rows (sched : Unique.Schedule Row) (df : list Row) (r : Row) :
  Unique.reorders sched -> In r (Unique.unique key sched df) -> In r df.
Proof.
  intros Hs H. apply first_per_key_rows in H.
  apply (Permutation_in _ (Hs df) H).
Qed.

(** Two runs of [unique] on one frame keep the same keys. *)
Lemma unique_keys_permutation (sched1 sched2 : Unique.Schedule Row)
  (df : list Row) :
  Unique.reorders sched1 -> Unique.reorders sched2 ->
  Permutation (map key (Unique.unique key sched1 df))
              (map key (Unique.unique key sched2 df)).
Proof.
  intros H1 H2. apply NoDup_Permutation.
  - apply first_per_key_nodup.
  - apply first_per_key_nodup.
  - intros k. rewrite (unique_keys sched1 df k H1).
    rewrite (unique_keys sched2 df k H2). reflexivity.
Qed.

Lemma unique_rows_included (sched1 sched2 : Unique.Schedule Row)
  (df : list Row) (r : Row) :
  Unique.reorders sched1 -> Unique.reorders sched2 ->
  Unique.keys_determine_rows key df ->
  In r (Unique.unique key sched1 df) -> In r (Unique.unique key sched2 df).
Proof.
  intros H1 H2 Hkeys Hr.
  assert (Hk : In (key r) (map key (Unique.unique key sched2 df))).
  { apply (unique_keys sched2 df _ H2). apply (unique_keys sched1 df _ H1).
    apply in_map. exact Hr. }
  apply in_map_iff in Hk. destruct Hk as (r' & Ekey & Hr').
  assert (E : r' = r).
  { apply Hkeys; [apply (unique_rows sched2 df r' H2 Hr')|
                  apply (unique_rows sched1 df r H1 Hr)|exact Ekey]. }
  rewrite <- E. exact Hr'.
Qed.

(** When the key determines the row, two runs of [unique] on one frame
    keep the same rows. *)
Lemma unique_rows_permutation (sched1 sched2 : Unique.Schedule Row)
  (df : list Row) :
  Unique.reorders sched1 -> Unique.reorders sched2 ->
  Unique.keys_determine_rows key df ->
  Permutation (Unique.unique key sched1 df) (Unique.unique key sched2 df).
Proof.
  intros H1 H2 Hkeys. apply NoDup_Permutation.
  - apply (NoDup_map_inv key). apply first_per_key_nodup.
  - apply (NoDup_map_inv key). apply first_per_key_nodup.
  - intros r. split; apply unique_rows_included; assumption.
Qed.

(** C7: running the merge again after a merge that reported success.
    The second run rebuilds the table from the same stock metadata.
    When it reports success, the snapshot holds one row for each
    (日期, 名称) of the rebuilt table, as after the first run: the same
    keys, and the same rows when no two different rows of the rebuilt
    table share a key; the order of the rows is the one its own
    [unique] produced.  When it reports failure and [shutil.move] has
    not fallen back to copying, the snapshot is the one the first run
    wrote. *)
Theorem remerge_keeps_rows_up_to_order (self : Manager)
  (sched1 sched2 : Unique.Schedule Row) (oracle1 oracle2 : nat -> Attempt)
  (fs : FS (list Row)) (snapshot : FileContent (list Row)) :
  market_states_path self <> stock_metadata_path self ->
  fs (market_states_path self) = Some snapshot ->
  Unique.reorders sched1 -> Unique.reorders sched2 ->
  let update :=
    update_market_states_incremental is_empty has_date compute_limits_df
      continuous_df indicators_df relative_df candles_df init_columns_df
      (Unique.unique key) self in
  let once := update sched1 oracle1 fs in
  let twice := update sched2 oracle2 (snd once) in
  fst once = true ->
  exists merged first,
    merged_frame compute_limits_df continuous_df indicators_df relative_df
      candles_df (load_stock_metadata self fs) = Some merged /\
    snd once (market_states_path self) = Some (Parquet first) /\
    (fst twice = true ->
     exists second,
       snd twice (market_states_path self) = Some (Parquet second) /\
       Permutation (map key second) (map key first) /\
       NoDup (map key second) /\
       (forall k, In k (map key second) <-> In k (map key merged)) /\
       (Unique.keys_determine_rows key merged -> Permutation second first)) /\
    (fst twice = false ->
     (forall k, falls_back (oracle2 k) = false) ->
     snd twice (market_states_path self) = Some (Parquet first)).
Proof.
  intros Hpaths Hsnap Hs1 Hs2 update once twice Hok.
  subst twice once update. cbv beta in *.
  destruct (update_cases (list Row) is_empty has_date compute_limits_df
              continuous_df indicators_df relative_df candles_df
              init_columns_df (Unique.Schedule Row) (Unique.unique key)
              self sched1 oracle1 fs snapshot Hsnap)
    as [[Hf _]|(existing & stock_data & _ & _ & Hi & Hfinal & Hiff)];
    [congruence|].
  assert (Htarget : fs (market_states_path self) <> None)
    by (rewrite Hsnap; discriminate).
  pose proof (safe_write_commits (list Row) is_empty stock_data
                (market_states_path self) 3 oracle1 fs Htarget
                (proj1 Hiff Hok)) as [Hnew Hrest].
  rewrite <- Hfinal in Hnew, Hrest.
  pose proof (load_stock_metadata_exists (list Row) self fs
                (incremental_frame_needs_stock (list Row) compute_limits_df
                   continuous_df indicators_df relative_df candles_df
                   (Unique.Schedule Row) (Unique.unique key) sched1 _ _ Hi))
    as Hstock.
  unfold incremental_frame in Hi.
  destruct (merged_frame compute_limits_df continuous_df indicators_df
              relative_df candles_df (load_stock_metadata self fs))
    as [merged|] eqn:Hm; [|discriminate].
  injection Hi as <-.
  exists merged, (Unique.unique key sched1 merged).
  split; [reflexivity|]. split; [exact Hnew|].
  set (fs1 := snd (update_market_states_incremental is_empty has_date
                     compute_limits_df continuous_df indicators_df
                     relative_df candles_df init_columns_df
                     (Unique.unique key) self sched1 oracle1 fs)) in *.
  assert (Hload : load_stock_metadata self fs1 = load_stock_metadata self fs).
  { unfold load_stock_metadata, read_parquet. rewrite Hrest; [reflexivity| |].
    - exact Hstock.
    - intros E. apply Hpaths. symmetry. exact E. }
  assert (Htarget1 : fs1 (market_states_path self) <> None)
    by (rewrite Hnew; discriminate).
  destruct (update_cases (list Row) is_empty has_date compute_limits_df
              continuous_df indicators_df relative_df candles_df
              init_columns_df (Unique.Schedule Row) (Unique.unique key)
              self sched2 oracle2 fs1 _ Hnew)
    as [[Hf Hsame]|(existing' & stock_data' & _ & _ & Hi' & Hfinal' & Hiff')].
  - split; [congruence|]. intros _ _. rewrite Hsame. exact Hnew.
  - unfold incremental_frame in Hi'. rewrite Hload, Hm in Hi'.
    injection Hi' as <-.
    split.
    + intros Hok'.
      pose proof (safe_write_commits (list Row) is_empty
                    (Unique.unique key sched2 merged)
                    (market_states_path self) 3 oracle2 fs1 Htarget1
                    (proj1 Hiff' Hok')) as [Hnew' _].
      exists (Unique.unique key sched2 merged).
      split; [rewrite Hfinal'; exact Hnew'|].
      split; [apply unique_keys_permutation; assumption|].
      split; [apply first_per_key_nodup|].
      split; [intros k; apply unique_keys; assumption|].
      intros Hkeys. apply unique_rows_permutation; assumption.
    + intros Hf Hrename. rewrite Hfinal'.
      destruct (safe_write_at (list Row) is_empty
                  (Some (Unique.unique key sched2 merged))
                  (market_states_path self) 3 oracle2 fs1
                  (market_states_path self) (or_intror Htarget1))
        as [_ H2].
      rewrite H2; [exact Hnew| |right; exact Hrename].
      intros Ho. apply (proj2 Hiff') in Ho. congruence.
Qed.

End Merge.

(** On the demo disk, a first merge whose [unique] meets the rows in
    their order and a second merge whose [unique] meets them in reverse:
    both report success, and the snapshot holds rows 1, 2, 3 after the
    first and rows 3, 2, 1 after the second.  When the stock metadata
    holds two different rows, 3 and 13, for one date and name, the first
    merge keeps row 3 and the second keeps row 13. *)
Lemma remerge_reorders_snapshot :
  let target := market_states_path demo_manager in
  let once := demo_update (fun rows => rows) flaky_then_fine demo_disk in
  let twice := demo_update (@rev nat) flaky_then_fine (snd once) in
  let once' := demo_update (fun rows => rows) flaky_then_fine
                 demo_disk_with_duplicate in
  let twice' := demo_update (@rev nat) flaky_then_fine (snd once') in
  Unique.reorders (@rev nat) /\
  (fst once = true /\ fst twice = true /\
   snd once target = Some (Parquet [1; 2; 3]%nat) /\
   snd twice target = Some (Parquet [3; 2; 1]%nat) /\
   snd twice target <> snd once target) /\
  (fst once' = true /\ fst twice' = true /\
   snd once' target = Some (Parquet [1; 2; 3]%nat) /\
   snd twice' target = Some (Parquet [13; 2; 1]%nat)).
Proof.
  cbv zeta. split.
  - intros df. apply Permutation_sym, Permutation_rev.
  - split.
    + split; [reflexivity|]. split; [reflexivity|]. split; [reflexivity|].
      split; [reflexivity|]. vm_compute. discriminate.
    + split; [reflexivity|]. split; [reflexivity|]. split; reflexivity.
Qed.

(** The same two merges, as an instance of the statement of C7. *)
Lemma remerge_on_demo_disk :
  let once := demo_update (fun rows => rows) flaky_then_fine demo_disk in
  let twice := demo_update (@rev nat) flaky_then_fine (snd once) in
  fst twice = true /\
  exists merged first,
    merged_frame (fun d => Some d) (fun d => Some d) (fun d => Some d)
      (fun d => Some d) (fun d => Some d)
      (load_stock_metadata demo_manager demo_disk) = Some merged /\
    snd once (market_states_path demo_manager) = Some (Parquet first) /\
    (fst twice = true ->
     exists second,
       snd twice (market_states_path demo_manager) = Some (Parquet second) /\
       Permutation (map demo_key second) (map demo_key first) /\
       NoDup (map demo_key second) /\
       (forall k, In k (map demo_key second) <-> In k (map demo_key merged)) /\
       (Unique.keys_determine_rows demo_key merged ->
        Permutation second first)) /\
    (fst twice = false ->
     (forall k, falls_back (flaky_then_fine k) = false) ->
     snd twice (market_states_path demo_manager) = Some (Parquet first)).
Proof.
  cbv zeta. split; [reflexivity|].
  apply (remerge_keeps_rows_up_to_order nat demo_key demo_is_empty
           (fun _ => true) (fun d => Some d) (fun d => Some d)
           (fun d => Some d) (fun d => Some d) (fun d => Some d)
           (fun d => d) demo_manager (fun rows => rows) (@rev nat)
           flaky_then_fine flaky_then_fine demo_disk (Parquet [1; 2]%nat)).
  - cbn. intros H. discriminate H.
  - reflexivity.
  - intros df. apply Permutation_refl.
  - intros df. apply Permutation_sym, Permutation_rev.
  - reflexivity.
Defined.

End MergeFacts.

(* ===================================================================== *)
(** * Facts about [_parse_to_date]                                       *)
(* ===================================================================== *)

Module DateFacts.
Import Dates.

Lemma try_formats_gives_date (strptime : string -> string -> option (Z * Z))
  (s : string) (fmts : list string) (r : PyValue) :
  try_formats strptime s fmts = Some r -> exists d, r = PyDate d.
Proof.
  induction fmts as [|fmt rest IH]; cbn [try_formats]; [discriminate|].
  destruct (strptime s fmt) as [[d t]|]; [|exact IH].
  intros [= <-]. exists d. reflexivity.
Qed.

(** A [datetime] passes the [isinstance(value, date)] test, which comes
    first: it is handed back as it is, time of day included, and the
    branch that would call [.date()] is never taken.  A plain date comes
    out only for an input that is a plain date or a string. *)
Theorem parse_to_date_never_strips_time
  (strptime : string -> string -> option (Z * Z)) :
  (forall d t,
      _parse_to_date strptime (PyDatetime d t) = Some (PyDatetime d t)) /\
  (forall v d,
      _parse_to_date strptime v = Some (PyDate d) ->
      v = PyDate d \/ exists s, v = PyStr s) /\
  (forall v r,
      _parse_to_date strptime v = Some r ->
      r = v \/ exists s d, v = PyStr s /\ r = PyDate d).
Proof.
  split; [reflexivity|]. split.
  - intros [|d'|d' t|s|] d;
      cbn [_parse_to_date isinstance_date isinstance_datetime isinstance_str];
      try discriminate.
    + intros [= <-]. left. reflexivity.
    + intros _. right. exists s. reflexivity.
  - intros [|d'|d' t|s|] r;
      cbn [_parse_to_date isinstance_date isinstance_datetime isinstance_str];
      try discriminate.
    + intros [= <-]. left. reflexivity.
    + intros [= <-]. left. reflexivity.
    + intros H. right. exists s.
      destruct (try_formats_gives_date strptime s _ r H) as [d ->].
      exists d. split; reflexivity.
Qed.

End DateFacts.

(* ===================================================================== *)
(** * Facts about the cached loader                                      *)
(* ===================================================================== *)

Module LoaderFacts.
Import Snapshot Loader.
Local Open Scope Z_scope.

Lemma timedelta_seconds_lt (delta bound : Z) :
  0 < bound ->
  (timedelta_seconds delta < bound <->
   delta mod 86400000000 < bound * 1000000).
Proof.
  intros Hb. unfold timedelta_seconds.
  pose proof (Z.mod_pos_bound delta 86400000000 ltac:(lia)) as Hm.
  set (m := delta mod 86400000000) in *. clearbody m.
  pose proof (Z.div_mod m 1000000 ltac:(lia)) as Hd.
  pose proof (Z.mod_pos_bound m 1000000 ltac:(lia)) as Hr.
  split; intros H; nia.
Qed.

Section Loading.
Variable Frame : Type.
Variable is_empty : Frame -> bool.
Variables compute_limits_df continuous_df indicators_df relative_df
          candles_df : Frame -> option Frame.
Variable init_columns_df : Frame -> Frame.
Variable prepare_df : Frame -> option Frame.

(** The cache counts as fresh by the seconds field of its age alone. *)
Lemma cache_is_fresh_iff (st : CacheState Frame) (now : Z) :
  cache_is_fresh st now = true <->
  exists c stamp,
    _market_states_cache st = Some c /\ _cache_timestamp st = Some stamp /\
    (now - stamp) mod 86400000000 < 300000000.
Proof.
  unfold cache_is_fresh.
  destruct (_market_states_cache st) as [c|];
    [|split; [discriminate|intros (c & s & H & _); discriminate]].
  destruct (_cache_timestamp st) as [stamp|];
    [|split; [discriminate|intros (c' & s & _ & H & _); discriminate]].
  rewrite Z.ltb_lt, (timedelta_seconds_lt _ 300) by lia.
  split.
  - intros H. exists c, stamp. repeat split. exact H.
  - intros (c' & s & _ & [= <-] & H). exact H.
Qed.

(** The age test reads [.seconds], the seconds field of the age, not
    its total: a cache filled [days] whole days and less than five
    minutes ago is served as fresh, for every number of days, without a
    look at the disk. *)
Theorem stale_cache_is_served (w : World) (self : Manager)
  (fuel depth : nat) (st : CacheState Frame) (fs : FS Frame) (c : Frame)
  (stamp days age : Z) :
  _market_states_cache st = Some c ->
  _cache_timestamp st = Some stamp ->
  now_at_check w depth = stamp + 86400000000 * days + age ->
  0 <= age < 300000000 ->
  load_market_states is_empty compute_limits_df continuous_df indicators_df
    relative_df candles_df init_columns_df prepare_df w self (S fuel) depth
    st fs
  = (Some c, st, fs).
Proof.
  intros Hc Hs Hnow Hage. cbn [load_market_states].
  assert (Hfresh : cache_is_fresh st (now_at_check w depth) = true).
  { apply cache_is_fresh_iff. exists c, stamp.
    split; [exact Hc|]. split; [exact Hs|].
    rewrite Hnow.
    replace (stamp + 86400000000 * days + age - stamp)
      with (age + days * 86400000000) by lia.
    rewrite Z.mod_add by lia. rewrite Z.mod_small by lia. lia. }
  rewrite Hfresh, Hc. reflexivity.
Qed.

(** Whatever the loader returns is what the cache holds afterwards, and
    a load that returns [None] leaves cache and timestamp as they
    were. *)
Theorem loaded_frame_is_cached (w : World) (self : Manager) (fuel : nat) :
  forall (depth : nat) (st : CacheState Frame) (fs : FS Frame),
    let res := load_market_states is_empty compute_limits_df continuous_df
                 indicators_df relative_df candles_df init_columns_df
                 prepare_df w self fuel depth st fs in
    (forall d, fst (fst res) = Some d ->
               _market_states_cache (snd (fst res)) = Some d) /\
    (fst (fst res) = None -> snd (fst res) = st).
Proof.
  induction fuel as [|fuel IH]; intros depth st fs; cbn zeta.
  - cbn. split; [discriminate|reflexivity].
  - cbn [load_market_states].
    assert (Hregen : forall fs0,
      let res :=
        (let (ok, fs1) :=
           precompute_market_states is_empty compute_limits_df continuous_df
             indicators_df relative_df candles_df init_columns_df self
             (write_oracle w depth) fs0 in
         if ok
         then load_market_states is_empty compute_limits_df continuous_df
                indicators_df relative_df candles_df init_columns_df
                prepare_df w self fuel (S depth) st fs1
         else (None, st, fs1)) in
      (forall d, fst (fst res) = Some d ->
                 _market_states_cache (snd (fst res)) = Some d) /\
      (fst (fst res) = None -> snd (fst res) = st)).
    { intros fs0. cbn zeta.
      destruct (precompute_market_states _ _ _ _ _ _ _ _ _ fs0) as [[|] fs1].
      - apply IH.
      - cbn. split; [discriminate|reflexivity]. }
    assert (Hnone : forall fs0 : FS Frame,
      (forall d, fst (fst (@None Frame, st, fs0)) = Some d ->
                 _market_states_cache (snd (fst (@None Frame, st, fs0)))
                 = Some d) /\
      (fst (fst (@None Frame, st, fs0)) = None ->
       snd (fst (@None Frame, st, fs0)) = st)).
    { intros fs0. cbn. split; [discriminate|reflexivity]. }
    destruct (cache_is_fresh st (now_at_check w depth)).
    + cbn. split; [auto|reflexivity].
    + destruct (fs (market_states_path self)) as [content|];
        [|apply Hregen].
      destruct (read_parquet fs (market_states_path self)) as [data|].
      * destruct (prepare_df data) as [data'|].
        -- cbn. split; [auto|discriminate].
        -- destruct (reports_corruption w depth); [|apply Hnone].
           destruct (backup_moves w depth); [apply Hregen|apply Hnone].
      * destruct (reports_corruption w depth); [|apply Hnone].
        destruct (backup_moves w depth); [apply Hregen|apply Hnone].
Qed.

End Loading.

(** A cache filled one day and one minute ago, on the demo disk. *)
Lemma day_old_cache_is_served :
  load_market_states demo_is_empty (fun d => Some d) (fun d => Some d)
    (fun d => Some d) (fun d => Some d) (fun d => Some d) (fun d => d)
    (fun d => Some d)
    (mkWorld (fun _ => 86460000000) (fun _ => 86460000000)
       (fun _ => flaky_then_fine) (fun _ => false)
       (fun _ => "data_cache/other/market_states.parquet.corrupted_0")
       (fun _ => true))
    demo_manager 1 0 (mkCacheState (Some [7]%nat) (Some 0)) demo_disk
  = (Some [7]%nat, mkCacheState (Some [7]%nat) (Some 0), demo_disk).
Proof.
  apply (stale_cache_is_served (list nat) demo_is_empty (fun d => Some d)
           (fun d => Some d) (fun d => Some d) (fun d => Some d)
           (fun d => Some d) (fun d => d) (fun d => Some d) _ demo_manager
           0 0 _ demo_disk [7]%nat 0 1 60000000).
  - reflexivity.
  - reflexivity.
  - reflexivity.
  - lia.
Defined.

End LoaderFacts.

(* ===================================================================== *)
(** * Facts about the daily market statistics                            *)
(* ===================================================================== *)

Module DailyStatsFacts.
Import Polars DailyStats.
Local Open Scope list_scope.
Local Open Scope Z_scope.





End DailyStatsFacts.

(* ===================================================================== *)
(** * The two streak columns side by side                                *)
(* ===================================================================== *)

Module StreakColumnFacts.
Import Polars Streak Chains ColumnFacts StreakFacts ChainFacts CandleRunFacts.
Local Open Scope list_scope.
Local Open Scope Z_scope.

(** A run length of [L] on row [i] means that the [L] rows ending at [i]
    are all flagged. *)
Lemma run_lengths_run (flags : list bool) (i : nat) :
  (i < List.length flags)%nat ->
  0 <= nth i (run_lengths 0 flags) 0 <= Z.of_nat i + 1 /\
  forall k : nat,
    Z.of_nat i - nth i (run_lengths 0 flags) 0 < Z.of_nat k <= Z.of_nat i ->
    nth k flags false = true.
Proof.
  induction i as [|i IH]; intros Hi.
  - rewrite nth_run_lengths by exact Hi. cbn [Nat.ltb Nat.leb].
    destruct (nth 0 flags false) eqn:E.
    + split; [lia|]. intros k Hk. assert (k = 0%nat) as -> by lia. exact E.
    + split; [lia|]. intros k Hk. lia.
  - rewrite nth_run_lengths by exact Hi.
    replace (0 <? S i)%nat with true by reflexivity.
    replace (S i - 1)%nat with i by lia.
    destruct (IH ltac:(lia)) as [Hb Hrun].
    destruct (nth (S i) flags false) eqn:E.
    + split; [lia|]. intros k Hk.
      destruct (Nat.eq_dec k (S i)) as [->|Hne]; [exact E|].
      apply Hrun. lia.
    + split; [lia|]. intros k Hk. lia.
Qed.

Lemma limit_ups_between_all (limit_up : col Z) (lo hi : Z) :
  lo <= hi + 1 ->
  (forall k, lo <= k <= hi -> is_one (cell limit_up k) = true) ->
  limit_ups_between limit_up lo hi = hi - lo + 1.
Proof.
  intros Hle H. unfold limit_ups_between, py_range_desc.
  replace (hi - lo + 1) with (Z.of_nat (Z.to_nat (hi - (lo - 1)))) by lia.
  f_equal.
  assert (G : forall n s, (forall k, s - Z.of_nat n < k <= s ->
                                     is_one (cell limit_up k) = true) ->
                          List.length
                            (filter (fun j => is_one (cell limit_up j))
                                    (range_down s n)) = n).
  { induction n as [|n IH]; intros s Hs; [reflexivity|].
    cbn [range_down filter]. rewrite (Hs s) by lia.
    cbn [List.length]. f_equal. apply IH. intros k Hk. apply Hs. lia. }
  apply G. intros k Hk. apply H. lia.
Qed.

Lemma cell_of_flags (flags : list bool) (k : nat) :
  is_one (cell (map cast_int (map Some flags)) (Z.of_nat k))
  = nth k flags false.
Proof.
  rewrite cell_nth.
  change None with (cast_int None) at 1. rewrite map_nth.
  destruct (Nat.lt_ge_cases k (List.length flags)) as [Hlt|Hge].
  - rewrite (nth_indep _ None (Some false)) by (rewrite length_map; exact Hlt).
    rewrite map_nth. destruct (nth k flags false); reflexivity.
  - rewrite !nth_overflow by (rewrite ?length_map; exact Hge). reflexivity.
Qed.

(** On a 涨停 column without nulls the two streak columns agree in this
    sense: on every limit-up row, 连板数 (the run of consecutive limit-up
    days) is at most the board count [B] of the label "D天B板", which is
    at most [D]. *)
Theorem streak_len_at_most_board_count (flags : list bool) (i : nat) :
  (i < List.length flags)%nat ->
  nth i flags false = true ->
  exists cols D B,
    calculate_continuous_limit_up_optimized (map Some flags) = Ok cols /\
    nth i (board_label cols) EmptyString = label D B /\
    1 <= nth i (streak_len cols) 0 <= B /\ B <= D.
Proof.
  intros Hi Hflag.
  set (zt := map Some flags).
  set (limit_up := map cast_int zt).
  enough (Hmain : exists D B,
             nth i (map (label_of limit_up) (seq 0 (List.length zt)))
                 EmptyString = label D B /\
             1 <= nth i (streak_column zt) 0 <= B /\ B <= D).
  { destruct Hmain as (D & B & Hmain).
    exists {| streak_len := streak_column zt;
              board_label := map (label_of limit_up)
                                 (seq 0 (List.length zt)) |}, D, B.
    split; [apply calculate_continuous_ok|exact Hmain].
    unfold zt. destruct flags; [simpl in Hi; lia|discriminate]. }
  assert (Hlen : List.length zt = List.length flags) by apply length_map.
  rewrite (nth_indep _ EmptyString (label_of limit_up 0%nat))
    by (rewrite length_map, length_seq, Hlen; exact Hi).
  rewrite map_nth, seq_nth by (rewrite Hlen; exact Hi). cbn [Nat.add].
  assert (Hcol : streak_column zt = run_lengths 0 flags).
  { unfold zt, streak_column, limit_group, is_limit_changed, shift_fill,
      cumsum, int_range_over.
    rewrite length_map. cbn [repeat app].
    rewrite ne_shifted_null_free.
    apply (streak_groups_null_free flags false 0 [] 0%nat 0);
      [intros s []|reflexivity|discriminate|reflexivity]. }
  rewrite Hcol.
  destruct (run_lengths_run flags i Hi) as [HL Hrun].
  set (L := nth i (run_lengths 0 flags) 0) in *.
  assert (HL1 : 1 <= L).
  { subst L. rewrite nth_run_lengths by exact Hi. rewrite Hflag.
    destruct (0 <? i)%nat eqn:E; [|lia].
    apply Nat.ltb_lt in E.
    destruct (run_lengths_run flags (i - 1) ltac:(lia)) as [H0 _]. lia. }
  assert (Hone : is_one (nth i limit_up None) = true).
  { rewrite <- cell_nth. unfold limit_up, zt. rewrite cell_of_flags.
    exact Hflag. }
  unfold label_of. rewrite Hone. cbn [negb].
  destruct (trailing_count limit_up i <=? 1) eqn:Hpre.
  - apply Z.leb_le in Hpre.
    exists 1, 1. split; [reflexivity|].
    split; [|lia]. split; [exact HL1|].
    destruct (Z.le_gt_cases L 1) as [Hle|Hgt]; [exact Hle|exfalso].
    assert (Hi1 : (1 <= i)%nat) by lia.
    pose proof (Hrun (i - 1)%nat ltac:(lia)) as Hprev.
    pose proof (precheck_clears_four_rows zt i (i - 1) Hone Hpre ltac:(lia))
      as Hclear.
    fold limit_up in Hclear. rewrite <- cell_nth in Hclear.
    unfold limit_up, zt in Hclear. rewrite cell_of_flags in Hclear.
    congruence.
  - destruct (full_walk_counts limit_up i Hone) as (HB & HD & Hfirst & Hcount).
    pose proof (walk_ends_on_empty_window limit_up
                  (mkWalk 1 (Z.of_nat i) (Z.of_nat i - 1))) as Hend.
    cbn [start_pos current_pos] in Hend. specialize (Hend ltac:(lia)).
    unfold full_walk_label. unfold full_walk in *.
    destruct (walk limit_up (mkWalk 1 (Z.of_nat i) (Z.of_nat i - 1)))
      as [c s] eqn:Hw.
    cbn [fst snd] in *.
    exists (Z.of_nat i - s + 1), c.
    split; [reflexivity|]. split; [|lia].
    split; [exact HL1|].
    replace (Z.of_nat i - (Z.of_nat i - s + 1) + 1) with s in * by lia.
    assert (Hs : s <= Z.of_nat i - L + 1).
    { destruct (Z.le_gt_cases s (Z.of_nat i - L + 1)) as [H|H]; [exact H|].
      exfalso.
      pose proof (Hend (s - 1) ltac:(lia)) as Hzero.
      pose proof (Hrun (Z.to_nat (s - 1)) ltac:(lia)) as Htrue.
      rewrite <- cell_of_flags in Htrue. rewrite Z2Nat.id in Htrue by lia.
      fold zt in Htrue. fold limit_up in Htrue. congruence. }
    rewrite Hcount.
    rewrite (limit_ups_between_split limit_up s (Z.of_nat i - L + 1)
               (Z.of_nat i)) by lia.
    rewrite (limit_ups_between_all limit_up (Z.of_nat i - L + 1) (Z.of_nat i))
      by (try lia; intros k Hk;
          replace k with (Z.of_nat (Z.to_nat k)) by lia;
          unfold limit_up, zt; rewrite cell_of_flags; apply Hrun; lia).
    pose proof (limit_ups_between_le limit_up s (Z.of_nat i - L + 1 - 1)
                  ltac:(lia)).
    lia.
Qed.

(** Five limit-up days in a row: on the last one the run is 5 and the
    label counts at least 5 boards. *)
Lemma streak_len_on_five_boards :
  exists cols D B,
    calculate_continuous_limit_up_optimized
      (map Some [true; true; true; true; true]) = Ok cols /\
    nth 4 (board_label cols) EmptyString = label D B /\
    1 <= nth 4 (streak_len cols) 0 <= B /\ B <= D.
Proof.
  apply (streak_len_at_most_board_count [true; true; true; true; true] 4).
  - simpl. lia.
  - reflexivity.
Defined.

End StreakColumnFacts.
